(** * Field-hockey roster scraper: a shallow embedding and its properties

    The development follows [src/fhockey_roster_scraper.py] and
    [src/enhance_roster_data.py].

    - [PyStr]: the operations of Python's [str] that the source uses, on
      Rocq strings.  A character of ASCII is one character of the Rocq
      string; a character beyond ASCII is held as the bytes of its UTF-8
      encoding.  The character classes ([\s], [\w], [\d]) and the case
      mappings are those of Python on ASCII and on the letters beyond
      ASCII that have an ASCII letter in their upper or lower case, which
      [re.IGNORECASE] and [str.upper] can turn into the letters of the
      patterns; any other character beyond ASCII is taken as a character
      that is neither white space, nor a digit, nor a word character, and
      that the case mappings leave as it is.
    - [FieldExtractors]: the field normalisers, one hand-written matcher per
      regular expression of the source.
    - [Html]: the part of a parsed page (BeautifulSoup) that the scraper
      looks at.
    - [Scraper]: [StandardScraper], [RosterManager] and the season check,
      over an abstract HTTP session, in a state-and-exception monad.
    - [Enhancer]: [ProfileEnhancer.scrape_player_profile] on CSV rows.
    - [EnhanceCsv]: [ProfileEnhancer.enhance_csv] on the records of a CSV
      file, with the rows as [csv.DictReader] gives them. *)

From Stdlib Require Import Ascii String List ZArith Lia Bool.
From stdpp Require Import base option strings list gmap pretty.

Local Open Scope string_scope.

(* ===================================================================== *)
(** ** Python strings *)
(* ===================================================================== *)

Module PyStr.

Definition code (c : ascii) : nat := nat_of_ascii c.

Definition between (lo hi n : nat) : bool := (lo <=? n)%nat && (n <=? hi)%nat.

(** [str.isspace] / [\s] on ASCII: TAB..CR, FS..US and the blank. *)
Definition is_space (c : ascii) : bool :=
  between 9 13 (code c) || between 28 32 (code c).

Definition is_digit (c : ascii) : bool := between 48 57 (code c).
Definition is_upper (c : ascii) : bool := between 65 90 (code c).
Definition is_lower (c : ascii) : bool := between 97 122 (code c).

(** [\w] on ASCII: letters, digits and the underscore. *)
Definition is_word (c : ascii) : bool :=
  is_upper c || is_lower c || is_digit c || (code c =? 95)%nat.

Definition upper_char (c : ascii) : ascii :=
  if is_lower c then ascii_of_nat (code c - 32) else c.

Definition lower_char (c : ascii) : ascii :=
  if is_upper c then ascii_of_nat (code c + 32) else c.

Fixpoint map_chars (f : ascii -> ascii) (s : string) : string :=
  match s with
  | EmptyString => EmptyString
  | String c r => String (f c) (map_chars f r)
  end.

(** Truth value of a string: [if s:] holds for a non-empty one. *)
Definition truthy (s : string) : bool :=
  match s with EmptyString => false | String _ _ => true end.

(** [a or b] on strings. *)
Definition str_or (a b : string) : string := if truthy a then a else b.

Definition eqb_char (a b : ascii) : bool := Ascii.eqb a b.

(** [s.startswith(p)]. *)
Fixpoint startswith (p s : string) : bool :=
  match p, s with
  | EmptyString, _ => true
  | String a p', String b s' => eqb_char a b && startswith p' s'
  | String _ _, EmptyString => false
  end.

(** *** Text beyond ASCII

    A character beyond ASCII is held as the bytes of its UTF-8 encoding,
    given here by their codes. *)
Definition of_codes (codes : list nat) : string :=
  fold_right (fun n s => String (ascii_of_nat n) s) EmptyString codes.

(** U+0130, capital I with dot above; U+0131, dotless i; U+017F, long s;
    U+212A, the Kelvin sign. *)
Definition capital_i_dot : string := of_codes [196; 176].
Definition dotless_i : string := of_codes [196; 177].
Definition long_s : string := of_codes [197; 191].
Definition kelvin_sign : string := of_codes [226; 132; 170].

(** The characters beyond ASCII whose upper case has an ASCII letter,
    each with its upper case: the simple mappings of dotless i and long
    s, and the entries of Unicode's SpecialCasing (sharp s, n preceded by
    apostrophe, j with caron, h with line below, t with diaeresis, w and
    y with ring above, a with right half ring, and the ligatures ff, fi,
    fl, ffi, ffl, long s t and st). *)
Definition upper_beyond_ascii : list (string * string) :=
  [ (dotless_i, "I"); (long_s, "S");
    (of_codes [195; 159], "SS");
    (of_codes [197; 137], of_codes [202; 188] +:+ "N");
    (of_codes [199; 176], "J" +:+ of_codes [204; 140]);
    (of_codes [225; 186; 150], "H" +:+ of_codes [204; 177]);
    (of_codes [225; 186; 151], "T" +:+ of_codes [204; 136]);
    (of_codes [225; 186; 152], "W" +:+ of_codes [204; 138]);
    (of_codes [225; 186; 153], "Y" +:+ of_codes [204; 138]);
    (of_codes [225; 186; 154], "A" +:+ of_codes [202; 190]);
    (of_codes [239; 172; 128], "FF"); (of_codes [239; 172; 129], "FI");
    (of_codes [239; 172; 130], "FL"); (of_codes [239; 172; 131], "FFI");
    (of_codes [239; 172; 132], "FFL"); (of_codes [239; 172; 133], "ST");
    (of_codes [239; 172; 134], "ST") ].

(** The characters beyond ASCII whose lower case has an ASCII letter:
    capital I with dot above (i and the combining dot above) and the
    Kelvin sign. *)
Definition lower_beyond_ascii : list (string * string) :=
  [ (capital_i_dot, "i" +:+ of_codes [204; 135]); (kelvin_sign, "k") ].

Fixpoint find_prefix (table : list (string * string)) (s : string)
  : option (string * string) :=
  match table with
  | [] => None
  | (from, to) :: table' =>
      if startswith from s then Some (from, to) else find_prefix table' s
  end.

(** A case mapping: [f] on the characters of ASCII, [table] on the
    characters beyond it that the table lists; [skip] counts the bytes
    left of a character that was mapped as a whole.  Any other character
    beyond ASCII is left as it is: its upper and lower case have no
    ASCII letter. *)
Fixpoint map_case (f : ascii -> ascii) (table : list (string * string)) (skip : nat)
    (s : string) : string :=
  match s with
  | EmptyString => EmptyString
  | String c r =>
      match skip with
      | S skip' => map_case f table skip' r
      | O =>
          match find_prefix table s with
          | Some (from, to) => to +:+ map_case f table (String.length from - 1) r
          | None => String (f c) (map_case f table 0 r)
          end
      end
  end.

(** [s.upper()] and [s.lower()]. *)
Definition upper (s : string) : string := map_case upper_char upper_beyond_ascii 0 s.
Definition lower (s : string) : string := map_case lower_char lower_beyond_ascii 0 s.

(** [p in s]. *)
Fixpoint contains (p s : string) : bool :=
  startswith p s ||
  match s with
  | EmptyString => false
  | String _ r => contains p r
  end.

(** [s.lstrip()], [s.rstrip()], [s.strip()]. *)
Fixpoint lstrip (s : string) : string :=
  match s with
  | EmptyString => EmptyString
  | String c r => if is_space c then lstrip r else s
  end.

Fixpoint rstrip (s : string) : string :=
  match s with
  | EmptyString => EmptyString
  | String c r =>
      match rstrip r with
      | EmptyString => if is_space c then EmptyString else String c EmptyString
      | r' => String c r'
      end
  end.

Definition strip (s : string) : string := rstrip (lstrip s).

(** [s.rstrip('/')]. *)
Fixpoint rstrip_slash (s : string) : string :=
  match s with
  | EmptyString => EmptyString
  | String c r =>
      match rstrip_slash r with
      | EmptyString => if eqb_char c "/" then EmptyString else String c EmptyString
      | r' => String c r'
      end
  end.

(** [s.split(sep)[0]]: the text before the first occurrence of [sep],
    the whole of [s] when there is none ([sep] is not empty). *)
Fixpoint before_first (sep s : string) : string :=
  match s with
  | EmptyString => EmptyString
  | String c r => if startswith sep s then EmptyString else String c (before_first sep r)
  end.

(** [s[-2:]]. *)
Fixpoint last_two (s : string) : string :=
  match s with
  | String _ (String _ (String _ _ as r) as r') => last_two r'
  | _ => s
  end.

(** The letters beyond ASCII that the model knows: those of the two
    tables.  They are word characters ([\w]); any other character beyond
    ASCII counts as a character that is no white space, no digit and no
    word character. *)
Definition letters_beyond_ascii : list (string * string) :=
  lower_beyond_ascii ++ upper_beyond_ascii.

(** The letter beyond ASCII at the head of [s], if any. *)
Definition letter_at (s : string) : option string :=
  option_map fst (find_prefix letters_beyond_ascii s).

(** [\b] before the head of [s]; [prev_word] tells whether the character
    before it is a word character. *)
Definition head_is_word (s : string) : bool :=
  match s with
  | String c _ =>
      is_word c || match letter_at s with Some _ => true | None => false end
  | EmptyString => false
  end.

Definition boundary (prev_word : bool) (s : string) : bool :=
  xorb prev_word (head_is_word s).

End PyStr.

(* ===================================================================== *)
(** ** Field extractors *)
(* ===================================================================== *)

Module FieldExtractors.
Import PyStr.

(** [re.sub(r'\s+', ' ', text)]: [in_run] tells that the previous
    character belonged to the white-space run being replaced. *)
Fixpoint sub_ws (in_run : bool) (text : string) : string :=
  match text with
  | EmptyString => EmptyString
  | String c r =>
      if is_space c
      then (if in_run then sub_ws true r else String " " (sub_ws true r))
      else String c (sub_ws false r)
  end.

Definition clean_text (text : string) : string :=
  if negb (truthy text) then ""
  else strip (sub_ws false text).

(** *** Small matchers for the regular expressions

    A matcher consumes a prefix of the text and returns it with the
    rest.  [digits1], [spaces0] and the like are greedy and never give
    back what they took: at each use below the characters that may follow
    are outside the class, so Python's backtracking search finds the same
    match.  Where giving back matters ([ws_then_run], [lazy_head],
    [digits12_b]) the matcher is written out. *)

Definition matcher := string -> option (string * string).

Fixpoint span (ok : ascii -> bool) (s : string) : string * string :=
  match s with
  | String c r =>
      if ok c then let '(d, t) := span ok r in (String c d, t) else (EmptyString, s)
  | EmptyString => (EmptyString, EmptyString)
  end.

Definition many0 (ok : ascii -> bool) : matcher := fun s => Some (span ok s).

Definition many1 (ok : ascii -> bool) : matcher := fun s =>
  let '(d, t) := span ok s in if truthy d then Some (d, t) else None.

Definition digits1 : matcher := many1 is_digit.
Definition spaces0 : matcher := many0 is_space.
Definition spaces1 : matcher := many1 is_space.

Fixpoint drop (n : nat) (s : string) : string :=
  match n, s with
  | S n', String _ r => drop n' r
  | _, _ => s
  end.

Fixpoint take (n : nat) (s : string) : string :=
  match n, s with
  | S n', String c r => String c (take n' r)
  | _, _ => EmptyString
  end.

Definition lit (p : string) : matcher := fun s =>
  if startswith p s then Some (p, drop (String.length p) s) else None.

Definition one_of (ok : ascii -> bool) : matcher := fun s =>
  match s with
  | String c r => if ok c then Some (String c EmptyString, r) else None
  | EmptyString => None
  end.

Definition seq (p q : matcher) : matcher := fun s =>
  match p s with
  | Some (a, r) => match q r with
                   | Some (b, r') => Some (a +:+ b, r')
                   | None => None
                   end
  | None => None
  end.

(** [(?: p )?], greedy. *)
Definition opt (p : matcher) : matcher := fun s =>
  match p s with
  | Some m => Some m
  | None => Some (EmptyString, s)
  end.

Local Infix ">>" := seq (at level 61, left associativity).

(** [re.search]: the leftmost position at which [m] matches; [m] is told
    whether the character before the position is a word character.
    [skip] counts the bytes left of a letter beyond ASCII: no match
    starts inside a character. *)
Fixpoint search_at {A} (m : bool -> string -> option A) (skip : nat) (prev_word : bool)
    (s : string) : option A :=
  match skip with
  | S skip' =>
      match s with
      | EmptyString => None
      | String _ r => search_at m skip' prev_word r
      end
  | O =>
      match m prev_word s with
      | Some g => Some g
      | None =>
          match s with
          | EmptyString => None
          | String c r =>
              match letter_at s with
              | Some letter => search_at m (String.length letter - 1) true r
              | None => search_at m 0 (is_word c) r
              end
          end
      end
  end.

Definition search {A} (m : bool -> string -> option A) (prev_word : bool) (s : string)
  : option A :=
  search_at m 0 prev_word s.

Fixpoint first_some {A B} (f : A -> option B) (l : list A) : option B :=
  match l with
  | [] => None
  | x :: l' => match f x with Some y => Some y | None => first_some f l' end
  end.

Fixpoint in_tuple (x : string) (l : list string) : bool :=
  match l with
  | [] => false
  | y :: l' => String.eqb x y || in_tuple x l'
  end.

(** [\s*] followed by [(C+)] for a character class [C] given by [ok]:
    the white space is taken greedily and given back one character at a
    time until a character of the class follows; the group is the run of
    class characters from there. *)
Definition run1 (ok : ascii -> bool) (s : string) : option string :=
  let g := fst (span ok s) in if truthy g then Some g else None.

Fixpoint ws_then_run (ok : ascii -> bool) (s : string) : option string :=
  match s with
  | String c r =>
      if is_space c
      then match ws_then_run ok r with
           | Some g => Some g
           | None => run1 ok s
           end
      else run1 ok s
  | EmptyString => None
  end.

(** [(\d{1,2})\b]: one or two digits ending at a word boundary. *)
Definition digits12 (s : string) : option (string * string) :=
  let '(d, t) := span is_digit s in
  if (1 <=? String.length d)%nat && (String.length d <=? 2)%nat then Some (d, t) else None.

Definition digits12_b (s : string) : option string :=
  match digits12 s with
  | Some (d, t) => if boundary true t then Some d else None
  | None => None
  end.

(** *** extract_jersey_number *)

Definition is_colon_or_space (c : ascii) : bool := eqb_char c ":" || is_space c.

(** [Jersey Number[:\s]+(\d+)] *)
Definition jersey_pat1 (_ : bool) (s : string) : option string :=
  match (lit "Jersey Number" >> many1 is_colon_or_space) s with
  | Some (_, r) => option_map fst (digits1 r)
  | None => None
  end.

(** [#(\d{1,2})\b] *)
Definition jersey_pat2 (_ : bool) (s : string) : option string :=
  match lit "#" s with
  | Some (_, r) => digits12_b r
  | None => None
  end.

(** [No\.?[:\s]*(\d{1,2})\b] *)
Definition jersey_pat3 (_ : bool) (s : string) : option string :=
  match (lit "No" >> opt (lit ".") >> many0 is_colon_or_space) s with
  | Some (_, r) => digits12_b r
  | None => None
  end.

(** [\b(\d{1,2})\s+(?=[A-Z])] *)
Definition jersey_pat4 (prev_word : bool) (s : string) : option string :=
  if boundary prev_word s then
    match digits12 s with
    | Some (d, t) =>
        match spaces1 t with
        | Some (_, String c _) => if is_upper c then Some d else None
        | _ => None
        end
    | None => None
    end
  else None.

(** [^\s*(\d{1,2})\s*$], tried at the start of the text only. *)
Definition jersey_pat5 (s : string) : option string :=
  match digits12 (snd (span is_space s)) with
  | Some (d, t) =>
      match snd (span is_space t) with
      | EmptyString => Some d
      | String _ _ => None
      end
  | None => None
  end.

Definition extract_jersey_number (text : string) : string :=
  if negb (truthy text) then ""
  else
    let patterns :=
      [ search jersey_pat1 false; search jersey_pat2 false; search jersey_pat3 false;
        search jersey_pat4 false; jersey_pat5 ] in
    match first_some (fun pattern => pattern text) patterns with
    | Some g => g
    | None => ""
    end.

(** *** extract_height *)

Definition is_quote1 (c : ascii) : bool := eqb_char c "039".
Definition is_quote2 (c : ascii) : bool := eqb_char c "034" || eqb_char c "039".

(** Feet and inches: digits, an apostrophe, optional white space, digits,
    then one or two of the double quote and the apostrophe (characters 34
    and 39; the prime and double prime of the source are beyond ASCII). *)
Definition imperial : matcher :=
  digits1 >> one_of is_quote1 >> spaces0 >> digits1 >> one_of is_quote2 >>
  opt (one_of is_quote2).

(** [\s*/\s*\d+\.\d+m] *)
Definition metric_tail : matcher :=
  spaces0 >> lit "/" >> spaces0 >> digits1 >> lit "." >> digits1 >> lit "m".

Definition group_of (m : matcher) (_ : bool) (s : string) : option string :=
  option_map fst (m s).

Definition not_comma_newline (c : ascii) : bool :=
  negb (eqb_char c "," || eqb_char c "010").

(** [Height:\s*([^\,\n]+)] *)
Definition height_label (_ : bool) (s : string) : option string :=
  match lit "Height:" s with
  | Some (_, r) => ws_then_run not_comma_newline r
  | None => None
  end.

Definition extract_height (text : string) : string :=
  if negb (truthy text) then ""
  else
    let patterns :=
      [ group_of (imperial >> opt metric_tail);
        group_of imperial;
        group_of (digits1 >> lit "-" >> digits1);
        group_of (digits1 >> lit "." >> digits1 >> lit "m");
        height_label ] in
    match first_some (fun pattern => search pattern false text) patterns with
    | Some g => strip g
    | None => ""
    end.

(** *** extract_position *)

(** The alternatives of the position pattern, in the order written. *)
Definition position_tokens : list string :=
  [ "GK"; "G"; "GOALKEEPER"; "GOALIE";
    "D"; "DEF"; "DEFENSE"; "DEFENDER"; "B"; "BACK";
    "M"; "MF"; "MID"; "MIDFIELDER"; "MIDFIELD";
    "F"; "FW"; "FOR"; "FORWARD"; "A"; "ATT"; "ATTACK"; "ATTACKER"; "O"; "OFFENSE" ].

(** The characters that match the letter [a] of a pattern under
    [re.IGNORECASE]: the letter in both cases, the characters beyond
    ASCII that have it as their lower case (capital I with dot above for
    i, the Kelvin sign for k), and those that [re] pairs with it
    (dotless i with i, long s with s). *)
Definition same_letter (a : ascii) : list string :=
  [ String (upper_char a) EmptyString; String (lower_char a) EmptyString ]
  ++ (if eqb_char (lower_char a) "i" then [capital_i_dot; dotless_i]
      else if eqb_char (lower_char a) "k" then [kelvin_sign]
      else if eqb_char (lower_char a) "s" then [long_s]
      else []).

(** A literal under [re.IGNORECASE]. *)
Fixpoint lit_ci (p : string) : matcher := fun s =>
  match p with
  | EmptyString => Some (EmptyString, s)
  | String a p' =>
      match first_some (fun form => lit form s) (same_letter a) with
      | Some (g, r) =>
          match lit_ci p' r with
          | Some (g', r') => Some (g +:+ g', r')
          | None => None
          end
      | None => None
      end
  end.

(** One alternative followed by [\b]; the group is the text matched. *)
Definition token_at (s : string) (t : string) : option string :=
  match lit_ci t s with
  | Some (g, r) => if boundary true r then Some g else None
  | None => None
  end.

(** [\b(GK|G|...|OFFENSE)\b] at one position. *)
Definition position_pat (prev_word : bool) (s : string) : option string :=
  if boundary prev_word s then first_some (token_at s) position_tokens else None.

Definition extract_position (text : string) : string :=
  if negb (truthy text) then ""
  else
    let text := strip text in
    match search position_pat false text with
    | Some g =>
        let pos := upper g in
        if in_tuple pos ["GK"; "G"; "GOALKEEPER"; "GOALIE"] then "GK"
        else if in_tuple pos ["DEF"; "D"; "DEFENSE"; "DEFENDER"; "B"; "BACK"] then "D"
        else if in_tuple pos ["MID"; "MF"; "MIDFIELDER"; "MIDFIELD"] then "M"
        else if in_tuple pos ["FOR"; "FW"; "F"; "FORWARD"; "A"; "ATT"; "ATTACK";
                              "ATTACKER"; "O"; "OFFENSE"] then "F"
        else pos
    | None =>
        let text_upper := upper text in
        if contains "GOALKEEPER" text_upper || contains "GOALIE" text_upper
           || contains "KEEPER" text_upper then "GK"
        else if contains "DEFENSE" text_upper || contains "DEFENDER" text_upper
                || contains "BACK" text_upper then "D"
        else if contains "MIDFIELDER" text_upper || contains "MIDFIELD" text_upper then "M"
        else if contains "FORWARD" text_upper || contains "ATTACK" text_upper
                || contains "OFFENSE" text_upper then "F"
        else ""
    end.

(** *** normalize_academic_year *)

Definition year_map : list (string * string) :=
  [ ("Fr", "Freshman"); ("Fr.", "Freshman"); ("FR", "Freshman");
    ("So", "Sophomore"); ("So.", "Sophomore"); ("SO", "Sophomore");
    ("Jr", "Junior"); ("Jr.", "Junior"); ("JR", "Junior");
    ("Sr", "Senior"); ("Sr.", "Senior"); ("SR", "Senior");
    ("Gr", "Graduate"); ("Gr.", "Graduate"); ("GR", "Graduate");
    ("R-Fr", "Redshirt Freshman"); ("R-Fr.", "Redshirt Freshman");
    ("R-So", "Redshirt Sophomore"); ("R-So.", "Redshirt Sophomore");
    ("R-Jr", "Redshirt Junior"); ("R-Jr.", "Redshirt Junior");
    ("R-Sr", "Redshirt Senior"); ("R-Sr.", "Redshirt Senior");
    ("1st", "Freshman"); ("First", "Freshman");
    ("2nd", "Sophomore"); ("Second", "Sophomore");
    ("3rd", "Junior"); ("Third", "Junior");
    ("4th", "Senior"); ("Fourth", "Senior");
    ("5th", "Graduate"); ("Fifth", "Graduate") ].

(** [d.get(key, default)] on a dict literal. *)
Fixpoint dict_get (d : list (string * string)) (key default : string) : string :=
  match d with
  | [] => default
  | (k, v) :: d' => if String.eqb k key then v else dict_get d' key default
  end.

Definition normalize_academic_year (year_text : string) : string :=
  if negb (truthy year_text) then ""
  else dict_get year_map year_text year_text.

(** *** extract_hometown_parts *)

(** The text before the first [/] and the text after it. *)
Fixpoint split_slash (s : string) : option (string * string) :=
  match s with
  | EmptyString => None
  | String c r =>
      if eqb_char c "/" then Some (EmptyString, r)
      else match split_slash r with
           | Some (a, b) => Some (String c a, b)
           | None => None
           end
  end.

Fixpoint all_space (s : string) : bool :=
  match s with
  | EmptyString => true
  | String c r => is_space c && all_space r
  end.

(** [([^/]+?)\s*] up to the slash: the shortest non-empty prefix of
    [pre] that leaves only white space before the slash. *)
Fixpoint lazy_head (pre : string) : option string :=
  match pre with
  | EmptyString => None
  | String c r =>
      if all_space r then Some (String c EmptyString)
      else option_map (String c) (lazy_head r)
  end.

Definition not_newline (c : ascii) : bool := negb (eqb_char c "010").

(** [re.match(r'([^/]+?)\s*/\s*(.+)', text)]: groups 1 and 2. *)
Definition hometown_match (text : string) : option (string * string) :=
  match split_slash text with
  | Some (pre, post) =>
      match lazy_head pre, ws_then_run not_newline post with
      | Some g1, Some g2 => Some (g1, g2)
      | _, _ => None
      end
  | None => None
  end.

Definition extract_hometown_parts (hometown_text : string) : string * string :=
  if negb (truthy hometown_text) then ("", "")
  else
    match hometown_match hometown_text with
    | Some (g1, g2) => (strip g1, strip g2)
    | None => (strip hometown_text, "")
    end.

End FieldExtractors.

(* ===================================================================== *)
(** ** Parsed pages *)
(* ===================================================================== *)

(** What the scraper reads of a BeautifulSoup document.  Every text is the
    [get_text()] of the element; an absent element ([find] returning
    [None]) is [None].  A [Tag] is always true in a condition. *)
Module Html.

(** An [<a href=...>]. *)
Record Anchor := { a_text : string; a_href : string }.

(** An element of which the text and the first link are read: a heading
    of a roster item, a cell of a table. *)
Record Elem := { text : string; link : option Anchor }.

(** A labelled field: the label span and the value span of one
    [custom-fields] or [bio-item] container. *)
Record Field := { label_elem : option string; value_elem : option string }.

(** One [<li class="sidearm-roster-player">]. *)
Record RosterItem := {
  jersey_elem : option string;
  h3 : option Elem;
  h2 : option Elem;
  meta_fields : list Field
}.

(** A [<tr>]: its [th] and [td] cells. *)
Definition Row := list Elem.

(** A [<table>]: the rows of its [<thead>] and of its [<tbody>] when it
    has them, and the rows outside both. *)
Record Table := {
  sidearm_table : bool;          (* class_='sidearm-table' *)
  thead : option (list Row);
  tbody : option (list Row);
  loose_rows : list Row
}.

Definition rows_of (o : option (list Row)) : list Row :=
  match o with Some l => l | None => [] end.

(** [table.find_all('tr')], in document order. *)
Definition all_rows (t : Table) : list Row :=
  rows_of (thead t) ++ rows_of (tbody t) ++ loose_rows t.

Record Page := {
  page_text : string;                                (* html.get_text() *)
  roster_items : list RosterItem;                    (* li.sidearm-roster-player *)
  tables : list Table;                               (* every table *)
  bio_section : option (list Field);                 (* div.sidearm-roster-player-bio *)
  dl_section : option (list string * list string)    (* dl...: its dt and dd texts *)
}.

(** [html.find('table', class_='sidearm-table')] and [html.find('table')]. *)
Fixpoint find_sidearm_table (l : list Table) : option Table :=
  match l with
  | [] => None
  | t :: l' => if sidearm_table t then Some t else find_sidearm_table l'
  end.

Definition find_table (l : list Table) : option Table := head l.

(** [html.find_all('table', class_='sidearm-table')]. *)
Definition find_all_sidearm_tables (l : list Table) : list Table :=
  filter (fun t => sidearm_table t = true) l.

End Html.

(* ===================================================================== *)
(** ** Data structures *)
(* ===================================================================== *)

Record Player := {
  team_id : Z;
  team : string;
  season : string;
  division : string;
  player_id : option string;
  name : string;
  jersey : string;
  position : string;
  height : string;
  year : string;
  major : string;
  hometown : string;
  high_school : string;
  previous_school : string;
  url : string
}.

Definition set_position (v : string) (p : Player) : Player :=
  {| team_id := team_id p; team := team p; season := season p; division := division p;
     player_id := player_id p; name := name p; jersey := jersey p; position := v;
     height := height p; year := year p; major := major p; hometown := hometown p;
     high_school := high_school p; previous_school := previous_school p; url := url p |}.

Definition set_height (v : string) (p : Player) : Player :=
  {| team_id := team_id p; team := team p; season := season p; division := division p;
     player_id := player_id p; name := name p; jersey := jersey p; position := position p;
     height := v; year := year p; major := major p; hometown := hometown p;
     high_school := high_school p; previous_school := previous_school p; url := url p |}.

Definition set_year (v : string) (p : Player) : Player :=
  {| team_id := team_id p; team := team p; season := season p; division := division p;
     player_id := player_id p; name := name p; jersey := jersey p; position := position p;
     height := height p; year := v; major := major p; hometown := hometown p;
     high_school := high_school p; previous_school := previous_school p; url := url p |}.

Definition set_major (v : string) (p : Player) : Player :=
  {| team_id := team_id p; team := team p; season := season p; division := division p;
     player_id := player_id p; name := name p; jersey := jersey p; position := position p;
     height := height p; year := year p; major := v; hometown := hometown p;
     high_school := high_school p; previous_school := previous_school p; url := url p |}.

Definition set_hometown (v : string) (p : Player) : Player :=
  {| team_id := team_id p; team := team p; season := season p; division := division p;
     player_id := player_id p; name := name p; jersey := jersey p; position := position p;
     height := height p; year := year p; major := major p; hometown := v;
     high_school := high_school p; previous_school := previous_school p; url := url p |}.

Definition set_high_school (v : string) (p : Player) : Player :=
  {| team_id := team_id p; team := team p; season := season p; division := division p;
     player_id := player_id p; name := name p; jersey := jersey p; position := position p;
     height := height p; year := year p; major := major p; hometown := hometown p;
     high_school := v; previous_school := previous_school p; url := url p |}.

Definition set_previous_school (v : string) (p : Player) : Player :=
  {| team_id := team_id p; team := team p; season := season p; division := division p;
     player_id := player_id p; name := name p; jersey := jersey p; position := position p;
     height := height p; year := year p; major := major p; hometown := hometown p;
     high_school := high_school p; previous_school := v; url := url p |}.

(** ** Season verification *)

Module SeasonVerifier.
Import PyStr.

Definition digit_value (c : ascii) : Z := Z.of_nat (code c - 48).

(** Decimal digits with single underscores between them. *)
Fixpoint parse_digits (acc : Z) (prev_digit : bool) (s : string) : option Z :=
  match s with
  | EmptyString => if prev_digit then Some acc else None
  | String c r =>
      if is_digit c then parse_digits (10 * acc + digit_value c) true r
      else if eqb_char c "_" && prev_digit
              && match r with String d _ => is_digit d | EmptyString => false end
           then parse_digits acc false r
           else None
  end.

(** The white space that [int] skips around the number: C's [isspace],
    which leaves out the separators 28 to 31 that [str.strip] removes. *)
Definition is_c_space (c : ascii) : bool :=
  between 9 13 (code c) || (code c =? 32)%nat.

Fixpoint lstrip_c (s : string) : string :=
  match s with
  | EmptyString => EmptyString
  | String c r => if is_c_space c then lstrip_c r else s
  end.

Fixpoint rstrip_c (s : string) : string :=
  match s with
  | EmptyString => EmptyString
  | String c r =>
      match rstrip_c r with
      | EmptyString => if is_c_space c then EmptyString else String c EmptyString
      | r' => String c r'
      end
  end.

(** [int(s)]: [None] stands for [ValueError]. *)
Definition py_int (s : string) : option Z :=
  match rstrip_c (lstrip_c s) with
  | String "-" r => option_map Z.opp (parse_digits 0 false r)
  | String "+" r => parse_digits 0 false r
  | t => parse_digits 0 false t
  end.

(** [str(n)] on an integer. *)
Definition py_str (n : Z) : string := pretty n.

Definition season_range (year : Z) : string :=
  py_str (year - 1) +:+ "-" +:+ last_two (py_str (year + 1)).

Definition verify_season_on_page (html : Html.Page) (season : string) : bool :=
  let page_text := Html.page_text html in
  if contains season page_text then true
  else
    match py_int season with
    | Some year => if contains (season_range year) page_text then true else false
    | None => false
    end.

End SeasonVerifier.

(** ** URL builder and team configuration *)

Module TeamConfig.
Import PyStr.

(** [TEAM_CONFIGS]: the url_format of the teams it lists. *)
Definition TEAM_CONFIGS : list (Z * string) := [ (312%Z, "fhockey"); (519%Z, "fhockey") ].

Fixpoint config_of (team_id : Z) (l : list (Z * string)) : option string :=
  match l with
  | [] => None
  | (k, v) :: l' => if Z.eqb k team_id then Some v else config_of team_id l'
  end.

Definition get_url_format (team_id : Z) (team_url : string) : string :=
  match config_of team_id TEAM_CONFIGS with
  | Some fmt => fmt
  | None =>
      if truthy team_url then
        if contains "/sports/fhockey" team_url then "fhockey"
        else if contains "/sports/field-hockey" team_url then "default"
        else "default"
      else "default"
  end.

End TeamConfig.

(* ===================================================================== *)
(** ** The HTTP session and the monad of the scraper *)
(* ===================================================================== *)

(** Exceptions: [requests.RequestException] and any other [Exception],
    each with its message ([str(e)]). *)
Inductive PyExc :=
| RequestException (msg : string)
| OtherException (msg : string).

Definition exc_message (e : PyExc) : string :=
  match e with RequestException m => m | OtherException m => m end.

(** What [session.get(url, ...)] does: it raises, or it returns a response
    of which the status code and the parsed body are read
    ([BeautifulSoup(response.content, 'html.parser')]). *)
Inductive Reply :=
| Raises (e : PyExc)
| Response (status_code : Z) (content : Html.Page).

(** The transport and the domain extraction are collaborators of the
    scraper: [session_get] answers a request in a state of the world and
    moves it on; [tld_extract] is [tldextract.extract], giving the
    subdomain, the domain and the suffix of a URL. *)
Class Session (World : Type) := {
  session_get : string -> World -> Reply * World;
  tld_extract : string -> string * string * string
}.

(** The warnings and errors sent to the logger. *)
Inductive LogRecord :=
| UnknownUrlFormat (url_format : string)
| FailedToRetrieve (team_name : string) (status : Z)
| SeasonMismatch (team_name : string)
| RequestError (team_name : string) (e : PyExc)
| ErrorScraping (team_name : string) (e : PyExc)
| FailedProfile (who : string) (status : Z)
| ProfileRequestError (who : string) (e : PyExc)
| ProfileError (who : string) (e : PyExc)
| NoRosterItems (team_name : string)
| NoTable (team_name : string)
| NoHeaderRow (team_name : string)
| ErrorParsing (team_name : string) (e : PyExc)
| ZeroPlayers
| TeamError (e : PyExc).

Section Monad.
Context {World : Type}.

(** The state: the world behind the session, the URLs requested so far
    and the log, both oldest first. *)
Record St := { world : World; requests : list string; log : list LogRecord }.

Definition M (A : Type) : Type := St -> (PyExc + A) * St.

Definition ret {A} (x : A) : M A := fun st => (inr x, st).

Definition bind {A B} (m : M A) (k : A -> M B) : M B := fun st =>
  match m st with
  | (inl e, st') => (inl e, st')
  | (inr x, st') => k x st'
  end.

(** [try: body  except Exception as e: handler(e)]. *)
Definition try_except {A} (body : M A) (handler : PyExc -> M A) : M A := fun st =>
  match body st with
  | (inl e, st') => handler e st'
  | (inr x, st') => (inr x, st')
  end.

(** [raise e]. *)
Definition raise {A} (e : PyExc) : M A := fun st => (inl e, st).

Definition warn (r : LogRecord) : M unit := fun st =>
  (inr tt, {| world := world st; requests := requests st; log := log st ++ [r] |}).

Fixpoint for_each {A B} (body : B -> A -> M B) (acc : B) (l : list A) : M B :=
  match l with
  | [] => ret acc
  | x :: l' => bind (body acc x) (fun acc' => for_each body acc' l')
  end.

End Monad.

Arguments St : clear implicits.
Arguments M : clear implicits.

Notation "x <- m ;; k" := (bind m (fun x => k))
  (at level 100, m at next level, right associativity, only parsing).
Notation "m ;;; k" := (bind m (fun _ => k))
  (at level 100, right associativity, only parsing).

(* ===================================================================== *)
(** ** StandardScraper *)
(* ===================================================================== *)

Module Scraper.
Import PyStr FieldExtractors Html.

Record HttpResponse := { status_code : Z; content : Page }.

Section WithSession.
Context {World : Type} {session : Session World}.

Local Abbreviation M := (M World).

(** [self.session.get(url, ...)]: the request is recorded. *)
Definition get (url : string) : M HttpResponse := fun st =>
  let '(reply, w) := session_get url (world st) in
  let st' := {| world := w; requests := requests st ++ [url]; log := log st |} in
  match reply with
  | Raises e => (inl e, st')
  | Response sc body => (inr {| status_code := sc; content := body |}, st')
  end.

(** *** URLBuilder.build_roster_url *)
Definition build_roster_url (base_url season url_format : string) : M string :=
  let base_url := rstrip_slash base_url in
  if String.eqb url_format "default" then ret (base_url +:+ "/roster/" +:+ season)
  else if String.eqb url_format "fhockey" then ret (base_url +:+ "/roster/" +:+ season)
  else (warn (UnknownUrlFormat url_format) ;;;
        ret (base_url +:+ "/roster/" +:+ season)).

(** The domain of [tldextract.extract(base_url)], with its subdomain. *)
Definition site_domain (base_url : string) : string :=
  let '(subdomain, domain, suffix) := tld_extract base_url in
  let domain := domain +:+ "." +:+ suffix in
  if truthy subdomain then subdomain +:+ "." +:+ domain else domain.

(** The absolute URL of a link of the roster page. *)
Definition absolute_url (domain rel_url : string) : string :=
  if startswith "http" rel_url then rel_url
  else if startswith "/" rel_url then "https://" +:+ domain +:+ rel_url
  else "https://" +:+ domain +:+ "/" +:+ rel_url.

(** *** _scrape_player_profile *)

Definition no_data (value : string) : bool :=
  negb (truthy value) || String.eqb value "-".

(** The rules of the bio items and of the dt/dd pairs. *)
Definition bio_rule (label value : string) (player : Player) : Player :=
  if contains "position" label || contains "pos" label then
    if negb (truthy (position player))
    then set_position (extract_position value) player else player
  else if contains "height" label || contains "ht" label then
    if negb (truthy (height player))
    then set_height (str_or (extract_height value) value) player else player
  else if contains "class" label || contains "year" label || contains "eligibility" label then
    if negb (truthy (year player))
    then set_year (normalize_academic_year value) player else player
  else if contains "major" label || contains "academic" label then
    if negb (truthy (major player)) then set_major value player else player
  else if contains "hometown" label then
    if negb (truthy (hometown player)) then
      let '(hometown, hs) := extract_hometown_parts value in
      let player := set_hometown hometown player in
      if truthy hs && negb (truthy (high_school player))
      then set_high_school hs player else player
    else player
  else if contains "high school" label || contains "hs" label then
    if negb (truthy (high_school player)) then set_high_school value player else player
  else if contains "previous school" label || contains "last school" label
          || contains "transfer" label then
    if negb (truthy (previous_school player))
    then set_previous_school value player else player
  else player.

(** The rules of the rows of a detail table. *)
Definition detail_rule (label value : string) (player : Player) : Player :=
  if contains "position" label then
    if negb (truthy (position player))
    then set_position (extract_position value) player else player
  else if contains "height" label then
    if negb (truthy (height player))
    then set_height (str_or (extract_height value) value) player else player
  else if contains "class" label || contains "year" label then
    if negb (truthy (year player))
    then set_year (normalize_academic_year value) player else player
  else if contains "major" label then
    if negb (truthy (major player)) then set_major value player else player
  else if contains "hometown" label then
    if negb (truthy (hometown player)) then
      let '(hometown, hs) := extract_hometown_parts value in
      let player := set_hometown hometown player in
      if truthy hs && negb (truthy (high_school player))
      then set_high_school hs player else player
    else player
  else if contains "high school" label then
    if negb (truthy (high_school player)) then set_high_school value player else player
  else if contains "previous school" label then
    if negb (truthy (previous_school player))
    then set_previous_school value player else player
  else player.

(** *** The walk over a profile page

    Both tools walk a fetched profile page in the same way, each with
    its own rules and its own kind of record [T]. *)
Section ProfilePage.
Context {T : Type}.
Variables bio_rule detail_rule : string -> string -> T -> T.

(** One labelled pair: cleaned, skipped when it carries no data. *)
Definition labelled (rule : string -> string -> T -> T)
    (raw_label raw_value : string) (record : T) : T :=
  let label := lower (clean_text raw_label) in
  let value := clean_text raw_value in
  if no_data value then record else rule label value record.

Definition bio_item (record : T) (item : Field) : T :=
  match label_elem item, value_elem item with
  | Some l, Some v => labelled bio_rule l v record
  | _, _ => record
  end.

(** [for dt, dd in zip(dts, dds)]. *)
Fixpoint zip {A B} (l : list A) (l' : list B) : list (A * B) :=
  match l, l' with
  | x :: r, y :: r' => (x, y) :: zip r r'
  | _, _ => []
  end.

Definition dl_pair (record : T) (p : string * string) : T :=
  labelled bio_rule (fst p) (snd p) record.

Definition detail_row (record : T) (cells : Row) : T :=
  match cells with
  | c0 :: c1 :: _ => labelled detail_rule (text c0) (text c1) record
  | _ => record
  end.

Definition detail_table (record : T) (table : Table) : T :=
  fold_left detail_row (all_rows table) record.

(** The bio items, then the dt/dd pairs, then the detail tables. *)
Definition walk_profile (html : Page) (record : T) : T :=
  let record :=
    match bio_section html with
    | Some bio_items => fold_left bio_item bio_items record
    | None => record
    end in
  let record :=
    match dl_section html with
    | Some (dts, dds) => fold_left dl_pair (zip dts dds) record
    | None => record
    end in
  fold_left detail_table (find_all_sidearm_tables (tables html)) record.

End ProfilePage.

Definition profile_fill (html : Page) (player : Player) : Player :=
  walk_profile bio_rule detail_rule html player.

Definition _scrape_player_profile (player : Player) : M Player :=
  if negb (truthy (url player)) then ret player
  else
    try_except
      (response <- get (url player) ;;
       if negb (status_code response =? 200)%Z
       then (warn (FailedProfile (name player) (status_code response)) ;;;
             ret player)
       else ret (profile_fill (content response) player))
      (fun e =>
         match e with
         | RequestException _ => warn (ProfileRequestError (name player) e) ;;; ret player
         | OtherException _ => warn (ProfileError (name player) e) ;;; ret player
         end).


(** *** _extract_players: the item-list shape *)

(** The local variables that the custom fields of an item fill. *)
Record Meta := {
  m_position : string; m_year : string; m_hometown : string;
  m_high_school : string; m_height : string
}.

Definition meta_empty : Meta :=
  {| m_position := ""; m_year := ""; m_hometown := ""; m_high_school := "";
     m_height := "" |}.

Definition meta_field (acc : Meta) (meta : Field) : Meta :=
  match label_elem meta, value_elem meta with
  | Some l, Some v =>
      let label := lower (clean_text l) in
      let value := clean_text v in
      if contains "position" label || contains "pos" label then
        {| m_position := extract_position value; m_year := m_year acc;
           m_hometown := m_hometown acc; m_high_school := m_high_school acc;
           m_height := m_height acc |}
      else if contains "class" label || contains "year" label then
        {| m_position := m_position acc; m_year := normalize_academic_year value;
           m_hometown := m_hometown acc; m_high_school := m_high_school acc;
           m_height := m_height acc |}
      else if contains "hometown" label then
        let '(hometown, hs) := extract_hometown_parts value in
        {| m_position := m_position acc; m_year := m_year acc;
           m_hometown := hometown;
           m_high_school := if truthy hs then hs else m_high_school acc;
           m_height := m_height acc |}
      else if contains "high school" label then
        {| m_position := m_position acc; m_year := m_year acc;
           m_hometown := m_hometown acc; m_high_school := value;
           m_height := m_height acc |}
      else if contains "height" label then
        {| m_position := m_position acc; m_year := m_year acc;
           m_hometown := m_hometown acc; m_high_school := m_high_school acc;
           m_height := extract_height value |}
      else acc
  | _, _ => acc
  end.

(** The name and the profile URL of a heading or of a name cell. *)
Definition name_and_url (domain : string) (e : Elem) : string * string :=
  match link e with
  | Some name_link => (clean_text (a_text name_link), absolute_url domain (a_href name_link))
  | None => (clean_text (text e), "")
  end.

Section Team.
Variables (the_team_id : Z) (team_name the_season the_division : string).
Variable scrape_profiles : bool.

Definition new_player (name jersey position height year hometown high_school url : string)
  : Player :=
  {| team_id := the_team_id; team := team_name; season := the_season;
     division := the_division; player_id := None; name := name; jersey := jersey;
     position := position; height := height; year := year; major := "";
     hometown := hometown; high_school := high_school; previous_school := "";
     url := url |}.

(** The last steps of both loops: the profile page, then the append. *)
Definition enrich_and_append (players : list Player) (player : Player)
  : M (list Player) :=
  player <- (if scrape_profiles && truthy (url player)
             then _scrape_player_profile player else ret player) ;;
  ret (players ++ [player])%list.

Definition roster_item (domain : string) (players : list Player) (item : RosterItem)
  : M (list Player) :=
  try_except
    (let jersey := match jersey_elem item with
                   | Some t => clean_text t
                   | None => ""
                   end in
     let name_elem := match h3 item with Some e => Some e | None => h2 item end in
     let '(name, profile_url) := match name_elem with
                                 | Some e => name_and_url domain e
                                 | None => ("", "")
                                 end in
     let meta := fold_left meta_field (meta_fields item) meta_empty in
     let player := new_player name jersey (m_position meta) (m_height meta)
                     (m_year meta) (m_hometown meta) (m_high_school meta)
                     profile_url in
     enrich_and_append players player)
    (fun e => warn (ErrorParsing team_name e) ;;; ret players).

(** *** _extract_players_from_table: the table shape *)

(** [next((i for i, h in enumerate(headers) if test(h)), None)]. *)
Fixpoint find_index (test : string -> bool) (headers : list string) : option nat :=
  match headers with
  | [] => None
  | h :: r => if test h then Some 0%nat else option_map S (find_index test r)
  end.

(** [cols[idx]] under the guard [idx is not None and idx < len(cols)]. *)
Definition col (idx : option nat) (cols : Row) : option Elem :=
  match idx with
  | Some i => cols !! i
  | None => None
  end.

Definition cell_text (idx : option nat) (cols : Row) : option string :=
  option_map (fun c => clean_text (text c)) (col idx cols).

Record Columns := {
  name_idx : option nat; jersey_idx : option nat; pos_idx : option nat;
  year_idx : option nat; height_idx : option nat; hometown_idx : option nat;
  hs_idx : option nat
}.

Definition map_columns (headers : list string) : Columns :=
  {| name_idx := find_index (fun h => contains "name" h) headers;
     jersey_idx := find_index (fun h => contains "#" h || contains "number" h
                                        || contains "jersey" h) headers;
     pos_idx := find_index (fun h => contains "pos" h) headers;
     year_idx := find_index (fun h => contains "year" h || contains "class" h) headers;
     height_idx := find_index (fun h => contains "height" h || contains "ht" h) headers;
     hometown_idx := find_index (fun h => contains "hometown" h) headers;
     hs_idx := find_index (fun h => contains "high school" h || contains "hs" h) headers |}.

(** The record of a row with at least two cells, before enrichment. *)
Definition row_player (domain : string) (idx : Columns) (cols : Row) : Player :=
  let '(name, profile_url) := match col (name_idx idx) cols with
                              | Some name_cell => name_and_url domain name_cell
                              | None => ("", "")
                              end in
  let jersey := match cell_text (jersey_idx idx) cols with
                | Some jersey => str_or (extract_jersey_number jersey) jersey
                | None => ""
                end in
  let position := match cell_text (pos_idx idx) cols with
                  | Some pos_text => extract_position pos_text
                  | None => ""
                  end in
  let year := match cell_text (year_idx idx) cols with
              | Some year_text => normalize_academic_year year_text
              | None => ""
              end in
  let height := match cell_text (height_idx idx) cols with
                | Some height_text => str_or (extract_height height_text) height_text
                | None => ""
                end in
  let '(hometown, high_school) :=
    match cell_text (hometown_idx idx) cols with
    | Some hometown_text =>
        let '(hometown, hs) := extract_hometown_parts hometown_text in
        (hometown, if truthy hs then hs else "")
    | None => ("", "")
    end in
  let high_school := match cell_text (hs_idx idx) cols with
                     | Some hs_text => hs_text
                     | None => high_school
                     end in
  new_player name jersey position height year hometown high_school profile_url.

Definition table_row (domain : string) (idx : Columns) (players : list Player)
    (cols : Row) : M (list Player) :=
  if (length cols <? 2)%nat then ret players
  else
    try_except
      (enrich_and_append players (row_player domain idx cols))
      (fun e => warn (ErrorParsing team_name e) ;;; ret players).

(** [rows[1:]]. *)
Definition rest_of {A} (l : list A) : list A := tail l.

Definition _extract_players_from_table (html : Page) (base_url : string)
  : M (list Player) :=
  let table := match find_sidearm_table (tables html) with
               | Some t => Some t
               | None => find_table (tables html)
               end in
  match table with
  | None => warn (NoTable team_name) ;;; ret []
  | Some table =>
      let domain := site_domain base_url in
      (* the cells of the thead, else of the first row *)
      let header_row := match thead table with
                        | Some rows => Some (concat rows)
                        | None => head (all_rows table)
                        end in
      match header_row with
      | None => warn (NoHeaderRow team_name) ;;; ret []
      | Some header_cells =>
          let headers := map (fun th => lower (clean_text (text th))) header_cells in
          let idx := map_columns headers in
          let rows := match tbody table with
                      | Some rows => rows
                      | None => all_rows table
                      end in
          for_each (table_row domain idx) [] (rest_of rows)
      end
  end.

Definition _extract_players (html : Page) (base_url : string) : M (list Player) :=
  match roster_items html with
  | [] =>
      warn (NoRosterItems team_name) ;;;
      _extract_players_from_table html base_url
  | roster_items =>
      let domain := site_domain base_url in
      for_each (roster_item domain) [] roster_items
  end.

(** *** scrape_team

    The function in the order of its text: the roster URL, the
    visit of the base domain, the fetch with its alternatives, the
    use of the response. *)

(** The visit of the base domain, whose failure is ignored. *)
Definition visit_base (base_url : string) : M unit :=
  let domain_base := if contains "/sports" base_url
                     then before_first "/sports" base_url else base_url in
  try_except (get domain_base ;;; ret tt) (fun _ => ret tt).

(** The roster page, then on a 404 the page without the year, then
    the .aspx page. *)
Definition fetch_roster (base_url roster_url : string) : M HttpResponse :=
  response <- get roster_url ;;
  if (status_code response =? 404)%Z then
    response <- get (rstrip_slash base_url +:+ "/roster") ;;
    if (status_code response =? 200)%Z then ret response
    else get (rstrip_slash base_url +:+ "/roster.aspx")
  else ret response.

(** The season check, whose only effect is a warning. *)
Definition check_season (verify_season : Page -> string -> bool) (html : Page)
  : M unit :=
  if negb (verify_season html the_season)
  then warn (SeasonMismatch team_name) else ret tt.

(** The page once fetched: the season check, then the players. *)
Definition scrape_page (verify_season : Page -> string -> bool) (html : Page)
    (base_url : string) : M (list Player) :=
  check_season verify_season html ;;;
  _extract_players html base_url.

Definition use_response (verify_season : Page -> string -> bool)
    (response : HttpResponse) (base_url : string) : M (list Player) :=
  if negb (status_code response =? 200)%Z then
    warn (FailedToRetrieve team_name (status_code response)) ;;; ret []
  else scrape_page verify_season (content response) base_url.

Definition on_error (e : PyExc) : M (list Player) :=
  match e with
  | RequestException _ => warn (RequestError team_name e) ;;; ret []
  | OtherException _ => warn (ErrorScraping team_name e) ;;; ret []
  end.

(** [scrape_team], with the season check it calls as a parameter. *)
Definition scrape_team_with (verify_season : Page -> string -> bool)
    (base_url : string) : M (list Player) :=
  try_except
    (let url_format := TeamConfig.get_url_format the_team_id base_url in
     roster_url <- build_roster_url base_url the_season url_format ;;
     visit_base base_url ;;;
     response <- fetch_roster base_url roster_url ;;
     use_response verify_season response base_url)
    on_error.

Definition scrape_team (base_url : string) : M (list Player) :=
  scrape_team_with SeasonVerifier.verify_season_on_page base_url.

End Team.
End WithSession.
End Scraper.

(* ===================================================================== *)
(** ** RosterManager *)
(* ===================================================================== *)

Module RosterManager.
Import PyStr Scraper.

(** A team of the input list, and the entries of the three reports. *)
Record Team := { t_team : string; t_ncaa_id : Z; t_url : string }.
Record ZeroEntry := { z_team : string; z_ncaa_id : Z; z_url : string }.
Record FailedEntry := { f_team : string; f_ncaa_id : Z; f_url : string; f_error : string }.
Record SuccessEntry := { s_team : string; s_ncaa_id : Z; s_player_count : nat }.

(** The fields of the manager that [scrape_teams] reads and appends to. *)
Record Manager := {
  mgr_season : string;
  mgr_scrape_profiles : bool;
  zero_player_teams : list ZeroEntry;
  failed_teams : list FailedEntry;
  successful_teams : list SuccessEntry
}.

(** [RosterManager(season, output_dir, scrape_profiles)]. *)
Definition init (season : string) (scrape_profiles : bool) : Manager :=
  {| mgr_season := season; mgr_scrape_profiles := scrape_profiles;
     zero_player_teams := []; failed_teams := []; successful_teams := [] |}.

Definition add_zero (e : ZeroEntry) (m : Manager) : Manager :=
  {| mgr_season := mgr_season m; mgr_scrape_profiles := mgr_scrape_profiles m;
     zero_player_teams := zero_player_teams m ++ [e];
     failed_teams := failed_teams m; successful_teams := successful_teams m |}.

Definition add_failed (e : FailedEntry) (m : Manager) : Manager :=
  {| mgr_season := mgr_season m; mgr_scrape_profiles := mgr_scrape_profiles m;
     zero_player_teams := zero_player_teams m;
     failed_teams := failed_teams m ++ [e]; successful_teams := successful_teams m |}.

Definition add_successful (e : SuccessEntry) (m : Manager) : Manager :=
  {| mgr_season := mgr_season m; mgr_scrape_profiles := mgr_scrape_profiles m;
     zero_player_teams := zero_player_teams m;
     failed_teams := failed_teams m; successful_teams := successful_teams m ++ [e] |}.

(** [teams[:max_teams] if max_teams else teams]. *)
Definition slice_to {A} (l : list A) (n : Z) : list A :=
  if (0 <=? n)%Z then take (Z.to_nat n) l
  else take (length l - Z.to_nat (- n)) l.

Definition teams_to_scrape {A} (teams : list A) (max_teams : option Z) : list A :=
  match max_teams with
  | Some n => if (n =? 0)%Z then teams else slice_to teams n
  | None => teams
  end.

Section WithSession.
Context {World : Type} {session : Session World}.

Local Abbreviation M := (M World).

(** The body of the loop: the manager and [all_players] are the
    accumulator. *)
Definition scrape_one (acc : Manager * list Player) (team : Team)
  : M (Manager * list Player) :=
  let '(mgr, all_players) := acc in
  let team_id := t_ncaa_id team in
  let team_name := t_team team in
  let team_url := t_url team in
  try_except
    (players <- scrape_team team_id team_name (mgr_season mgr) ""
                  (mgr_scrape_profiles mgr) team_url ;;
     if (length players =? 0)%nat then
       warn ZeroPlayers ;;;
       ret (add_zero {| z_team := team_name; z_ncaa_id := team_id; z_url := team_url |}
              mgr,
            all_players)
     else
       ret (add_successful {| s_team := team_name; s_ncaa_id := team_id;
                              s_player_count := length players |} mgr,
            (all_players ++ players)%list))
    (fun e =>
       warn (TeamError e) ;;;
       ret (add_failed {| f_team := team_name; f_ncaa_id := team_id; f_url := team_url;
                          f_error := exc_message e |} mgr,
            all_players)).

Definition scrape_teams (mgr : Manager) (teams : list Team) (max_teams : option Z)
  : M (Manager * list Player) :=
  for_each scrape_one (mgr, []) (teams_to_scrape teams max_teams).

End WithSession.
End RosterManager.

(* ===================================================================== *)
(** ** ProfileEnhancer (enhance_roster_data.py) *)
(* ===================================================================== *)

Module Enhancer.
Import PyStr FieldExtractors Html Scraper.

(** A row of the roster CSV, as [csv.DictReader] gives it: under a field
    name the text of the cell, or [None] for a cell that a row shorter
    than the header lacks. *)
Abbreviation Row := (gmap string (option string)).

(** [row.get(key)]: [None] for an absent key and for a [None] cell. *)
Definition row_get (row : Row) (key : string) : option string :=
  match row !! key with
  | Some cell => cell
  | None => None
  end.

(** [row.get(key)] in a condition: an absent key, [None] and the empty
    text are all false. *)
Definition has (row : Row) (key : string) : bool :=
  match row_get row key with
  | Some text => truthy text
  | None => false
  end.

(** [row.get(key, '')]: the default stands in for an absent key, not for
    a [None] cell. *)
Definition row_get_or_empty (row : Row) (key : string) : option string :=
  match row !! key with
  | Some cell => cell
  | None => Some ""
  end.

(** The [AttributeError] of a method called on [None]. *)
Definition none_has_no (method : string) : PyExc :=
  OtherException ("'NoneType' object has no attribute '" +:+ method +:+ "'").

(** The rules of the bio items and of the dt/dd pairs. *)
Definition bio_rule (label value : string) (row : Row) : Row :=
  if (contains "position" label || contains "pos" label) && negb (has row "position") then
    <["position" := Some (extract_position value)]> row
  else if (contains "height" label || contains "ht" label) && negb (has row "height") then
    <["height" := Some (str_or (extract_height value) value)]> row
  else if (contains "class" label || contains "year" label || contains "eligibility" label)
          && negb (has row "class") then
    <["class" := Some (normalize_academic_year value)]> row
  else if (contains "major" label || contains "academic" label) && negb (has row "major") then
    <["major" := Some value]> row
  else if contains "hometown" label && negb (has row "hometown") then
    let '(hometown, hs) := extract_hometown_parts value in
    let row := <["hometown" := Some hometown]> row in
    if truthy hs && negb (has row "high_school") then <["high_school" := Some hs]> row else row
  else if (contains "high school" label || contains "hs" label)
          && negb (has row "high_school") then
    <["high_school" := Some value]> row
  else if (contains "previous school" label || contains "last school" label
           || contains "transfer" label) && negb (has row "previous_school") then
    <["previous_school" := Some value]> row
  else row.

(** The rules of the rows of a detail table. *)
Definition detail_rule (label value : string) (row : Row) : Row :=
  if contains "position" label && negb (has row "position") then
    <["position" := Some (extract_position value)]> row
  else if contains "height" label && negb (has row "height") then
    <["height" := Some (str_or (extract_height value) value)]> row
  else if (contains "class" label || contains "year" label) && negb (has row "class") then
    <["class" := Some (normalize_academic_year value)]> row
  else if contains "major" label && negb (has row "major") then
    <["major" := Some value]> row
  else if contains "hometown" label && negb (has row "hometown") then
    let '(hometown, hs) := extract_hometown_parts value in
    let row := <["hometown" := Some hometown]> row in
    if truthy hs && negb (has row "high_school") then <["high_school" := Some hs]> row else row
  else if contains "high school" label && negb (has row "high_school") then
    <["high_school" := Some value]> row
  else if contains "previous school" label && negb (has row "previous_school") then
    <["previous_school" := Some value]> row
  else row.

Definition profile_fill (html : Page) (row : Row) : Row :=
  walk_profile bio_rule detail_rule html row.

(** [any([row.get('position'), row.get('height'), row.get('class'),
    row.get('hometown')])]. *)
Definition has_data (row : Row) : bool :=
  has row "position" || has row "height" || has row "class" || has row "hometown".

Section WithSession.
Context {World : Type} {session : Session World}.

Local Abbreviation M := (M World).

(** The pass once the url is known to be a text. *)
Definition scrape_profile_at (url : string) (row : Row) (force : bool) : M Row :=
  if negb (truthy url) then ret row
  else if negb force && has_data row then ret row
  else
    try_except
      (response <- get url ;;
       if negb (status_code response =? 200)%Z
       then (warn (FailedProfile url (status_code response)) ;;; ret row)
       else ret (profile_fill (content response) row))
      (fun e =>
         match e with
         | RequestException _ => warn (ProfileRequestError url e) ;;; ret row
         | OtherException _ => warn (ProfileError url e) ;;; ret row
         end).

(** [url = row.get('url', '').strip()] comes before the [try]: on a
    [None] cell it raises, and nothing catches the exception. *)
Definition scrape_player_profile (row : Row) (force : bool) : M Row :=
  match row_get_or_empty row "url" with
  | None => raise (none_has_no "strip")
  | Some text => scrape_profile_at (strip text) row force
  end.

End WithSession.
End Enhancer.

(* ===================================================================== *)
(** ** Predicates used in the statements and proofs *)
(* ===================================================================== *)

Module Shape.
Import PyStr.

(** A text is tidy when its only white space is single blanks;
    [after_blank] forbids a blank at the head. *)
Fixpoint tidy (after_blank : bool) (s : string) : bool :=
  match s with
  | EmptyString => true
  | String c r =>
      if is_space c then eqb_char c " " && negb after_blank && tidy true r
      else tidy false r
  end.

Definition no_lead (s : string) : bool :=
  match s with
  | EmptyString => true
  | String c _ => negb (is_space c)
  end.

Fixpoint all_chars (ok : ascii -> bool) (s : string) : bool :=
  match s with
  | EmptyString => true
  | String c r => ok c && all_chars ok r
  end.

(** Text within ASCII ([str.isascii]). *)
Definition ascii_char (c : ascii) : bool := (code c <? 128)%nat.

Definition ascii_text (s : string) : bool := all_chars ascii_char s.

(** A text that starts with a character beyond ASCII. *)
Definition beyond_ascii (s : string) : bool :=
  match s with
  | String c _ => negb (ascii_char c)
  | EmptyString => false
  end.

(** The case mappings and the position pattern as they are on ASCII
    text: character by character, a letter of the pattern matching the
    same letter in either case. *)
Definition upper_ascii (s : string) : string := map_chars upper_char s.
Definition lower_ascii (s : string) : string := map_chars lower_char s.

Fixpoint startswith_ci (p s : string) : bool :=
  match p, s with
  | EmptyString, _ => true
  | String a p', String b s' =>
      eqb_char (lower_char a) (lower_char b) && startswith_ci p' s'
  | String _ _, EmptyString => false
  end.

Definition head_is_word_ascii (s : string) : bool :=
  match s with String c _ => is_word c | EmptyString => false end.

Definition boundary_ascii (prev_word : bool) (s : string) : bool :=
  xorb prev_word (head_is_word_ascii s).

Fixpoint search_ascii {A} (m : bool -> string -> option A) (prev_word : bool)
    (s : string) : option A :=
  match m prev_word s with
  | Some g => Some g
  | None =>
      match s with
      | EmptyString => None
      | String c r => search_ascii m (is_word c) r
      end
  end.

Definition token_at_ascii (s : string) (t : string) : option string :=
  if startswith_ci t s
     && boundary_ascii true (FieldExtractors.drop (String.length t) s)
  then Some (FieldExtractors.take (String.length t) s)
  else None.

Definition position_pat_ascii (prev_word : bool) (s : string) : option string :=
  if boundary_ascii prev_word s
  then FieldExtractors.first_some (token_at_ascii s) FieldExtractors.position_tokens
  else None.

(** The characters of a text that are not white space. *)
Fixpoint non_space (s : string) : string :=
  match s with
  | EmptyString => EmptyString
  | String c r => if is_space c then non_space r else String c (non_space r)
  end.

(** The hometown split as the specification words it: the text before
    the first slash and the text after it, both trimmed; the trimmed
    text and nothing when there is no slash. *)
Definition hometown_parts_spec (s : string) : string * string :=
  match FieldExtractors.split_slash s with
  | Some (pre, post) => (strip pre, strip post)
  | None => (strip s, "")
  end.

(** No line break after the first slash of the text. *)
Definition one_line_after_slash (s : string) : bool :=
  match FieldExtractors.split_slash s with
  | Some (_, post) => all_chars FieldExtractors.not_newline post
  | None => true
  end.

(** The declared position tokens, each with its canonical code. *)
Definition declared_tokens : list (string * string) :=
  [ ("GK", "GK"); ("G", "GK"); ("GOALKEEPER", "GK"); ("GOALIE", "GK");
    ("D", "D"); ("DEF", "D"); ("DEFENSE", "D"); ("DEFENDER", "D"); ("B", "D");
    ("BACK", "D");
    ("M", "M"); ("MF", "M"); ("MID", "M"); ("MIDFIELDER", "M"); ("MIDFIELD", "M");
    ("F", "F"); ("FW", "F"); ("FOR", "F"); ("FORWARD", "F"); ("A", "F"); ("ATT", "F");
    ("ATTACK", "F"); ("ATTACKER", "F"); ("O", "F"); ("OFFENSE", "F") ].

Definition token_code (t : string) : string :=
  FieldExtractors.dict_get declared_tokens t "".

(** The search over full words that is the second resort. *)
Definition by_substring (text_upper : string) : string :=
  if contains "GOALKEEPER" text_upper || contains "GOALIE" text_upper
     || contains "KEEPER" text_upper then "GK"
  else if contains "DEFENSE" text_upper || contains "DEFENDER" text_upper
          || contains "BACK" text_upper then "D"
  else if contains "MIDFIELDER" text_upper || contains "MIDFIELD" text_upper then "M"
  else if contains "FORWARD" text_upper || contains "ATTACK" text_upper
          || contains "OFFENSE" text_upper then "F"
  else "".

(** What [extract_position] does with the upper-cased group. *)
Definition classify (pos : string) : string :=
  if FieldExtractors.in_tuple pos ["GK"; "G"; "GOALKEEPER"; "GOALIE"] then "GK"
  else if FieldExtractors.in_tuple pos ["DEF"; "D"; "DEFENSE"; "DEFENDER"; "B"; "BACK"] then "D"
  else if FieldExtractors.in_tuple pos ["MID"; "MF"; "MIDFIELDER"; "MIDFIELD"] then "M"
  else if FieldExtractors.in_tuple pos ["FOR"; "FW"; "F"; "FORWARD"; "A"; "ATT"; "ATTACK";
                        "ATTACKER"; "O"; "OFFENSE"] then "F"
  else pos.

(** [extract_position] with the case mapping and the pattern of ASCII
    text. *)
Definition extract_position_ascii (text : string) : string :=
  if negb (truthy text) then ""
  else
    let text := strip text in
    match search_ascii position_pat_ascii false text with
    | Some g => classify (upper_ascii g)
    | None => by_substring (upper_ascii text)
    end.

(** A position that is empty or that [extract_position] returned. *)
Definition extracted (pos : string) : Prop :=
  pos = "" \/ exists text, pos = FieldExtractors.extract_position text.

(** [m], run in any state, returns a value that satisfies [P] or raises
    an exception that satisfies [Q]. *)
Definition post {World A} (m : M World A) (P : A -> Prop) (Q : PyExc -> Prop) : Prop :=
  forall st, match m st with
             | (inr x, _) => P x
             | (inl e, _) => Q e
             end.

(** [m] never raises and its result satisfies [P]. *)
Definition yields {World A} (m : M World A) (P : A -> Prop) : Prop :=
  post m P (fun _ => False).

(** [q] is [p] with some of its empty fields filled: the identity of the
    record is unchanged and every field that holds a value keeps it. *)
Definition keeps (p q : Player) : Prop :=
  team_id q = team_id p /\ season q = season p /\ team q = team p
  /\ division q = division p /\ player_id q = player_id p
  /\ (name p <> "" -> name q = name p)
  /\ (jersey p <> "" -> jersey q = jersey p)
  /\ (position p <> "" -> position q = position p)
  /\ (height p <> "" -> height q = height p)
  /\ (year p <> "" -> year q = year p)
  /\ (major p <> "" -> major q = major p)
  /\ (hometown p <> "" -> hometown q = hometown p)
  /\ (high_school p <> "" -> high_school q = high_school p)
  /\ (previous_school p <> "" -> previous_school q = previous_school p)
  /\ (url p <> "" -> url q = url p).

(** The same for a row of the CSV. *)
Definition keeps_row (row row' : Enhancer.Row) : Prop :=
  forall key value,
    row !! key = Some (Some value) -> value <> "" -> row' !! key = Some (Some value).

(** The row holds a text that is not empty under [key]. *)
Definition filled (row : Enhancer.Row) (key : string) : Prop :=
  exists value, row !! key = Some (Some value) /\ value <> "".

(** A canonical position code, or nothing. *)
Definition canonical (pos : string) : Prop :=
  pos = "GK" \/ pos = "D" \/ pos = "M" \/ pos = "F" \/ pos = "".

(** The position of every record is empty or was returned by
    [extract_position]. *)
Definition all_extracted (players : list Player) : Prop :=
  Forall (fun p => extracted (position p)) players.

(** The position stays so from [p] to [q]. *)
Definition extracted_to (p q : Player) : Prop :=
  extracted (position p) -> extracted (position q).

(** Two states that differ in the log at most. *)
Definition same_but_log {World} (st1 st2 : St World) : Prop :=
  world st1 = world st2 /\ requests st1 = requests st2.

(** Two computations that, from such states, return the same and lead to
    such states. *)
Definition sim {World A} (m1 m2 : M World A) : Prop :=
  forall st1 st2, same_but_log st1 st2 ->
    fst (m1 st1) = fst (m2 st2) /\ same_but_log (snd (m1 st1)) (snd (m2 st2)).

(** The entries that a list of outcomes (a team and the records found for
    it) puts in the zero-record report and in the report of successes. *)
Fixpoint zero_of (os : list (RosterManager.Team * list Player))
  : list RosterManager.ZeroEntry :=
  match os with
  | [] => []
  | (t, players) :: os' =>
      if (length players =? 0)%nat
      then {| RosterManager.z_team := RosterManager.t_team t;
              RosterManager.z_ncaa_id := RosterManager.t_ncaa_id t;
              RosterManager.z_url := RosterManager.t_url t |} :: zero_of os'
      else zero_of os'
  end.

Fixpoint successful_of (os : list (RosterManager.Team * list Player))
  : list RosterManager.SuccessEntry :=
  match os with
  | [] => []
  | (t, players) :: os' =>
      if (length players =? 0)%nat then successful_of os'
      else {| RosterManager.s_team := RosterManager.t_team t;
              RosterManager.s_ncaa_id := RosterManager.t_ncaa_id t;
              RosterManager.s_player_count := length players |} :: successful_of os'
  end.

(** The records that [scrape_team] returns for each team in turn, the
    state being handed from one team to the next as the loop does. *)
Fixpoint outcomes {World} {session : Session World} (season : string)
    (scrape_profiles : bool) (teams : list RosterManager.Team) (st : St World)
  : list (RosterManager.Team * list Player) :=
  match teams with
  | [] => []
  | t :: teams' =>
      let '(result, st1) :=
        Scraper.scrape_team (RosterManager.t_ncaa_id t) (RosterManager.t_team t) season ""
          scrape_profiles (RosterManager.t_url t) st in
      let players := match result with inr players => players | inl _ => [] end in
      let st2 := if (length players =? 0)%nat then snd (warn ZeroPlayers st1) else st1 in
      (t, players) :: outcomes season scrape_profiles teams' st2
  end.

End Shape.

(* ===================================================================== *)
(** ** Sample sites and pages *)
(* ===================================================================== *)

Module Examples.
Import Html.

(** A site is a table of replies; any other URL cannot be reached. *)
Fixpoint answer (site : list (string * Reply)) (url : string) : Reply :=
  match site with
  | [] => Raises (RequestException "unreachable")
  | (u, r) :: site' => if String.eqb u url then r else answer site' url
  end.

Definition site_session (site : list (string * Reply)) : Session unit :=
  {| session_get := fun url w => (answer site url, w);
     tld_extract := fun _ => ("", "example", "edu") |}.

Definition start : St unit := {| world := tt; requests := []; log := [] |}.

Definition field (label value : string) : Field :=
  {| label_elem := Some label; value_elem := Some value |}.

Definition cell (t : string) : Elem := {| text := t; link := None |}.

Definition item (name : string) (fields : list Field) : RosterItem :=
  {| jersey_elem := None; h3 := Some (cell name); h2 := None; meta_fields := fields |}.

Definition page_of_items (items : list RosterItem) : Page :=
  {| page_text := "2025 Field Hockey Roster"; roster_items := items; tables := [];
     bio_section := None; dl_section := None |}.

Definition page_of_table (t : Table) : Page :=
  {| page_text := "2025 Field Hockey Roster"; roster_items := []; tables := [t];
     bio_section := None; dl_section := None |}.

Definition page_of_bio (fields : list Field) : Page :=
  {| page_text := ""; roster_items := []; tables := [];
     bio_section := Some fields; dl_section := None |}.

(** A roster item with two position fields. *)
Definition two_positions : Page :=
  page_of_items [item "Ann Lee" [field "Position" "Defense"; field "Position" "Forward"]].

(** A roster item whose class and hometown are dashes. *)
Definition dashes : Page :=
  page_of_items [item "Ann Lee" [field "Class" "-"; field "Hometown" "-"]].

(** A table with its header in a thead and two players in its tbody. *)
Definition head_and_body : Table :=
  {| sidearm_table := true;
     thead := Some [[cell "Name"; cell "Pos"]];
     tbody := Some [[cell "Ann Lee"; cell "F"]; [cell "Bea Roy"; cell "D"]];
     loose_rows := [] |}.

(** A table with its header in the first row, and a player whose height
    and class are dashes. *)
Definition dashes_in_table : Table :=
  {| sidearm_table := true; thead := None; tbody := None;
     loose_rows := [ [cell "Name"; cell "Ht."; cell "Class"];
                     [cell "Ann Lee"; cell "-"; cell "-"] ] |}.

(** The same two players in a table without thead and tbody. *)
Definition plain_rows : Table :=
  {| sidearm_table := true; thead := None; tbody := None;
     loose_rows := [ [cell "Name"; cell "Pos"];
                     [cell "Ann Lee"; cell "F"]; [cell "Bea Roy"; cell "D"] ] |}.

Definition one_team : RosterManager.Team :=
  {| RosterManager.t_team := "Team"; RosterManager.t_ncaa_id := 1;
     RosterManager.t_url := "https://example.edu/sports/field-hockey" |}.

(** A site whose roster is found at the third address only. *)
Definition base : string := "https://example.edu/sports/field-hockey".

Definition not_found : Reply := Response 404 (page_of_items []).

Definition third_time : list (string * Reply) :=
  [ ("https://example.edu/sports/field-hockey/roster/2025", not_found);
    ("https://example.edu/sports/field-hockey/roster", not_found);
    ("https://example.edu/sports/field-hockey/roster.aspx", Response 200 two_positions) ].

(** The state after the requests [urls]. *)
Definition asked (urls : list string) : St unit :=
  {| world := tt; requests := urls; log := [] |}.

End Examples.

(* ===================================================================== *)
(** ** Output records, the team list and the CSV of the enhancement tool *)
(* ===================================================================== *)

(** [Player.to_dict]. *)
Module Records.
Import PyStr FieldExtractors.

(** The values of the dictionary of a player. *)
Inductive Value :=
| VStr (s : string)
| VInt (n : Z)
| VNone.

(** A [dict]: its items in insertion order. *)
Abbreviation Dict := (list (string * Value)).

(** [dataclasses.asdict(self)]. *)
Definition asdict (p : Player) : Dict :=
  [ ("team_id", VInt (team_id p)); ("team", VStr (team p)); ("season", VStr (season p));
    ("division", VStr (division p));
    ("player_id", match player_id p with Some s => VStr s | None => VNone end);
    ("name", VStr (name p)); ("jersey", VStr (jersey p)); ("position", VStr (position p));
    ("height", VStr (height p)); ("year", VStr (year p)); ("major", VStr (major p));
    ("hometown", VStr (hometown p)); ("high_school", VStr (high_school p));
    ("previous_school", VStr (previous_school p)); ("url", VStr (url p)) ].

(** [d[key] = value]: in place when the key is there, at the end
    otherwise. *)
Fixpoint dict_set (key : string) (value : Value) (d : Dict) : Dict :=
  match d with
  | [] => [(key, value)]
  | (k, v) :: d' =>
      if String.eqb k key then (k, value) :: d' else (k, v) :: dict_set key value d'
  end.

(** [d.pop(key, None)]: the value, if any, and the rest. *)
Fixpoint dict_pop (key : string) (d : Dict) : option Value * Dict :=
  match d with
  | [] => (None, [])
  | (k, v) :: d' =>
      if String.eqb k key then (Some v, d')
      else let '(found, rest) := dict_pop key d' in (found, (k, v) :: rest)
  end.

Fixpoint dict_lookup (key : string) (d : Dict) : option Value :=
  match d with
  | [] => None
  | (k, v) :: d' => if String.eqb k key then Some v else dict_lookup key d'
  end.

(** [for k, v in list(d.items()): if isinstance(v, str): d[k] = clean_text(v)]. *)
Definition clean_item (d : Dict) (kv : string * Value) : Dict :=
  match snd kv with
  | VStr s => dict_set (fst kv) (VStr (clean_text s)) d
  | _ => d
  end.

(** [to_dict]; [None] stands for the [KeyError] of [d.pop('team_id')]. *)
Definition to_dict (p : Player) : option Dict :=
  let d := asdict p in
  let d := fold_left clean_item d d in
  let '(year, d) := dict_pop "year" d in
  let d := dict_set "class" (match year with Some v => v | None => VStr "" end) d in
  match dict_pop "team_id" d with
  | (Some ncaa_id, d) =>
      let d := dict_set "ncaa_id" ncaa_id d in
      Some (snd (dict_pop "player_id" d))
  | (None, _) => None
  end.

Definition keys (d : Dict) : list string := map fst d.

(** A value that white-space cleanup leaves as it is. *)
Definition clean_value (v : Value) : Prop :=
  match v with
  | VStr s => clean_text s = s
  | _ => True
  end.

End Records.

(** [RosterManager.load_teams], on the rows that [csv.DictReader] gives. *)
Module TeamList.
Import PyStr RosterManager.

(** [row.get(key)] in a condition: an absent key and an empty value are
    both false. *)
Definition cell (row : gmap string string) (key : string) : string :=
  default "" (row !! key).

(** [if row.get('school') and row.get('url')]. *)
Definition kept (row : gmap string string) : bool :=
  truthy (cell row "school") && truthy (cell row "url").

(** [int(row['org_id'])]: an absent key and a text that is no integer
    both raise. *)
Definition org_id (row : gmap string string) : PyExc + Z :=
  match row !! "org_id" with
  | None => inl (OtherException "org_id")
  | Some text =>
      match SeasonVerifier.py_int text with
      | Some n => inr n
      | None => inl (OtherException text)
      end
  end.

Fixpoint load_rows (teams : list Team) (rows : list (gmap string string))
  : PyExc + list Team :=
  match rows with
  | [] => inr teams
  | row :: rows' =>
      if kept row then
        match org_id row with
        | inr n =>
            load_rows (teams ++ [ {| t_team := cell row "school"; t_ncaa_id := n;
                                     t_url := cell row "url" |} ]) rows'
        | inl e => inl e
        end
      else load_rows teams rows'
  end.

Definition load_teams (rows : list (gmap string string)) : PyExc + list Team :=
  load_rows [] rows.

(** The rows that are not skipped. *)
Fixpoint kept_rows (rows : list (gmap string string)) : list (gmap string string) :=
  match rows with
  | [] => []
  | row :: rows' => if kept row then row :: kept_rows rows' else kept_rows rows'
  end.

End TeamList.

(** [ProfileEnhancer.enhance_csv].  A CSV file is the list of its
    records, as [csv.reader] gives and [csv.writer] takes them: a record
    is the list of its cells, and the empty list is a blank line. *)
Module EnhanceCsv.
Import PyStr Scraper.

(** A row as [csv.DictReader] gives it: [cells] are the entries under
    the field names; [rest] is the entry under the key [None], which
    holds the cells that a row longer than the header has beyond it. *)
Record DictRow := { cells : Enhancer.Row; rest : option (list string) }.

(** [dict(zip(fieldnames, row))], then the cells beyond the header under
    [None], or [None] in the cells that the row lacks: a later entry of
    the same name replaces an earlier one. *)
Fixpoint read_cells (fieldnames record : list string) (d : Enhancer.Row) : DictRow :=
  match fieldnames, record with
  | [], [] => {| cells := d; rest := None |}
  | [], _ :: _ => {| cells := d; rest := Some record |}
  | key :: fieldnames', [] => read_cells fieldnames' [] (<[key := None]> d)
  | key :: fieldnames', c :: record' => read_cells fieldnames' record' (<[key := Some c]> d)
  end.

Definition read_row (fieldnames record : list string) : DictRow :=
  read_cells fieldnames record ∅.

Definition blank (record : list string) : bool :=
  match record with [] => true | _ :: _ => false end.

Fixpoint skip_blank (records : list (list string)) : list (list string) :=
  match records with
  | [] => []
  | record :: records' =>
      if blank record then skip_blank records' else record :: skip_blank records'
  end.

(** [for row in reader: rows.append(row)]: blank lines are skipped. *)
Definition read_rows (fieldnames : list string) (records : list (list string))
  : list DictRow :=
  map (read_row fieldnames) (skip_blank records).

(** [[r for r in rows if r.get('team', '').lower() == team_filter.lower()]]:
    a [None] team raises. *)
Fixpoint rows_of_team (team_filter : string) (rows : list DictRow)
  : PyExc + list DictRow :=
  match rows with
  | [] => inr []
  | row :: rows' =>
      match Enhancer.row_get_or_empty (cells row) "team" with
      | None => inl (Enhancer.none_has_no "lower")
      | Some team =>
          match rows_of_team team_filter rows' with
          | inl e => inl e
          | inr kept =>
              inr (if String.eqb (lower team) (lower team_filter) then row :: kept
                   else kept)
          end
      end
  end.

(** [if team_filter: rows = ...]. *)
Definition filter_rows (team_filter : option string) (rows : list DictRow)
  : PyExc + list DictRow :=
  match team_filter with
  | Some f => if truthy f then rows_of_team f rows else inr rows
  | None => inr rows
  end.

(** [DictWriter] with [extrasaction='raise']: a row with a key that is
    not a field name, the key [None] included, raises [ValueError]. *)
Definition writable (fieldnames : list string) (row : DictRow) : bool :=
  match rest row with
  | Some _ => false
  | None => bool_decide (dom (cells row) ⊆ list_to_set (C := gset string) fieldnames)
  end.

(** The record written for a row: [rowdict.get(key, '')] for every field
    name, and [None] is written as the empty text. *)
Definition write_row (fieldnames : list string) (row : DictRow) : list string :=
  map (fun key => default "" (Enhancer.row_get (cells row) key)) fieldnames.

Section WithSession.
Context {World : Type} {session : Session World}.

(** The body of the loop: the rows as they are after the loop, and
    [enhanced_count]. *)
Definition enhance_row (force : bool) (acc : list DictRow * nat) (row : DictRow)
  : M World (list DictRow * nat) :=
  let '(done, enhanced_count) := acc in
  let original_row := cells row in
  enhanced_row <- Enhancer.scrape_player_profile (cells row) force ;;
  ret ((done ++ [ {| cells := enhanced_row; rest := rest row |} ])%list,
       if bool_decide (enhanced_row = original_row) then enhanced_count
       else S enhanced_count).

(** The run on the records of the input file: it returns the records of
    the output file and [enhanced_count].  An empty input file has no
    field names, and [writeheader] raises [TypeError]; a row that is not
    writable raises [ValueError] after the rows before it were written,
    which the result of a run that raises does not show.  Nothing reads
    the messages of these two exceptions, which are shortened here. *)
Definition enhance_csv (input : list (list string)) (force : bool)
    (team_filter : option string) : M World (list (list string) * nat) :=
  match input with
  | [] => raise (OtherException "zip argument #1 must support iteration")
  | fieldnames :: records =>
      match filter_rows team_filter (read_rows fieldnames records) with
      | inl e => raise e
      | inr rows =>
          result <- for_each (enhance_row force) ([], 0%nat) rows ;;
          if forallb (writable fieldnames) (fst result)
          then ret (fieldnames :: map (write_row fieldnames) (fst result), snd result)
          else raise (OtherException "dict contains fields not in fieldnames")
      end
  end.

End WithSession.

(** The columns that a profile page can fill. *)
Definition enrichable : list string :=
  [ "position"; "height"; "class"; "major"; "hometown"; "high_school"; "previous_school" ].

(** The keys of [row'] are those of [row] and columns that a profile page
    can fill. *)
Definition grown (row row' : Enhancer.Row) : Prop :=
  dom row' ⊆ dom row ∪ list_to_set (C := gset string) enrichable.

(** What the tool does to a row: it keeps every value and adds enrichable
    columns only. *)
Definition enhanced (row row' : Enhancer.Row) : Prop :=
  Shape.keeps_row row row' /\ grown row row'.

(** A row of a record that is as long as the header: a text under every
    field name and nothing else. *)
Definition whole (fieldnames : list string) (row : DictRow) : Prop :=
  rest row = None
  /\ dom (cells row) ⊆ list_to_set (C := gset string) fieldnames
  /\ forall key, cells row !! key <> Some None.

(** The row after the loop: the entry under [None] is untouched. *)
Definition enhanced_row (row row' : DictRow) : Prop :=
  rest row' = rest row /\ enhanced (cells row) (cells row').

(** The record [line] has a cell for every field name and, in the column
    of each field name, the text of the row that is not empty. *)
Definition carried (fieldnames : list string) (row : DictRow) (line : list string)
  : Prop :=
  length line = length fieldnames
  /\ forall i key value,
       fieldnames !! i = Some key -> cells row !! key = Some (Some value) ->
       value <> "" -> line !! i = Some value.

End EnhanceCsv.

(* ===================================================================== *)
(** ** More predicates for the statements *)
(* ===================================================================== *)

Module Derived.
Import PyStr FieldExtractors Html Scraper Shape.

(** [URLBuilder.extract_base_url]. *)
Definition extract_base_url {World} {session : Session World} (full_url : string)
  : string :=
  let '(subdomain, domain, suffix) := tld_extract full_url in
  let domain := if truthy subdomain
                then subdomain +:+ "." +:+ domain +:+ "." +:+ suffix
                else domain +:+ "." +:+ suffix in
  "https://" +:+ domain.

(** [extract_height] with the second of its five patterns left out. *)
Definition extract_height_without_second (text : string) : string :=
  if negb (truthy text) then ""
  else
    let patterns :=
      [ group_of (seq imperial (opt metric_tail));
        group_of (seq (seq digits1 (lit "-")) digits1);
        group_of (seq (seq (seq digits1 (lit ".")) digits1) (lit "m"));
        height_label ] in
    match first_some (fun pattern => search pattern false text) patterns with
    | Some g => strip g
    | None => ""
    end.

Definition no_slash (c : ascii) : bool := negb (eqb_char c "/").

(** The profile pass leaves the name, the jersey and the url alone. *)
Definition untouched (p q : Player) : Prop :=
  name q = name p /\ jersey q = jersey p /\ url q = url p.

(** [q] is [p] after a profile pass, or [p] itself. *)
Definition enriched (p q : Player) : Prop := keeps p q /\ untouched p q.

(** A step that fills empty fields only and that, once taken, changes
    nothing in any record that kept what it wrote. *)
Definition settles (f : Player -> Player) : Prop :=
  (forall s, keeps s (f s)) /\ (forall s q, keeps (f s) q -> f q = q).

(** A computation that never raises, returns a result that satisfies [P]
    and makes at most [bound] requests, [bound] depending on the result. *)
Definition asks {World A} (m : M World A) (P : A -> Prop) (bound : A -> nat) : Prop :=
  forall st, exists x st' urls,
    m st = (inr x, st')
    /\ requests st' = (requests st ++ urls)%list
    /\ P x /\ (length urls <= bound x)%nat.

(** Whatever it returns, [m] makes at most [n] requests. *)
Definition at_most {World A} (n : nat) (m : M World A) : Prop :=
  forall st, exists urls,
    requests (snd (m st)) = (requests st ++ urls)%list /\ (length urls <= n)%nat.

(** A step of a loop over records that never raises and makes at most as
    many requests as it adds records. *)
Definition appends {World} (step : list Player -> M World (list Player)) : Prop :=
  forall acc st, exists acc' st' urls,
    step acc st = (inr acc', st')
    /\ requests st' = (requests st ++ urls)%list
    /\ (length urls + length acc <= length acc')%nat.

(** The identity that [scrape_team] gives to its records. *)
Definition of_team (the_id : Z) (the_name the_season the_division : string) (p : Player)
  : Prop :=
  team_id p = the_id /\ team p = the_name /\ season p = the_season
  /\ division p = the_division /\ player_id p = None.

(** A record of one of the teams [teams], as [scrape_teams] asks for it:
    with the season of the run and no division. *)
Definition from_list (teams : RosterManager.Team -> Prop) (the_season : string)
    (p : Player) : Prop :=
  exists t, teams t
    /\ of_team (RosterManager.t_ncaa_id t) (RosterManager.t_team t) the_season "" p.

(** The accumulator of [scrape_teams] is consistent: its records are of
    the teams, there are as many as the report of successes counts, and
    no success is reported with zero records. *)
Definition consistent (teams : RosterManager.Team -> Prop) (the_season : string)
    (acc : RosterManager.Manager * list Player) : Prop :=
  RosterManager.mgr_season (fst acc) = the_season
  /\ Forall (from_list teams the_season) (snd acc)
  /\ length (snd acc)
     = list_sum (map RosterManager.s_player_count
                   (RosterManager.successful_teams (fst acc)))
  /\ Forall (fun e => (0 < RosterManager.s_player_count e)%nat)
       (RosterManager.successful_teams (fst acc)).

(** A record whose name is a cleaned text and whose url, when it has
    one, starts with http. *)
Definition presentable (p : Player) : Prop :=
  clean_text (name p) = name p
  /\ (url p = "" \/ startswith "http" (url p) = true).

Section Team.
Variables (the_team_id : Z) (team_name the_season the_division : string).

(** The record of a roster item before the profile pass. *)
Definition item_player (domain : string) (item : RosterItem) : Player :=
  let jersey := match jersey_elem item with
                | Some t => clean_text t
                | None => ""
                end in
  let name_elem := match h3 item with Some e => Some e | None => h2 item end in
  let '(name, profile_url) := match name_elem with
                              | Some e => name_and_url domain e
                              | None => ("", "")
                              end in
  let meta := fold_left meta_field (meta_fields item) meta_empty in
  new_player the_team_id team_name the_season the_division name jersey
    (m_position meta) (m_height meta) (m_year meta) (m_hometown meta)
    (m_high_school meta) profile_url.

(** The rows of a table that give a record: those with two cells or more. *)
Fixpoint rows_with_cells (rows : list Row) : list Row :=
  match rows with
  | [] => []
  | cols :: rows' =>
      if (length cols <? 2)%nat then rows_with_cells rows'
      else cols :: rows_with_cells rows'
  end.

Context {World : Type} {session : Session World}.

(** The records of the table shape before the profile pass. *)
Definition table_records (html : Page) (base_url : string) : list Player :=
  let table := match find_sidearm_table (tables html) with
               | Some t => Some t
               | None => find_table (tables html)
               end in
  match table with
  | None => []
  | Some table =>
      let header_row := match thead table with
                        | Some rows => Some (concat rows)
                        | None => head (all_rows table)
                        end in
      match header_row with
      | None => []
      | Some header_cells =>
          let headers := map (fun th => lower (clean_text (text th))) header_cells in
          let rows := match tbody table with
                      | Some rows => rows
                      | None => all_rows table
                      end in
          map (row_player the_team_id team_name the_season the_division
                 (site_domain base_url) (map_columns headers))
            (rows_with_cells (rest_of rows))
      end
  end.

(** The records of a roster page before the profile pass: those of its
    roster items, or of its table when it has no roster item. *)
Definition page_records (html : Page) (base_url : string) : list Player :=
  match roster_items html with
  | [] => table_records html base_url
  | items => map (item_player (site_domain base_url)) items
  end.

End Team.

End Derived.

(* ===================================================================== *)
(** * Properties *)
(* ===================================================================== *)

(** ** Stripping and white-space cleanup *)

Section CleanText.
Import PyStr FieldExtractors Shape.

Lemma sub_ws_tidy b s : tidy b (sub_ws b s) = true.
Proof.
  revert b; induction s as [|c r IH]; intros b; simpl; [reflexivity|].
  destruct (is_space c) eqn:Hc.
  - destruct b; simpl; [apply IH|]. apply IH.
  - simpl. rewrite Hc. apply IH.
Qed.

Lemma sub_ws_fixed b s : tidy b s = true -> sub_ws b s = s.
Proof.
  revert b; induction s as [|c r IH]; intros b; simpl; [reflexivity|].
  destruct (is_space c) eqn:Hc.
  - intros H. apply andb_prop in H as [H Hr]. apply andb_prop in H as [Hsp Hb].
    destruct b; [discriminate|].
    unfold eqb_char in Hsp. apply Ascii.eqb_eq in Hsp. subst c.
    rewrite (IH true Hr). reflexivity.
  - intros H. rewrite (IH false H). reflexivity.
Qed.

Lemma lstrip_tidy b s : tidy b s = true -> tidy false (lstrip s) = true.
Proof.
  revert b; induction s as [|c r IH]; intros b; simpl; [reflexivity|].
  destruct (is_space c) eqn:Hc.
  - intros H. apply andb_prop in H as [_ Hr]. apply (IH true Hr).
  - intros H. simpl. rewrite Hc. exact H.
Qed.

Lemma rstrip_tidy b s : tidy b s = true -> tidy b (rstrip s) = true.
Proof.
  revert b; induction s as [|c r IH]; intros b; simpl; [reflexivity|].
  destruct (is_space c) eqn:Hc.
  - intros H. apply andb_prop in H as [H Hr].
    specialize (IH true Hr).
    destruct (rstrip r) as [|c' r'] eqn:Er; [reflexivity|].
    simpl. rewrite Hc. simpl in IH. rewrite H. exact IH.
  - intros H. specialize (IH false H).
    destruct (rstrip r) as [|c' r'] eqn:Er; simpl; rewrite Hc; [reflexivity|exact IH].
Qed.

Lemma lstrip_no_lead s : no_lead (lstrip s) = true.
Proof.
  induction s as [|c r IH]; simpl; [reflexivity|].
  destruct (is_space c) eqn:Hc; [exact IH|]. simpl. rewrite Hc. reflexivity.
Qed.

Lemma lstrip_fixed s : no_lead s = true -> lstrip s = s.
Proof.
  destruct s as [|c r]; simpl; [reflexivity|].
  destruct (is_space c); [discriminate|reflexivity].
Qed.

Lemma rstrip_no_lead s : no_lead s = true -> no_lead (rstrip s) = true.
Proof.
  destruct s as [|c r]; simpl; [reflexivity|].
  intros Hc. destruct (rstrip r); [|exact Hc].
  destruct (is_space c) eqn:E; [discriminate|]. simpl. rewrite E. reflexivity.
Qed.

Lemma rstrip_idem s : rstrip (rstrip s) = rstrip s.
Proof.
  induction s as [|c r IH]; simpl; [reflexivity|].
  destruct (rstrip r) as [|c' r'] eqn:Er.
  - destruct (is_space c) eqn:Hc; simpl; [reflexivity|]. rewrite Hc. reflexivity.
  - change (rstrip (String c (String c' r')))
      with (match rstrip (String c' r') with
            | EmptyString => if is_space c then EmptyString else String c EmptyString
            | r'' => String c r''
            end).
    rewrite IH. reflexivity.
Qed.

Lemma strip_idem s : strip (strip s) = strip s.
Proof.
  unfold strip.
  rewrite (lstrip_fixed (rstrip (lstrip s))).
  - apply rstrip_idem.
  - apply rstrip_no_lead, lstrip_no_lead.
Qed.

Lemma strip_tidy b s : tidy b s = true -> tidy false (strip s) = true.
Proof. intros H. unfold strip. apply rstrip_tidy. apply (lstrip_tidy b). exact H. Qed.

Lemma clean_text_unfold s : clean_text s = strip (sub_ws false s).
Proof. destruct s; reflexivity. Qed.

Lemma clean_text_tidy s : tidy false (clean_text s) = true.
Proof. rewrite clean_text_unfold. apply (strip_tidy false), sub_ws_tidy. Qed.

Lemma sub_ws_non_space b s : non_space (sub_ws b s) = non_space s.
Proof.
  revert b; induction s as [|c r IH]; intros b; simpl; [reflexivity|].
  destruct (is_space c) eqn:Hc.
  - destruct b; simpl; apply IH.
  - simpl. rewrite Hc, IH. reflexivity.
Qed.

Lemma lstrip_non_space s : non_space (lstrip s) = non_space s.
Proof.
  induction s as [|c r IH]; simpl; [reflexivity|].
  destruct (is_space c) eqn:Hc; [exact IH|]. simpl. rewrite Hc. reflexivity.
Qed.

Lemma rstrip_non_space s : non_space (rstrip s) = non_space s.
Proof.
  induction s as [|c r IH]; simpl; [reflexivity|].
  rewrite <- IH.
  destruct (rstrip r) as [|c' r'] eqn:Er.
  - destruct (is_space c) eqn:Hc; simpl; [reflexivity|]. rewrite Hc. reflexivity.
  - change (non_space (String c (String c' r')))
      with (if is_space c then non_space (String c' r')
            else String c (non_space (String c' r'))).
    reflexivity.
Qed.

Lemma strip_non_space s : non_space (strip s) = non_space s.
Proof. unfold strip. rewrite rstrip_non_space. apply lstrip_non_space. Qed.

(** C9: [clean_text] is idempotent.  Its result has single blanks as its
    only white space, is trimmed, has the same characters other than
    white space as the input, and is empty for the empty input. *)
Theorem clean_text_idempotent (s : string) :
  clean_text (clean_text s) = clean_text s
  /\ tidy false (clean_text s) = true
  /\ strip (clean_text s) = clean_text s
  /\ non_space (clean_text s) = non_space s
  /\ clean_text "" = "".
Proof.
  repeat split.
  - rewrite (clean_text_unfold (clean_text s)).
    rewrite (sub_ws_fixed false _ (clean_text_tidy s)).
    rewrite clean_text_unfold. apply strip_idem.
  - apply clean_text_tidy.
  - rewrite clean_text_unfold. apply strip_idem.
  - rewrite clean_text_unfold, strip_non_space. apply sub_ws_non_space.
Qed.

End CleanText.

(** ** The hometown split *)

Section Hometown.
Import PyStr FieldExtractors Shape.

Lemma lstrip_rstrip s : lstrip (rstrip s) = rstrip (lstrip s).
Proof.
  induction s as [|c r IH]; [reflexivity|].
  destruct (is_space c) eqn:Hc.
  - change (lstrip (String c r)) with (if is_space c then lstrip r else String c r).
    rewrite Hc, <- IH. simpl.
    destruct (rstrip r) as [|c' r']; [rewrite Hc; reflexivity|].
    change (lstrip (String c (String c' r')))
      with (if is_space c then lstrip (String c' r') else String c (String c' r')).
    rewrite Hc. reflexivity.
  - change (lstrip (String c r)) with (if is_space c then lstrip r else String c r).
    rewrite Hc. apply lstrip_fixed, rstrip_no_lead. simpl. rewrite Hc. reflexivity.
Qed.

Lemma rstrip_all_space s : all_space s = true -> rstrip s = "".
Proof.
  induction s as [|c r IH]; simpl; [reflexivity|].
  intros H. apply andb_prop in H as [Hc Hr]. rewrite (IH Hr), Hc. reflexivity.
Qed.

Lemma lazy_head_rstrip pre g : lazy_head pre = Some g -> rstrip g = rstrip pre.
Proof.
  revert g; induction pre as [|c r IH]; intros g; simpl; [discriminate|].
  destruct (all_space r) eqn:Hr.
  - intros [= <-]. simpl. rewrite (rstrip_all_space r Hr). reflexivity.
  - destruct (lazy_head r) as [g'|]; simpl; [|discriminate].
    intros [= <-]. simpl. rewrite (IH g' eq_refl). reflexivity.
Qed.

Lemma lazy_head_total c r : exists g, lazy_head (String c r) = Some g.
Proof.
  revert c; induction r as [|d r IH]; intros c; simpl; [eauto|].
  destruct (is_space d && all_space r); [eauto|].
  destruct (IH d) as [g Hg]. simpl in Hg. rewrite Hg. simpl. eauto.
Qed.

Lemma lazy_head_strip pre g : lazy_head pre = Some g -> strip g = strip pre.
Proof.
  intros H. unfold strip. rewrite <- !lstrip_rstrip.
  rewrite (lazy_head_rstrip pre g H). reflexivity.
Qed.

Lemma span_all ok s : all_chars ok s = true -> span ok s = (s, "").
Proof.
  induction s as [|c r IH]; simpl; [reflexivity|].
  intros H. apply andb_prop in H as [Hc Hr]. rewrite Hc, (IH Hr). reflexivity.
Qed.

Lemma run1_all ok c r :
  all_chars ok (String c r) = true -> run1 ok (String c r) = Some (String c r).
Proof. intros H. unfold run1. rewrite (span_all _ _ H). reflexivity. Qed.

Lemma ws_then_run_line ok c r :
  all_chars ok (String c r) = true ->
  exists g, ws_then_run ok (String c r) = Some g /\ strip g = strip (String c r).
Proof.
  revert c; induction r as [|d r IH]; intros c H.
  - simpl. destruct (is_space c) eqn:Hc; rewrite (run1_all ok c "" H); eauto.
  - assert (Hr : all_chars ok (String d r) = true).
    { simpl in H. apply andb_prop in H as [_ H]. exact H. }
    destruct (IH d Hr) as [g [Hg Hs]].
    change (ws_then_run ok (String c (String d r)))
      with (if is_space c
            then match ws_then_run ok (String d r) with
                 | Some g => Some g
                 | None => run1 ok (String c (String d r))
                 end
            else run1 ok (String c (String d r))).
    destruct (is_space c) eqn:Hc.
    + rewrite Hg. exists g. split; [reflexivity|]. rewrite Hs.
      unfold strip.
      change (lstrip (String c (String d r)))
        with (if is_space c then lstrip (String d r) else String c (String d r)).
      rewrite Hc. reflexivity.
    + rewrite (run1_all ok c _ H). eauto.
Qed.

Lemma split_slash_truthy s pre post : split_slash s = Some (pre, post) -> truthy s = true.
Proof. destruct s; [discriminate|reflexivity]. Qed.

(** C8, as amended: on a text with no line break after its first slash,
    a slash with some character before it and some character after it
    splits the text into the trimmed halves; with no slash, or nothing
    before the first slash, or nothing after it, the result is the
    trimmed text and the empty string. *)
Theorem extract_hometown_parts_split (s : string) :
  one_line_after_slash s = true ->
  extract_hometown_parts s =
    match split_slash s with
    | Some (String c pre, String d post) => (strip (String c pre), strip (String d post))
    | _ => (strip s, "")
    end.
Proof.
  unfold one_line_after_slash, extract_hometown_parts, hometown_match.
  destruct (split_slash s) as [[pre post]|] eqn:E.
  - rewrite (split_slash_truthy _ _ _ E). simpl.
    destruct pre as [|c pre]; [reflexivity|].
    destruct (lazy_head_total c pre) as [g1 Hg1]. rewrite Hg1.
    destruct post as [|d post]; [reflexivity|].
    intros Hline.
    destruct (ws_then_run_line _ d post Hline) as [g2 [Hg2 Hs2]].
    rewrite Hg2, Hs2, (lazy_head_strip _ _ Hg1). reflexivity.
  - intros _. destruct s; reflexivity.
Qed.

Lemma extract_hometown_parts_split_witness :
  extract_hometown_parts "Boston, MA / Central HS" = ("Boston, MA", "Central HS").
Proof.
  exact (extract_hometown_parts_split "Boston, MA / Central HS" eq_refl).
Defined.

(** C8 as stated fails when nothing stands before the first slash: the
    text is returned whole, not split. *)
Lemma extract_hometown_parts_leading_slash :
  extract_hometown_parts "/ Central HS" = ("/ Central HS", "")
  /\ hometown_parts_spec "/ Central HS" = ("", "Central HS")
  /\ extract_hometown_parts "/ Central HS" <> hometown_parts_spec "/ Central HS".
Proof. repeat split; try reflexivity. discriminate. Qed.

End Hometown.

(** ** Positions *)

Section Position.
Import PyStr FieldExtractors Shape.

Ltac each_char c :=
  destruct c as [[] [] [] [] [] [] [] []]; reflexivity.

Lemma is_space_upper c : is_space (upper_char c) = is_space c.
Proof. each_char c. Qed.

Lemma is_word_upper c : is_word (upper_char c) = is_word c.
Proof. each_char c. Qed.

Lemma lower_upper c : lower_char (upper_char c) = lower_char c.
Proof. each_char c. Qed.

Lemma upper_lower c : upper_char (lower_char c) = upper_char c.
Proof. each_char c. Qed.

Lemma upper_upper_char c : upper_char (upper_char c) = upper_char c.
Proof. each_char c. Qed.

Lemma upper_idem s : upper_ascii (upper_ascii s) = upper_ascii s.
Proof.
  unfold upper_ascii. induction s as [|c r IH]; simpl; [reflexivity|].
  rewrite IH, upper_upper_char. reflexivity.
Qed.

Lemma truthy_upper s : truthy (upper_ascii s) = truthy s.
Proof. destruct s; reflexivity. Qed.

Lemma lstrip_upper s : lstrip (upper_ascii s) = upper_ascii (lstrip s).
Proof.
  unfold upper_ascii. induction s as [|c r IH]; simpl; [reflexivity|].
  rewrite is_space_upper. destruct (is_space c); [exact IH|reflexivity].
Qed.

Lemma rstrip_upper s : rstrip (upper_ascii s) = upper_ascii (rstrip s).
Proof.
  unfold upper_ascii. induction s as [|c r IH]; simpl; [reflexivity|].
  rewrite IH, is_space_upper.
  destruct (rstrip r); simpl; [destruct (is_space c)|]; reflexivity.
Qed.

Lemma strip_upper s : strip (upper_ascii s) = upper_ascii (strip s).
Proof. unfold strip. rewrite lstrip_upper. apply rstrip_upper. Qed.

Lemma head_is_word_upper s : head_is_word_ascii (upper_ascii s) = head_is_word_ascii s.
Proof. destruct s; simpl; [reflexivity|apply is_word_upper]. Qed.

Lemma boundary_upper b s : boundary_ascii b (upper_ascii s) = boundary_ascii b s.
Proof. unfold boundary_ascii. rewrite head_is_word_upper. reflexivity. Qed.

Lemma startswith_ci_upper t s : startswith_ci t (upper_ascii s) = startswith_ci t s.
Proof.
  unfold upper_ascii. revert s; induction t as [|a t IH]; intros [|b s]; simpl; try reflexivity.
  rewrite lower_upper. f_equal. apply IH.
Qed.

Lemma drop_upper n s : drop n (upper_ascii s) = upper_ascii (drop n s).
Proof. unfold upper_ascii. revert s; induction n as [|n IH]; intros [|c s]; simpl; auto. Qed.

Lemma take_upper n s : take n (upper_ascii s) = upper_ascii (take n s).
Proof.
  unfold upper_ascii. revert s; induction n as [|n IH]; intros [|c s]; simpl; auto.
  rewrite IH. reflexivity.
Qed.

Lemma token_at_upper s t : token_at_ascii (upper_ascii s) t = option_map upper_ascii (token_at_ascii s t).
Proof.
  unfold token_at_ascii.
  rewrite startswith_ci_upper, drop_upper, boundary_upper, take_upper.
  destruct (startswith_ci t s && boundary_ascii true (drop (String.length t) s)); reflexivity.
Qed.

Lemma first_some_upper s l :
  first_some (token_at_ascii (upper_ascii s)) l = option_map upper_ascii (first_some (token_at_ascii s) l).
Proof.
  induction l as [|t l IH]; simpl; [reflexivity|].
  rewrite token_at_upper. destruct (token_at_ascii s t); simpl; [reflexivity|exact IH].
Qed.

Lemma position_pat_upper b s :
  position_pat_ascii b (upper_ascii s) = option_map upper_ascii (position_pat_ascii b s).
Proof.
  unfold position_pat_ascii. rewrite boundary_upper.
  destruct (boundary_ascii b s); [apply first_some_upper|reflexivity].
Qed.

Lemma search_position_upper b s :
  search_ascii position_pat_ascii b (upper_ascii s) = option_map upper_ascii (search_ascii position_pat_ascii b s).
Proof.
  revert b; induction s as [|c r IH]; intros b.
  - destruct b; reflexivity.
  - change (upper_ascii (String c r)) with (String (upper_char c) (upper_ascii r)).
    change (search_ascii position_pat_ascii b (String (upper_char c) (upper_ascii r)))
      with (match position_pat_ascii b (upper_ascii (String c r)) with
            | Some g => Some g
            | None => search_ascii position_pat_ascii (is_word (upper_char c)) (upper_ascii r)
            end).
    rewrite position_pat_upper, is_word_upper, IH. simpl.
    destruct (position_pat_ascii b (String c r)); reflexivity.
Qed.

(** The position does not depend on the case of the text. *)
Lemma extract_position_upper s : extract_position_ascii (upper_ascii s) = extract_position_ascii s.
Proof.
  unfold extract_position_ascii.
  rewrite truthy_upper, strip_upper, search_position_upper.
  destruct (truthy s); [|reflexivity]. simpl.
  destruct (search_ascii position_pat_ascii false (strip s)) as [g|]; simpl.
  - rewrite upper_idem. reflexivity.
  - rewrite upper_idem. reflexivity.
Qed.


Lemma startswith_ci_take t s :
  startswith_ci t s = true -> upper_ascii (take (String.length t) s) = upper_ascii t.
Proof.
  unfold upper_ascii. revert s; induction t as [|a t IH]; intros [|b s]; simpl;
    try reflexivity; try discriminate.
  intros H. apply andb_prop in H as [Hab Hts].
  unfold eqb_char in Hab. apply Ascii.eqb_eq in Hab.
  rewrite (IH s Hts), <- (upper_lower b), <- Hab, upper_lower. reflexivity.
Qed.

Lemma token_at_upper_group s t g : token_at_ascii s t = Some g -> upper_ascii g = upper_ascii t.
Proof.
  unfold token_at_ascii.
  destruct (startswith_ci t s) eqn:E; cbn [andb]; [|discriminate].
  destruct (boundary_ascii true (drop (String.length t) s)); [|discriminate].
  intros [= <-]. apply startswith_ci_take, E.
Qed.

Lemma first_some_In {A B} (f : A -> option B) l y :
  first_some f l = Some y -> exists x, In x l /\ f x = Some y.
Proof.
  induction l as [|x l IH]; simpl; [discriminate|].
  destruct (f x) as [y'|] eqn:E.
  - intros [= <-]. eauto.
  - intros H. destruct (IH H) as [x' [Hin Hx]]. eauto.
Qed.

Lemma search_some {A} (m : bool -> string -> option A) b s g :
  search_ascii m b s = Some g -> exists b' s', m b' s' = Some g.
Proof.
  revert b; induction s as [|c r IH]; intros b; simpl.
  - destruct (m b "") eqn:E; [|discriminate]. intros [= <-]. eauto.
  - destruct (m b (String c r)) eqn:E.
    + intros [= <-]. eauto.
    + apply IH.
Qed.

Lemma tokens_upper t : In t position_tokens -> upper_ascii t = t.
Proof.
  intros H. simpl in H.
  repeat (destruct H as [<-|H]; [reflexivity|]). destruct H.
Qed.

(** The group of a successful search_ascii is, in upper_ascii case, an alternative
    of the pattern. *)
Lemma search_position_token b s g :
  search_ascii position_pat_ascii b s = Some g -> In (upper_ascii g) position_tokens.
Proof.
  intros H. apply search_some in H as [b' [s' H]].
  unfold position_pat_ascii in H. destruct (boundary_ascii b' s'); [|discriminate].
  apply first_some_In in H as [t [Hin Ht]].
  rewrite (token_at_upper_group _ _ _ Ht), (tokens_upper t Hin). exact Hin.
Qed.

Lemma classify_token t : In t position_tokens -> classify t = token_code t.
Proof.
  intros H. simpl in H.
  repeat (destruct H as [<-|H]; [reflexivity|]). destruct H.
Qed.

Lemma token_code_canonical t : In t position_tokens -> canonical (token_code t).
Proof.
  intros H. simpl in H. unfold canonical.
  repeat (destruct H as [<-|H]; [vm_compute; tauto|]). destruct H.
Qed.

Lemma by_substring_canonical u : canonical (by_substring u).
Proof.
  unfold by_substring, canonical.
  repeat match goal with |- context [if ?b then _ else _] => destruct b end; tauto.
Qed.

(** Token search_ascii first, substring search_ascii second. *)
Lemma extract_position_unfold s :
  extract_position_ascii s =
    if truthy s then
      match search_ascii position_pat_ascii false (strip s) with
      | Some g => token_code (upper_ascii g)
      | None => by_substring (upper_ascii (strip s))
      end
    else "".
Proof.
  unfold extract_position_ascii. destruct (truthy s); [|reflexivity]. simpl.
  destruct (search_ascii position_pat_ascii false (strip s)) as [g|] eqn:E; [|reflexivity].
  apply search_position_token in E. rewrite <- (classify_token _ E). reflexivity.
Qed.

Lemma extract_position_canonical s : canonical (extract_position_ascii s).
Proof.
  rewrite extract_position_unfold.
  destruct (truthy s); [|unfold canonical; tauto].
  destruct (search_ascii position_pat_ascii false (strip s)) as [g|] eqn:E.
  - apply token_code_canonical, (search_position_token _ _ _ E).
  - apply by_substring_canonical.
Qed.

Lemma declared_tokens_ok t c : In (t, c) declared_tokens -> extract_position_ascii t = c.
Proof.
  intros H. simpl in H.
  repeat (destruct H as [[= <- <-]|H]; [vm_compute; reflexivity|]). destruct H.
Qed.

(** A declared token in any mix of cases gives its code. *)
Lemma extract_position_token t c s :
  In (t, c) declared_tokens -> upper_ascii s = t -> extract_position_ascii s = c.
Proof.
  intros Hin <-. rewrite <- extract_position_upper. apply declared_tokens_ok, Hin.
Qed.

End Position.

(** ** Reasoning in the monad *)

Section MonadFacts.
Import Shape.
Context {World : Type}.

Lemma post_ret {A} (x : A) (P : A -> Prop) Q : P x -> post (World := World) (ret x) P Q.
Proof. intros H st. exact H. Qed.

Lemma post_bind {A B} (m : M World A) (k : A -> M World B) P' P Q :
  post m P' Q -> (forall x, P' x -> post (k x) P Q) -> post (bind m k) P Q.
Proof.
  intros Hm Hk st. unfold bind. specialize (Hm st).
  destruct (m st) as [[e|x] st']; [exact Hm|]. apply (Hk x Hm st').
Qed.

Lemma post_try {A} (body : M World A) handler P Q' Q :
  post body P Q' -> (forall e, Q' e -> post (handler e) P Q) ->
  post (try_except body handler) P Q.
Proof.
  intros Hb Hh st. unfold try_except. specialize (Hb st).
  destruct (body st) as [[e|x] st']; [|exact Hb]. apply (Hh e Hb st').
Qed.

Lemma post_warn r (P : unit -> Prop) Q : P tt -> post (World := World) (warn r) P Q.
Proof. intros H st. exact H. Qed.

Lemma post_weaken {A} (m : M World A) (P P' : A -> Prop) (Q Q' : PyExc -> Prop) :
  post m P Q -> (forall x, P x -> P' x) -> (forall e, Q e -> Q' e) -> post m P' Q'.
Proof.
  intros H HP HQ st. specialize (H st). destruct (m st) as [[e|x] st']; auto.
Qed.

Lemma post_for_each {A B} (body : B -> A -> M World B) (I : B -> Prop) Q l :
  (forall acc x, I acc -> post (body acc x) I Q) ->
  forall acc, I acc -> post (for_each body acc l) I Q.
Proof.
  intros Hbody. induction l as [|x l IH]; intros acc Hacc; simpl.
  - apply post_ret, Hacc.
  - apply (post_bind _ _ I); [apply Hbody, Hacc|]. intros acc' Hacc'. apply IH, Hacc'.
Qed.

Lemma yields_run {A} (m : M World A) P st :
  yields m P -> exists x st', m st = (inr x, st') /\ P x.
Proof.
  intros H. specialize (H st). destruct (m st) as [[e|x] st']; [destruct H|eauto].
Qed.

End MonadFacts.

(** ** The profile pass fills empty fields only *)

Section WriteOnce.
Import PyStr FieldExtractors Html Scraper Shape.

Lemma truthy_false s : truthy s = false -> s = "".
Proof. destruct s; [reflexivity|discriminate]. Qed.

Lemma keeps_refl p : keeps p p.
Proof. unfold keeps. tauto. Qed.

Lemma keeps_trans p q r : keeps p q -> keeps q r -> keeps p r.
Proof.
  unfold keeps. intros Hpq Hqr.
  repeat match goal with H : _ /\ _ |- _ => destruct H end.
  repeat split; try congruence;
    intros Hne;
    match goal with
    | H1 : ?f p <> "" -> ?f q = ?f p, H2 : ?f q <> "" -> ?f r = ?f q |- ?f r = ?f p =>
        rewrite <- (H1 Hne); apply H2; rewrite (H1 Hne); exact Hne
    end.
Qed.

Ltac fill_empty :=
  unfold keeps; simpl; repeat split; try reflexivity; intros; try congruence;
  repeat match goal with
         | H : negb (truthy _) = true |- _ => apply negb_true_iff, truthy_false in H
         end;
  congruence.

Ltac split_rule :=
  repeat match goal with
         | |- context [if ?b then _ else _] => destruct b eqn:?
         | |- context [let '(_, _) := ?x in _] => destruct x
         end.

Lemma bio_rule_keeps label value p : keeps p (bio_rule label value p).
Proof.
  unfold bio_rule.
  repeat match goal with
         | |- context [contains ?a ?b] => generalize (contains a b); intros ?
         end.
  destruct (extract_hometown_parts value) as [h hs].
  split_rule; try apply keeps_refl; try fill_empty.
  all: simpl in *;
    repeat match goal with
           | H : _ && _ = true |- _ => apply andb_prop in H as [? ?]
           end; fill_empty.
Qed.

Lemma detail_rule_keeps label value p : keeps p (detail_rule label value p).
Proof.
  unfold detail_rule.
  repeat match goal with
         | |- context [contains ?a ?b] => generalize (contains a b); intros ?
         end.
  destruct (extract_hometown_parts value) as [h hs].
  split_rule; try apply keeps_refl; try fill_empty.
  all: simpl in *;
    repeat match goal with
           | H : _ && _ = true |- _ => apply andb_prop in H as [? ?]
           end; fill_empty.
Qed.


(** Any reflexive and transitive relation that the two rule sets respect
    holds between a record and its image under the whole walk. *)
Section Passes.
Context {T : Type}.
Variables bio detail : string -> string -> T -> T.
Variable R : T -> T -> Prop.
Hypothesis R_refl : forall p, R p p.
Hypothesis R_trans : forall p q r, R p q -> R q r -> R p r.
Hypothesis R_bio : forall label value p, R p (bio label value p).
Hypothesis R_detail : forall label value p, R p (detail label value p).

Lemma fold_left_rel {A} (f : T -> A -> T) l :
  (forall p x, R p (f p x)) -> forall p, R p (fold_left f l p).
Proof.
  intros Hf. induction l as [|x l IH]; intros p; simpl; [apply R_refl|].
  apply (R_trans _ (f p x)); [apply Hf|apply IH].
Qed.

Lemma labelled_rel rule l v p :
  (forall label value q, R q (rule label value q)) -> R p (labelled rule l v p).
Proof.
  intros H. unfold labelled. destruct (no_data (clean_text v)); [apply R_refl|apply H].
Qed.

Lemma bio_item_rel p item : R p (bio_item bio p item).
Proof.
  unfold bio_item. destruct (label_elem item), (value_elem item);
    try apply R_refl. apply labelled_rel, R_bio.
Qed.

Lemma dl_pair_rel p x : R p (dl_pair bio p x).
Proof. apply labelled_rel, R_bio. Qed.

Lemma detail_row_rel p cells : R p (detail_row detail p cells).
Proof.
  unfold detail_row. destruct cells as [|c0 [|c1 cells]]; try apply R_refl.
  apply labelled_rel, R_detail.
Qed.

Lemma detail_table_rel p table : R p (detail_table detail p table).
Proof. apply (fold_left_rel (detail_row detail)), detail_row_rel. Qed.

Lemma walk_profile_rel html p : R p (walk_profile bio detail html p).
Proof.
  unfold walk_profile.
  set (p1 := match bio_section html with
             | Some bio_items => fold_left (bio_item bio) bio_items p
             | None => p
             end).
  set (p2 := match dl_section html with
             | Some (dts, dds) => fold_left (dl_pair bio) (zip dts dds) p1
             | None => p1
             end).
  apply (R_trans _ p1); [|apply (R_trans _ p2)].
  - subst p1. destruct (bio_section html);
      [apply (fold_left_rel (bio_item bio)), bio_item_rel|apply R_refl].
  - subst p2. destruct (dl_section html) as [[dts dds]|];
      [apply (fold_left_rel (dl_pair bio)), dl_pair_rel|apply R_refl].
  - apply (fold_left_rel (detail_table detail)), detail_table_rel.
Qed.

End Passes.

Section Fetch.
Context {World : Type} {session : Session World}.

Lemma get_post url :
  post (World := World) (get url) (fun _ => True) (fun _ => True).
Proof.
  intros st. unfold get. destruct (session_get url (world st)) as [[e|sc body] w];
    exact I.
Qed.

(** The profile pass of the scraper never raises, and relates the
    record it is given to the one it returns. *)
Lemma scrape_player_profile_rel (R : Player -> Player -> Prop) p :
  (forall p, R p p) -> (forall html, R p (profile_fill html p)) ->
  yields (World := World) (_scrape_player_profile p) (R p).
Proof.
  intros R_refl R_fill.
  unfold yields, _scrape_player_profile.
  destruct (truthy (url p)); simpl; [|apply post_ret, R_refl].
  apply (post_try _ _ _ (fun _ => True)).
  - apply (post_bind _ _ (fun _ => True)); [apply get_post|].
    intros response _.
    destruct (status_code response =? 200)%Z; simpl.
    + apply post_ret, R_fill.
    + apply (post_bind _ _ (fun _ => True)); [apply post_warn, I|].
      intros _ _. apply post_ret, R_refl.
  - intros e _.
    destruct e; (apply (post_bind _ _ (fun _ => True)); [apply post_warn, I|]);
      intros _ _; apply post_ret, R_refl.
Qed.

End Fetch.

Lemma profile_fill_keeps html p : keeps p (profile_fill html p).
Proof.
  apply (walk_profile_rel bio_rule detail_rule keeps);
    eauto using keeps_refl, keeps_trans, bio_rule_keeps, detail_rule_keeps.
Qed.

End WriteOnce.

(** ** C1: write-once-if-empty *)

Section WriteOnceRows.
Import PyStr FieldExtractors Html Scraper Shape.

Lemma keeps_row_refl (row : Enhancer.Row) : keeps_row row row.
Proof. intros key value H _. exact H. Qed.

Lemma keeps_row_trans (r1 r2 r3 : Enhancer.Row) :
  keeps_row r1 r2 -> keeps_row r2 r3 -> keeps_row r1 r3.
Proof. intros H12 H23 key value H Hne. apply H23; [apply H12|]; assumption. Qed.

Lemma insert_keeps (row : Enhancer.Row) k c :
  Enhancer.has row k = false -> keeps_row row (<[k:=c]> row).
Proof.
  intros Hk key value Hl Hne.
  destruct (decide (k = key)) as [->|Hd].
  - unfold Enhancer.has, Enhancer.row_get in Hk. rewrite Hl in Hk.
    apply truthy_false in Hk. contradiction.
  - rewrite lookup_insert_ne; assumption.
Qed.

Ltac guarded_insert :=
  match goal with
  | H : _ && negb (Enhancer.has ?row ?k) = true |- keeps_row ?row (<[?k:=_]> ?row) =>
      apply andb_prop in H as [_ H]; apply negb_true_iff in H;
      apply insert_keeps, H
  end.

Lemma enhancer_bio_rule_keeps label value row :
  keeps_row row (Enhancer.bio_rule label value row).
Proof.
  unfold Enhancer.bio_rule.
  repeat match goal with
         | |- context [contains ?a ?b] => generalize (contains a b); intros ?
         end.
  destruct (extract_hometown_parts value) as [h hs].
  repeat match goal with
         | |- context [if ?b then _ else _] => destruct b eqn:?
         end;
    try apply keeps_row_refl; try guarded_insert.
  apply (keeps_row_trans _ (<["hometown":=Some h]> row)); guarded_insert.
Qed.

Lemma enhancer_detail_rule_keeps label value row :
  keeps_row row (Enhancer.detail_rule label value row).
Proof.
  unfold Enhancer.detail_rule.
  repeat match goal with
         | |- context [contains ?a ?b] => generalize (contains a b); intros ?
         end.
  destruct (extract_hometown_parts value) as [h hs].
  repeat match goal with
         | |- context [if ?b then _ else _] => destruct b eqn:?
         end;
    try apply keeps_row_refl; try guarded_insert.
  apply (keeps_row_trans _ (<["hometown":=Some h]> row)); guarded_insert.
Qed.

Lemma enhancer_fill_keeps html row : keeps_row row (Enhancer.profile_fill html row).
Proof.
  apply (walk_profile_rel Enhancer.bio_rule Enhancer.detail_rule keeps_row);
    eauto using keeps_row_refl, keeps_row_trans, enhancer_bio_rule_keeps,
      enhancer_detail_rule_keeps.
Qed.

Context {World : Type} {session : Session World}.

(** Once the url is a text, the pass of the enhancement tool returns,
    without raising, the row or the row filled from a page. *)
Lemma scrape_profile_at_rel (R : Enhancer.Row -> Enhancer.Row -> Prop) url row force :
  R row row -> (forall html, R row (Enhancer.profile_fill html row)) ->
  yields (World := World) (Enhancer.scrape_profile_at url row force) (R row).
Proof.
  intros R_refl R_fill. unfold yields, Enhancer.scrape_profile_at.
  destruct (truthy url); simpl; [|apply post_ret, R_refl].
  destruct (negb force && Enhancer.has_data row); [apply post_ret, R_refl|].
  apply (post_try _ _ _ (fun _ => True)).
  - apply (post_bind _ _ (fun _ => True)); [apply get_post|].
    intros response _.
    destruct (status_code response =? 200)%Z; simpl.
    + apply post_ret, R_fill.
    + apply (post_bind _ _ (fun _ => True)); [apply post_warn, I|].
      intros _ _. apply post_ret, R_refl.
  - intros e _.
    destruct e; (apply (post_bind _ _ (fun _ => True)); [apply post_warn, I|]);
      intros _ _; apply post_ret, R_refl.
Qed.

(** The pass raises for a row whose url is [None], in the state it was
    called in, and for no other row. *)
Lemma enhancer_profile_rel (R : Enhancer.Row -> Enhancer.Row -> Prop) row force
    (st : St World) :
  R row row -> (forall html, R row (Enhancer.profile_fill html row)) ->
  match Enhancer.scrape_player_profile row force st with
  | (inr row', _) => row !! "url" <> Some None /\ R row row'
  | (inl e, st') => row !! "url" = Some None /\ e = Enhancer.none_has_no "strip" /\ st' = st
  end.
Proof.
  intros R_refl R_fill. unfold Enhancer.scrape_player_profile, Enhancer.row_get_or_empty.
  destruct (row !! "url") as [[text|]|] eqn:E.
  - pose proof (scrape_profile_at_rel R (strip text) row force R_refl R_fill st) as H.
    destruct (Enhancer.scrape_profile_at (strip text) row force st) as [[e|row'] st'];
      [destruct H|]. split; [discriminate|exact H].
  - repeat split.
  - pose proof (scrape_profile_at_rel R (strip "") row force R_refl R_fill st) as H.
    destruct (Enhancer.scrape_profile_at (strip "") row force st) as [[e|row'] st'];
      [destruct H|]. split; [discriminate|exact H].
Qed.

(** X22: no profile pass overwrites a field that holds a value.  The walk
    over a profile page (bio items, dt/dd pairs, detail tables) leaves
    the team identifier and the season alone and keeps every non-empty
    field, in the scraper and in the enhancement tool; a record whose
    position is D keeps D whatever the page says; the pass of the scraper
    around the walk, fetch included, returns without raising a record
    related to the given one in the same way, and so does the pass of the
    enhancement tool unless the url of the row is [None], when it raises
    in the state it was called in. *)
Theorem profile_pass_write_once
    (p : Player) (html : Page) (st : St World)
    (row : Enhancer.Row) (force : bool) :
  keeps p (profile_fill html p)
  /\ position (profile_fill html (set_position "D" p)) = "D"
  /\ (exists q st', _scrape_player_profile p st = (inr q, st') /\ keeps p q)
  /\ keeps_row row (Enhancer.profile_fill html row)
  /\ match Enhancer.scrape_player_profile row force st with
     | (inr row', _) => row !! "url" <> Some None /\ keeps_row row row'
     | (inl e, st') =>
         row !! "url" = Some None /\ e = Enhancer.none_has_no "strip" /\ st' = st
     end.
Proof.
  split; [apply profile_fill_keeps|].
  split.
  { pose proof (profile_fill_keeps html (set_position "D" p)) as H.
    unfold keeps in H. simpl in H.
    destruct H as (_ & _ & _ & _ & _ & _ & _ & H & _). apply H. discriminate. }
  split.
  { apply yields_run, scrape_player_profile_rel;
      [apply keeps_refl|intros; apply profile_fill_keeps]. }
  split; [apply enhancer_fill_keeps|].
  apply (enhancer_profile_rel keeps_row);
    [apply keeps_row_refl|intros; apply enhancer_fill_keeps].
Qed.

End WriteOnceRows.

Section WriteOnceExamples.
Import Html Scraper Examples.

(** A profile page that calls the player a forward does not change a
    position that is already D. *)
Example profile_keeps_D :
  position (profile_fill (page_of_bio [field "Position" "Forward"])
              (new_player 1 "Team" "2025" "" "Ann Lee" "" "D" "" "" "" "" "")) = "D"
  /\ position (profile_fill (page_of_bio [field "Position" "Forward"])
                 (new_player 1 "Team" "2025" "" "Ann Lee" "" "" "" "" "" "" "")) = "F".
Proof. split; reflexivity. Qed.

(** C1: the first writer does not win while the fields of a roster item
    are collected.  The loops over a profile page write a field only when
    it is empty; the loop over the fields of a roster item writes without
    that test: the position read from the first position field is D, and
    the second position field of the same item overwrites it with F, the
    value of the record. *)
Theorem item_list_later_field_overwrites :
  m_position (fold_left meta_field [field "Position" "Defense"] meta_empty) = "D"
  /\ m_position (fold_left meta_field
                   [field "Position" "Defense"; field "Position" "Forward"]
                   meta_empty) = "F"
  /\ fst (_extract_players (session := site_session []) 1 "Team" "2025" "" false
            two_positions "https://example.edu/sports/field-hockey" start)
     = inr [new_player 1 "Team" "2025" "" "Ann Lee" "" "F" "" "" "" "" ""].
Proof. repeat split; vm_compute; reflexivity. Qed.

End WriteOnceExamples.

(** ** Positions of records *)

Section RecordPositions.
Import PyStr FieldExtractors Html Scraper Shape.

Lemma extracted_empty : extracted "".
Proof. left. reflexivity. Qed.

Lemma extracted_position text : extracted (extract_position text).
Proof. right. exists text. reflexivity. Qed.

Lemma extracted_to_refl p : extracted_to p p.
Proof. intros H. exact H. Qed.

Lemma extracted_to_trans p q r : extracted_to p q -> extracted_to q r -> extracted_to p r.
Proof. unfold extracted_to. tauto. Qed.

Lemma bio_rule_extracted label value p : extracted_to p (bio_rule label value p).
Proof.
  unfold bio_rule, extracted_to.
  repeat match goal with
         | |- context [contains ?a ?b] => generalize (contains a b); intros ?
         end.
  destruct (extract_hometown_parts value) as [h hs].
  repeat match goal with
         | |- context [if ?b then _ else _] => destruct b
         end; simpl; intros Hp; try exact Hp.
  apply extracted_position.
Qed.

Lemma detail_rule_extracted label value p : extracted_to p (detail_rule label value p).
Proof.
  unfold detail_rule, extracted_to.
  repeat match goal with
         | |- context [contains ?a ?b] => generalize (contains a b); intros ?
         end.
  destruct (extract_hometown_parts value) as [h hs].
  repeat match goal with
         | |- context [if ?b then _ else _] => destruct b
         end; simpl; intros Hp; try exact Hp.
  apply extracted_position.
Qed.

Lemma profile_fill_extracted html p : extracted_to p (profile_fill html p).
Proof.
  apply (walk_profile_rel bio_rule detail_rule extracted_to);
    eauto using extracted_to_refl, extracted_to_trans, bio_rule_extracted, detail_rule_extracted.
Qed.

Lemma meta_field_extracted acc meta :
  extracted (m_position acc) -> extracted (m_position (meta_field acc meta)).
Proof.
  unfold meta_field. destruct (label_elem meta), (value_elem meta); try tauto.
  destruct (extract_hometown_parts _) as [h hs].
  repeat match goal with
         | |- context [if ?b then _ else _] => destruct b
         end; simpl; intros Hp; try exact Hp.
  apply extracted_position.
Qed.

Lemma meta_fields_extracted l acc :
  extracted (m_position acc) -> extracted (m_position (fold_left meta_field l acc)).
Proof.
  revert acc; induction l as [|x l IH]; intros acc H; simpl; [exact H|].
  apply IH, meta_field_extracted, H.
Qed.

Context {World : Type} {session : Session World}.
Variables (the_team_id : Z) (team_name the_season the_division : string).
Variable scrape_profiles : bool.

Lemma row_player_extracted domain idx cols :
  extracted (position (row_player the_team_id team_name the_season the_division
                         domain idx cols)).
Proof.
  unfold row_player.
  destruct (match col (name_idx idx) cols with
            | Some name_cell => name_and_url domain name_cell
            | None => ("", "")
            end) as [nm u].
  destruct (match cell_text (hometown_idx idx) cols with
            | Some hometown_text =>
                let '(hometown, hs) := extract_hometown_parts hometown_text in
                (hometown, if truthy hs then hs else "")
            | None => ("", "")
            end) as [ht hs].
  simpl. destruct (cell_text (pos_idx idx) cols);
    [apply extracted_position|apply extracted_empty].
Qed.

Lemma enrich_and_append_extracted players player :
  all_extracted players -> extracted (position player) ->
  yields (World := World) (enrich_and_append scrape_profiles players player) all_extracted.
Proof.
  intros Hps Hp. unfold yields, enrich_and_append.
  apply (post_bind _ _ (fun q => extracted (position q))).
  - destruct (scrape_profiles && truthy (url player)); [|apply post_ret, Hp].
    eapply post_weaken;
      [apply (scrape_player_profile_rel extracted_to);
       [apply extracted_to_refl|intros; apply profile_fill_extracted]| |tauto].
    intros q Hq. apply Hq, Hp.
  - intros q Hq. apply post_ret. apply Forall_app. split; [exact Hps|].
    constructor; [exact Hq|constructor].
Qed.

Lemma handler_extracted players e :
  all_extracted players ->
  yields (World := World) (bind (warn (ErrorParsing team_name e)) (fun _ => ret players))
    all_extracted.
Proof.
  intros H. apply (post_bind _ _ (fun _ => True)); [apply post_warn, I|].
  intros _ _. apply post_ret, H.
Qed.

Lemma roster_item_extracted domain players item :
  all_extracted players ->
  yields (World := World)
    (roster_item the_team_id team_name the_season the_division scrape_profiles
       domain players item) all_extracted.
Proof.
  intros Hps. unfold yields, roster_item.
  apply (post_try _ _ _ (fun _ => False)); [|intros e []].
  destruct (match match h3 item with Some e => Some e | None => h2 item end with
            | Some e => name_and_url domain e
            | None => ("", "")
            end) as [nm u].
  apply enrich_and_append_extracted; [exact Hps|].
  simpl. apply meta_fields_extracted, extracted_empty.
Qed.

Lemma table_row_extracted domain idx players cols :
  all_extracted players ->
  yields (World := World)
    (table_row the_team_id team_name the_season the_division scrape_profiles
       domain idx players cols) all_extracted.
Proof.
  intros Hps. unfold yields, table_row.
  destruct (length cols <? 2)%nat; [apply post_ret, Hps|].
  apply (post_try _ _ _ (fun _ => False)); [|intros e []].
  apply enrich_and_append_extracted; [exact Hps|apply row_player_extracted].
Qed.

Lemma all_extracted_nil : all_extracted [].
Proof. constructor. Qed.

Lemma extract_players_from_table_extracted html base_url :
  yields (World := World)
    (_extract_players_from_table the_team_id team_name the_season the_division
       scrape_profiles html base_url) all_extracted.
Proof.
  unfold yields, _extract_players_from_table.
  destruct (match find_sidearm_table (tables html) with
            | Some t => Some t
            | None => find_table (tables html)
            end) as [table|].
  - destruct (match thead table with
              | Some rows => Some (concat rows)
              | None => head (all_rows table)
              end) as [header_cells|].
    + apply post_for_each; [|apply all_extracted_nil].
      intros acc x Hacc. apply table_row_extracted, Hacc.
    + apply (post_bind _ _ (fun _ => True)); [apply post_warn, I|].
      intros _ _. apply post_ret, all_extracted_nil.
  - apply (post_bind _ _ (fun _ => True)); [apply post_warn, I|].
    intros _ _. apply post_ret, all_extracted_nil.
Qed.

Lemma extract_players_extracted html base_url :
  yields (World := World)
    (_extract_players the_team_id team_name the_season the_division
       scrape_profiles html base_url) all_extracted.
Proof.
  unfold yields, _extract_players.
  destruct (roster_items html) as [|item items].
  - apply (post_bind _ _ (fun _ => True)); [apply post_warn, I|].
    intros _ _. apply extract_players_from_table_extracted.
  - apply post_for_each; [|apply all_extracted_nil].
    intros acc x Hacc. apply roster_item_extracted, Hacc.
Qed.

End RecordPositions.

(** ** scrape_team returns normally *)

Section ScrapeTeam.
Import PyStr FieldExtractors Html Scraper Shape.
Context {World : Type} {session : Session World}.
Variables (the_team_id : Z) (team_name the_season the_division : string).
Variable scrape_profiles : bool.

Lemma post_any {A} (m : M World A) : post m (fun _ => True) (fun _ => True).
Proof. intros st. destruct (m st) as [[e|x] st']; exact I. Qed.

Lemma warn_then_ret {A} r (x : A) (P : A -> Prop) Q :
  P x -> post (World := World) (bind (warn r) (fun _ => ret x)) P Q.
Proof.
  intros H. apply (post_bind _ _ (fun _ => True)); [apply post_warn, I|].
  intros _ _. apply post_ret, H.
Qed.

(** Whatever holds of the empty list and of every list that the
    extraction returns holds of the result of [scrape_team], which never
    raises. *)
Lemma scrape_team_with_yields verify (P : list Player -> Prop) base_url :
  P [] ->
  (forall html,
      yields (World := World)
        (_extract_players the_team_id team_name the_season the_division
           scrape_profiles html base_url) P) ->
  yields (World := World)
    (scrape_team_with the_team_id team_name the_season the_division scrape_profiles
       verify base_url) P.
Proof.
  intros Hnil Hext. unfold yields, scrape_team_with.
  apply (post_try _ _ _ (fun _ => True)).
  - apply (post_bind _ _ (fun _ => True)); [apply post_any|]. intros roster_url _.
    apply (post_bind _ _ (fun _ => True)); [apply post_any|]. intros _ _.
    apply (post_bind _ _ (fun _ => True)); [apply post_any|]. intros response _.
    unfold use_response.
    destruct (negb (status_code response =? 200)%Z); [apply warn_then_ret, Hnil|].
    unfold scrape_page.
    apply (post_bind _ _ (fun _ => True)); [apply post_any|]. intros _ _.
    eapply post_weaken; [apply Hext|auto|tauto].
  - intros e _. destruct e; apply warn_then_ret, Hnil.
Qed.


(** Tokens at word boundaries come first: a lone article is read as an
    attacker although a keeper follows. *)
Example token_before_substring :
  extract_position "A keeper" = "F" /\ extract_position "Goalkeeper" = "GK"
  /\ extract_position "goalie" = "GK" /\ extract_position "GOALIE" = "GK"
  /\ extract_position "Quarterback" = "D" /\ extract_position "Striker" = "".
Proof. repeat split; reflexivity. Qed.

End ScrapeTeam.

(** ** The position extractor on ASCII text *)

Section PositionOnAscii.
Import PyStr FieldExtractors Shape.

Ltac each_char c :=
  destruct c as [[] [] [] [] [] [] [] []]; reflexivity.

Lemma ascii_upper_char c : ascii_char (upper_char c) = ascii_char c.
Proof. each_char c. Qed.

Lemma ascii_lower_char c : ascii_char (lower_char c) = ascii_char c.
Proof. each_char c. Qed.

Lemma word_is_ascii c : is_word c = true -> ascii_char c = true.
Proof. destruct c as [[] [] [] [] [] [] [] []]; simpl; intros H; try reflexivity; discriminate. Qed.

Lemma word_is_not_space c : is_word c = true -> is_space c = false.
Proof. destruct c as [[] [] [] [] [] [] [] []]; simpl; intros H; try reflexivity; discriminate. Qed.

Lemma lower_lower_char c : lower_char (lower_char c) = lower_char c.
Proof. each_char c. Qed.

(** Two characters are the same letter when the one is the other in
    upper or in lower case. *)
Lemma same_letter_chars a b :
  eqb_char (lower_char a) (lower_char b)
  = eqb_char (upper_char a) b || eqb_char (lower_char a) b.
Proof.
  unfold eqb_char.
  destruct (Ascii.eqb (upper_char a) b) eqn:Eu; simpl.
  - apply Ascii.eqb_eq in Eu. subst b. rewrite lower_upper. apply Ascii.eqb_refl.
  - destruct (Ascii.eqb (lower_char a) b) eqn:El.
    + apply Ascii.eqb_eq in El. subst b. rewrite lower_lower_char. apply Ascii.eqb_refl.
    + apply Ascii.eqb_neq. apply Ascii.eqb_neq in Eu, El. intros H. revert Eu El H.
      unfold upper_char, lower_char, is_lower, is_upper, between, code.
      rewrite <- (ascii_nat_embedding a), <- (ascii_nat_embedding b).
      pose proof (nat_ascii_bounded a) as Ha. pose proof (nat_ascii_bounded b) as Hb.
      generalize dependent (nat_of_ascii a). generalize dependent (nat_of_ascii b).
      intros n Hn m Hm. rewrite !nat_ascii_embedding by assumption.
      destruct (97 <=? m)%nat eqn:E1, (m <=? 122)%nat eqn:E2,
               (65 <=? m)%nat eqn:E3, (m <=? 90)%nat eqn:E4,
               (65 <=? n)%nat eqn:E5, (n <=? 90)%nat eqn:E6; simpl;
        intros Hu Hl H;
        repeat match goal with
               | H : (_ <=? _)%nat = true |- _ => apply Nat.leb_le in H
               | H : (_ <=? _)%nat = false |- _ => apply Nat.leb_gt in H
               end; try lia;
        try (apply Hu; f_equal; lia); try (apply Hl; f_equal; lia);
        try (apply (f_equal nat_of_ascii) in H;
             rewrite !nat_ascii_embedding in H by lia; first [lia | (apply Hl; f_equal; lia) | (apply Hu; f_equal; lia)]).
Qed.


Lemma ascii_apart a b : ascii_char a = false -> ascii_char b = true -> eqb_char a b = false.
Proof.
  intros Ha Hb. unfold eqb_char. apply Ascii.eqb_neq. intros ->. congruence.
Qed.

(** No character beyond ASCII starts an ASCII text. *)
Lemma beyond_not_prefix from c r :
  beyond_ascii from = true -> ascii_char c = true -> startswith from (String c r) = false.
Proof.
  destruct from as [|a from]; [discriminate|]. simpl. intros Ha Hc.
  apply negb_true_iff in Ha. rewrite (ascii_apart a c Ha Hc). reflexivity.
Qed.

Lemma find_prefix_ascii table c r :
  forallb (fun entry => beyond_ascii (fst entry)) table = true ->
  ascii_char c = true -> find_prefix table (String c r) = None.
Proof.
  intros Ht Hc. induction table as [|[from to] table IH]; [reflexivity|].
  simpl in Ht. apply andb_prop in Ht as [Hf Ht].
  cbn [find_prefix]. rewrite (beyond_not_prefix from c r Hf Hc). apply IH, Ht.
Qed.

Lemma map_case_ascii f table s :
  forallb (fun entry => beyond_ascii (fst entry)) table = true ->
  ascii_text s = true -> map_case f table 0 s = map_chars f s.
Proof.
  intros Ht. induction s as [|c r IH]; [reflexivity|].
  unfold ascii_text. cbn [all_chars]. intros H. apply andb_prop in H as [Hc Hr].
  cbn [map_case map_chars]. rewrite (find_prefix_ascii table c r Ht Hc), (IH Hr).
  reflexivity.
Qed.

Lemma upper_on_ascii s : ascii_text s = true -> upper s = upper_ascii s.
Proof. apply map_case_ascii. reflexivity. Qed.

Lemma lower_on_ascii s : ascii_text s = true -> lower s = lower_ascii s.
Proof. apply map_case_ascii. reflexivity. Qed.

Lemma ascii_upper s : ascii_text (upper_ascii s) = ascii_text s.
Proof.
  unfold ascii_text, upper_ascii. induction s as [|c r IH]; [reflexivity|].
  simpl. rewrite IH, ascii_upper_char. reflexivity.
Qed.

Lemma ascii_lower s : ascii_text (lower_ascii s) = ascii_text s.
Proof.
  unfold ascii_text, lower_ascii. induction s as [|c r IH]; [reflexivity|].
  simpl. rewrite IH, ascii_lower_char. reflexivity.
Qed.

Lemma ascii_lstrip s : ascii_text s = true -> ascii_text (lstrip s) = true.
Proof.
  unfold ascii_text. induction s as [|c r IH]; [reflexivity|].
  intros H. simpl. destruct (is_space c); [|exact H].
  simpl in H. apply andb_prop in H as [_ H]. apply IH, H.
Qed.

Lemma ascii_rstrip s : ascii_text s = true -> ascii_text (rstrip s) = true.
Proof.
  unfold ascii_text. induction s as [|c r IH]; [reflexivity|].
  intros H. simpl in H. apply andb_prop in H as [Hc Hr]. specialize (IH Hr).
  simpl. destruct (rstrip r) as [|c' r'].
  - destruct (is_space c); [reflexivity|]. simpl. rewrite Hc. reflexivity.
  - cbn [all_chars]. rewrite Hc. exact IH.
Qed.

Lemma ascii_strip s : ascii_text s = true -> ascii_text (strip s) = true.
Proof. intros H. apply ascii_rstrip, ascii_lstrip, H. Qed.

Lemma ascii_take n : forall s, ascii_text s = true -> ascii_text (take n s) = true.
Proof.
  unfold ascii_text. induction n as [|n IH]; intros [|c r] H; try reflexivity.
  simpl in H. apply andb_prop in H as [Hc Hr]. simpl. rewrite Hc. apply IH, Hr.
Qed.

Lemma ascii_drop n : forall s, ascii_text s = true -> ascii_text (drop n s) = true.
Proof.
  unfold ascii_text. induction n as [|n IH]; intros [|c r] H; try reflexivity;
    try exact H.
  simpl in H. apply andb_prop in H as [_ Hr]. simpl. apply IH, Hr.
Qed.

Lemma letter_at_ascii c r : ascii_char c = true -> letter_at (String c r) = None.
Proof.
  intros Hc. unfold letter_at. rewrite find_prefix_ascii; [reflexivity|reflexivity|exact Hc].
Qed.

Lemma boundary_on_ascii b s : ascii_text s = true -> boundary b s = boundary_ascii b s.
Proof.
  unfold boundary, boundary_ascii. destruct s as [|c r]; [reflexivity|].
  unfold ascii_text. cbn [all_chars]. intros H. apply andb_prop in H as [Hc _].
  cbn [head_is_word head_is_word_ascii]. rewrite (letter_at_ascii c r Hc), orb_false_r.
  reflexivity.
Qed.

Lemma search_on_ascii {A} (m : bool -> string -> option A) s : forall b,
  ascii_text s = true -> search m b s = search_ascii m b s.
Proof.
  unfold search. induction s as [|c r IH]; intros b Hs; [reflexivity|].
  unfold ascii_text in Hs. cbn [all_chars] in Hs. apply andb_prop in Hs as [Hc Hr].
  cbn [search_at search_ascii]. rewrite (letter_at_ascii c r Hc), (IH _ Hr). reflexivity.
Qed.

Lemma cons_append c s : String c EmptyString +:+ s = String c s.
Proof. reflexivity. Qed.

(** On ASCII text the forms of a letter are its two cases. *)
Lemma none_beyond forms c r :
  forallb beyond_ascii forms = true -> ascii_char c = true ->
  first_some (fun form => lit form (String c r)) forms = None.
Proof.
  intros Hf Hc. induction forms as [|form forms IH]; [reflexivity|].
  simpl in Hf. apply andb_prop in Hf as [Hb Hf].
  cbn [first_some]. unfold lit at 1. rewrite (beyond_not_prefix form c r Hb Hc).
  apply IH, Hf.
Qed.

Lemma same_letter_ascii a b r :
  ascii_char b = true ->
  first_some (fun form => lit form (String b r)) (same_letter a)
  = if eqb_char (lower_char a) (lower_char b) then Some (String b EmptyString, r)
    else None.
Proof.
  intros Hb. rewrite same_letter_chars. unfold same_letter.
  cbn [app first_some]. unfold lit at 1. cbn [startswith String.length drop].
  destruct (eqb_char (upper_char a) b) eqn:Eu; cbn [andb orb].
  - unfold eqb_char in Eu. apply Ascii.eqb_eq in Eu. rewrite Eu. reflexivity.
  - unfold lit at 1. cbn [startswith String.length drop].
    destruct (eqb_char (lower_char a) b) eqn:El; cbn [andb].
    + unfold eqb_char in El. apply Ascii.eqb_eq in El. rewrite El. reflexivity.
    + apply none_beyond; [|exact Hb].
      destruct (eqb_char (lower_char a) "i"); [reflexivity|].
      destruct (eqb_char (lower_char a) "k"); [reflexivity|].
      destruct (eqb_char (lower_char a) "s"); reflexivity.
Qed.

Lemma same_letter_empty a :
  first_some (fun form => lit form EmptyString) (same_letter a) = None.
Proof.
  unfold same_letter. cbn [app first_some]. unfold lit; cbn [startswith].
  destruct (eqb_char (lower_char a) "i"); [reflexivity|].
  destruct (eqb_char (lower_char a) "k"); [reflexivity|].
  destruct (eqb_char (lower_char a) "s"); reflexivity.
Qed.

Lemma lit_ci_ascii t : forall s,
  ascii_text s = true ->
  lit_ci t s = if startswith_ci t s
               then Some (take (String.length t) s, drop (String.length t) s)
               else None.
Proof.
  induction t as [|a t IH]; intros s Hs.
  - destruct s; reflexivity.
  - destruct s as [|b r].
    + cbn [lit_ci startswith_ci]. rewrite same_letter_empty. reflexivity.
    + unfold ascii_text in Hs. cbn [all_chars] in Hs. apply andb_prop in Hs as [Hb Hr].
      cbn [lit_ci startswith_ci]. rewrite (same_letter_ascii a b r Hb).
      destruct (eqb_char (lower_char a) (lower_char b)); cbn [andb]; [|reflexivity].
      rewrite (IH r Hr). destruct (startswith_ci t r); reflexivity.
Qed.

Lemma token_at_on_ascii s t : ascii_text s = true -> token_at s t = token_at_ascii s t.
Proof.
  intros Hs. unfold token_at, token_at_ascii. rewrite (lit_ci_ascii t s Hs).
  destruct (startswith_ci t s); [|reflexivity].
  rewrite (boundary_on_ascii true _ (ascii_drop _ _ Hs)). reflexivity.
Qed.

Lemma first_some_ext {A B} (f g : A -> option B) l :
  (forall x, f x = g x) -> first_some f l = first_some g l.
Proof.
  intros H. induction l as [|x l IH]; [reflexivity|]. simpl. rewrite H, IH. reflexivity.
Qed.

Lemma position_pat_on_ascii b s :
  ascii_text s = true -> position_pat b s = position_pat_ascii b s.
Proof.
  intros Hs. unfold position_pat, position_pat_ascii.
  rewrite (boundary_on_ascii b s Hs).
  destruct (boundary_ascii b s); [|reflexivity].
  apply first_some_ext. intros t. apply token_at_on_ascii, Hs.
Qed.

Lemma search_position_on_ascii s : forall b,
  ascii_text s = true ->
  search position_pat b s = search_ascii position_pat_ascii b s.
Proof.
  intros b Hs. rewrite (search_on_ascii _ s b Hs). revert b.
  induction s as [|c r IH]; intros b.
  - cbn [search_ascii]. rewrite (position_pat_on_ascii b "" Hs). reflexivity.
  - cbn [search_ascii]. rewrite (position_pat_on_ascii b _ Hs).
    unfold ascii_text in Hs. cbn [all_chars] in Hs. apply andb_prop in Hs as [_ Hr].
    rewrite (IH Hr). reflexivity.
Qed.

(** The group of a search in ASCII text is ASCII. *)
Lemma search_group_ascii s : forall b g,
  ascii_text s = true -> search_ascii position_pat_ascii b s = Some g -> ascii_text g = true.
Proof.
  assert (Hpat : forall b text g, ascii_text text = true ->
                   position_pat_ascii b text = Some g -> ascii_text g = true).
  { intros b text g Hs. unfold position_pat_ascii.
    destruct (boundary_ascii b text); [|discriminate].
    intros H. apply first_some_In in H as [t [_ Ht]]. unfold token_at_ascii in Ht.
    destruct (startswith_ci t text && boundary_ascii true (drop (String.length t) text));
      [|discriminate].
    injection Ht as <-. apply ascii_take, Hs. }
  induction s as [|c r IH]; intros b g Hs; cbn [search_ascii].
  - destruct (position_pat_ascii b "") eqn:E; [|discriminate].
    intros [= <-]. apply (Hpat b "" _ Hs E).
  - destruct (position_pat_ascii b (String c r)) eqn:E.
    + intros [= <-]. apply (Hpat b _ _ Hs E).
    + unfold ascii_text in Hs. cbn [all_chars] in Hs. apply andb_prop in Hs as [_ Hr].
      apply IH, Hr.
Qed.

(** On ASCII text the extractor is the extractor of ASCII text. *)
Lemma extract_position_on_ascii_text s :
  ascii_text s = true -> extract_position s = extract_position_ascii s.
Proof.
  intros Hs. unfold extract_position, extract_position_ascii.
  destruct (truthy s); [|reflexivity]. cbn [negb].
  pose proof (ascii_strip s Hs) as Hstrip.
  rewrite (search_position_on_ascii _ false Hstrip).
  destruct (search_ascii position_pat_ascii false (strip s)) as [g|] eqn:E.
  - rewrite (upper_on_ascii g (search_group_ascii _ _ _ Hstrip E)). reflexivity.
  - rewrite (upper_on_ascii _ Hstrip). reflexivity.
Qed.


Lemma upper_of_lower s : upper_ascii (lower_ascii s) = upper_ascii s.
Proof.
  unfold upper_ascii, lower_ascii. induction s as [|c r IH]; simpl; [reflexivity|].
  rewrite IH, upper_lower. reflexivity.
Qed.

Lemma extract_position_lower s :
  extract_position_ascii (lower_ascii s) = extract_position_ascii s.
Proof.
  rewrite <- (extract_position_upper (lower_ascii s)), upper_of_lower.
  apply extract_position_upper.
Qed.

(** *** A text of one word *)

Lemma word_text_ascii w : all_chars is_word w = true -> ascii_text w = true.
Proof.
  unfold ascii_text. induction w as [|c r IH]; [reflexivity|].
  simpl. intros H. apply andb_prop in H as [Hc Hr].
  rewrite (word_is_ascii c Hc). apply IH, Hr.
Qed.

Lemma rstrip_word w : all_chars is_word w = true -> rstrip w = w.
Proof.
  induction w as [|c r IH]; [reflexivity|].
  simpl. intros H. apply andb_prop in H as [Hc Hr]. rewrite (IH Hr).
  destruct r; [rewrite (word_is_not_space c Hc)|]; reflexivity.
Qed.

Lemma strip_word w : all_chars is_word w = true -> strip w = w.
Proof.
  intros H. unfold strip.
  assert (Hl : lstrip w = w).
  { destruct w as [|c r]; [reflexivity|]. simpl in H. apply andb_prop in H as [Hc _].
    simpl. rewrite (word_is_not_space c Hc). reflexivity. }
  rewrite Hl. apply rstrip_word, H.
Qed.

(** In a word a token ends at a word boundary_ascii only when it ends the
    word: an alternative matches the whole word or not at all. *)
Lemma token_at_word t : forall w,
  all_chars is_word w = true ->
  token_at_ascii w t
  = if String.eqb (upper_ascii w) (upper_ascii t) then Some w else None.
Proof.
  unfold token_at_ascii.
  induction t as [|a t IH]; intros [|b r] Hw; try reflexivity.
  - simpl in Hw. apply andb_prop in Hw as [Hb _].
    cbn [startswith_ci String.length drop andb]. unfold boundary_ascii. cbn [head_is_word_ascii].
    rewrite Hb. reflexivity.
  - simpl in Hw. apply andb_prop in Hw as [Hb Hr]. specialize (IH r Hr).
    cbn [startswith_ci String.length drop take].
    unfold upper_ascii in *. cbn [map_chars String.eqb].
    destruct (eqb_char (lower_char a) (lower_char b)) eqn:E; cbn [andb].
    + unfold eqb_char in E. apply Ascii.eqb_eq in E.
      assert (Hu : upper_char b = upper_char a)
        by (rewrite <- (upper_lower b), <- E, upper_lower; reflexivity).
      rewrite Hu, Ascii.eqb_refl.
      destruct (startswith_ci t r && boundary_ascii true (drop (String.length t) r));
        destruct (String.eqb (map_chars upper_char r) (map_chars upper_char t));
        congruence.
    + destruct (Ascii.eqb (upper_char b) (upper_char a)) eqn:Eu; [|reflexivity].
      apply Ascii.eqb_eq in Eu. unfold eqb_char in E. apply Ascii.eqb_neq in E.
      exfalso. apply E. rewrite <- (lower_upper a), <- Eu, lower_upper. reflexivity.
Qed.

Lemma tokens_at_word w l :
  all_chars is_word w = true -> Forall (fun t => upper_ascii t = t) l ->
  first_some (token_at_ascii w) l
  = if in_tuple (upper_ascii w) l then Some w else None.
Proof.
  intros Hw. induction 1 as [|t l Ht _ IH]; [reflexivity|].
  cbn [first_some in_tuple]. rewrite (token_at_word t w Hw), Ht.
  destruct (String.eqb (upper_ascii w) t); [reflexivity|exact IH].
Qed.

Lemma search_inside_word r :
  all_chars is_word r = true -> search_ascii position_pat_ascii true r = None.
Proof.
  induction r as [|c r IH]; [reflexivity|].
  simpl. intros H. apply andb_prop in H as [Hc Hr].
  unfold position_pat_ascii at 1. unfold boundary_ascii. cbn [head_is_word_ascii].
  rewrite Hc. cbn [xorb]. apply IH, Hr.
Qed.

Lemma in_tuple_In x l : in_tuple x l = true -> In x l.
Proof.
  induction l as [|y l IH]; [discriminate|]. simpl.
  destruct (String.eqb x y) eqn:E; [apply String.eqb_eq in E; auto|]. auto.
Qed.

Lemma all_tokens_upper : Forall (fun t => upper_ascii t = t) position_tokens.
Proof. apply List.Forall_forall. apply tokens_upper. Qed.

Lemma extract_position_word w :
  all_chars is_word w = true ->
  extract_position_ascii w
  = if in_tuple (upper_ascii w) position_tokens then token_code (upper_ascii w)
    else by_substring (upper_ascii w).
Proof.
  intros Hw. destruct w as [|c r]; [reflexivity|].
  unfold extract_position_ascii. cbn [truthy negb].
  rewrite (strip_word _ Hw). cbn [search_ascii].
  unfold position_pat_ascii at 1. unfold boundary_ascii at 1. cbn [head_is_word_ascii].
  pose proof Hw as Hw'. simpl in Hw'. apply andb_prop in Hw' as [Hc Hr].
  rewrite Hc. cbn [xorb].
  rewrite (tokens_at_word _ _ Hw all_tokens_upper).
  destruct (in_tuple (upper_ascii (String c r)) position_tokens) eqn:E.
  - apply classify_token, in_tuple_In, E.
  - rewrite (search_inside_word r Hr). reflexivity.
Qed.

(** X25: on ASCII text the position extractor ignores case, gives every
    declared token its code in upper and in lower case, and returns a
    canonical code or nothing.  Tokens are matched at word boundaries
    only: a text [w] of one word (letters, digits, underscores) gets the
    code of a token when the whole word is that token in any mix of
    cases, and is searched for the full words otherwise; and a token at a
    word boundary comes before the search inside words: in A keeper the
    lone A gives F although keeper follows. *)
Theorem extract_position_on_ascii (s w : string) :
  ascii_text s = true -> all_chars is_word w = true ->
  extract_position (upper s) = extract_position s
  /\ extract_position (lower s) = extract_position s
  /\ Forall (fun tc => extract_position (fst tc) = snd tc
                       /\ extract_position (lower (fst tc)) = snd tc) declared_tokens
  /\ canonical (extract_position s)
  /\ extract_position w
     = (if in_tuple (upper w) position_tokens then token_code (upper w)
        else by_substring (upper w))
  /\ extract_position "A keeper" = "F"
  /\ extract_position "Quarterback" = "D".
Proof.
  intros Hs Hw.
  assert (Hus : ascii_text (upper_ascii s) = true) by (rewrite ascii_upper; exact Hs).
  assert (Hls : ascii_text (lower_ascii s) = true) by (rewrite ascii_lower; exact Hs).
  split.
  { rewrite (upper_on_ascii s Hs), (extract_position_on_ascii_text _ Hus),
      (extract_position_on_ascii_text _ Hs). apply extract_position_upper. }
  split.
  { rewrite (lower_on_ascii s Hs), (extract_position_on_ascii_text _ Hls),
      (extract_position_on_ascii_text _ Hs). apply extract_position_lower. }
  split.
  { apply Forall_forall. intros [t c] Hin. apply list_elem_of_In in Hin.
    simpl in Hin.
    repeat (destruct Hin as [[= <- <-]|Hin]; [split; vm_compute; reflexivity|]).
    destruct Hin. }
  split.
  { rewrite (extract_position_on_ascii_text _ Hs). apply extract_position_canonical. }
  split.
  { pose proof (word_text_ascii w Hw) as Ha.
    rewrite (extract_position_on_ascii_text _ Ha), (upper_on_ascii w Ha).
    apply extract_position_word, Hw. }
  split; vm_compute; reflexivity.
Qed.

End PositionOnAscii.

Section PositionExamples.
Import PyStr FieldExtractors Html Scraper Shape Examples.

Lemma extract_position_on_ascii_witness :
  extract_position (upper "Goalie") = extract_position "Goalie"
  /\ extract_position (lower "Goalie") = extract_position "Goalie"
  /\ Forall (fun tc => extract_position (fst tc) = snd tc
                       /\ extract_position (lower (fst tc)) = snd tc) declared_tokens
  /\ canonical (extract_position "Goalie")
  /\ extract_position "Quarterback"
     = (if in_tuple (upper "Quarterback") position_tokens
        then token_code (upper "Quarterback")
        else by_substring (upper "Quarterback"))
  /\ extract_position "A keeper" = "F"
  /\ extract_position "Quarterback" = "D".
Proof. apply (extract_position_on_ascii "Goalie" "Quarterback"); reflexivity. Defined.

(** C2: the extractor returns a text outside its four codes.  Under
    [re.IGNORECASE] the capital I with dot above matches the I of MID, so
    the pattern finds the group M, I with dot above, D; [upper] leaves
    it as it is, none of the four tuples holds it, and [return pos]
    returns it.  The Kelvin sign does the same in GK.  A roster item
    with such a position field gives a record with that position. *)
Theorem extract_position_returns_raw_text :
  extract_position ("M" +:+ capital_i_dot +:+ "D") = "M" +:+ capital_i_dot +:+ "D"
  /\ ~ canonical (extract_position ("M" +:+ capital_i_dot +:+ "D"))
  /\ extract_position ("G" +:+ kelvin_sign) = "G" +:+ kelvin_sign
  /\ fst (_extract_players (session := site_session []) 1 "Team" "2025" "" false
            (page_of_items
               [item "Ann Lee" [field "Position" ("M" +:+ capital_i_dot +:+ "D")]])
            "https://example.edu/sports/field-hockey" start)
     = inr [new_player 1 "Team" "2025" "" "Ann Lee" ""
              ("M" +:+ capital_i_dot +:+ "D") "" "" "" "" ""].
Proof.
  split; [vm_compute; reflexivity|]. split.
  - unfold canonical. vm_compute. intros [H|[H|[H|[H|H]]]]; discriminate.
  - split; vm_compute; reflexivity.
Qed.

End PositionExamples.

(** ** C4: the alternatives of the roster URL *)

Section RetryChain.
Import PyStr FieldExtractors Html Scraper Shape.
Context {World : Type} {session : Session World}.
Variables (the_team_id : Z) (team_name the_season the_division : string).
Variable scrape_profiles : bool.

Local Abbreviation scrape_team :=
  (Scraper.scrape_team the_team_id team_name the_season the_division scrape_profiles).
Local Abbreviation scrape_page :=
  (Scraper.scrape_page the_team_id team_name the_season the_division scrape_profiles
     SeasonVerifier.verify_season_on_page).

Lemma get_url_format_cases team_id url :
  TeamConfig.get_url_format team_id url = "default"
  \/ TeamConfig.get_url_format team_id url = "fhockey".
Proof.
  unfold TeamConfig.get_url_format, TeamConfig.TEAM_CONFIGS, TeamConfig.config_of.
  repeat match goal with
         | |- context [if ?b then _ else _] => destruct b
         end; auto.
Qed.

Lemma build_roster_url_known team_id base_url season (st : St World) :
  build_roster_url base_url season (TeamConfig.get_url_format team_id base_url) st
  = (inr (rstrip_slash base_url +:+ "/roster/" +:+ season), st).
Proof.
  destruct (get_url_format_cases team_id base_url) as [-> | ->]; reflexivity.
Qed.

Lemma visit_base_returns base_url (st : St World) :
  visit_base base_url st = (inr tt, snd (visit_base base_url st)).
Proof.
  unfold visit_base, try_except, bind, get, ret.
  destruct (session_get _ (world st)) as [[e|sc body] w]; reflexivity.
Qed.

Lemma get_requests url (st st' : St World) r :
  get url st = (r, st') -> requests st' = (requests st ++ [url])%list.
Proof.
  unfold get. destruct (session_get url (world st)) as [[e|sc body] w];
    intros [= _ <-]; reflexivity.
Qed.

Lemma scrape_page_returns verify html base_url (st : St World) :
  exists players st',
    Scraper.scrape_page the_team_id team_name the_season the_division scrape_profiles
      verify html base_url st = (inr players, st').
Proof.
  assert (H : yields (World := World)
                (Scraper.scrape_page the_team_id team_name the_season the_division
                   scrape_profiles verify html base_url) all_extracted).
  { apply (post_bind _ _ (fun _ => True)).
    - intros st0. unfold check_season. destruct (negb _); exact I.
    - intros _ _. apply extract_players_extracted. }
  destruct (yields_run _ _ st H) as (players & st' & E & _). eauto.
Qed.

(** [scrape_team] from the state [st0] that the visit of the base domain
    leaves, given what the fetch of the roster does there. *)
Lemma scrape_team_after_fetch base_url (st : St World) response st1 :
  fetch_roster base_url (rstrip_slash base_url +:+ "/roster/" +:+ the_season)
    (snd (visit_base base_url st)) = (inr response, st1) ->
  scrape_team base_url st =
    (if negb (status_code response =? 200)%Z
     then (inr [], snd (warn (FailedToRetrieve team_name (status_code response)) st1))
     else scrape_page (content response) base_url st1).
Proof.
  intros Hf. unfold Scraper.scrape_team, scrape_team_with, try_except.
  unfold bind at 1. rewrite build_roster_url_known.
  unfold bind at 1. rewrite visit_base_returns.
  unfold bind at 1. rewrite Hf. unfold use_response.
  destruct (negb (status_code response =? 200)%Z); [reflexivity|].
  destruct (scrape_page_returns SeasonVerifier.verify_season_on_page
              (content response) base_url st1) as (players & st' & E).
  rewrite E. reflexivity.
Qed.

Lemma scrape_team_fetch_raises base_url (st : St World) e st1 :
  fetch_roster base_url (rstrip_slash base_url +:+ "/roster/" +:+ the_season)
    (snd (visit_base base_url st)) = (inl e, st1) ->
  fst (scrape_team base_url st) = inr [].
Proof.
  intros Hf. unfold Scraper.scrape_team, scrape_team_with, try_except.
  unfold bind at 1. rewrite build_roster_url_known.
  unfold bind at 1. rewrite visit_base_returns.
  unfold bind at 1. rewrite Hf. destruct e; reflexivity.
Qed.


Lemma bind_get_ok {A} url (k : HttpResponse -> M World A) (st st1 : St World) r :
  get url st = (inr r, st1) -> bind (get url) k st = k r st1.
Proof. intros H. unfold bind. rewrite H. reflexivity. Qed.

Lemma status_200 (r : HttpResponse) : status_code r = 200%Z -> (status_code r =? 200)%Z = true.
Proof. intros ->. reflexivity. Qed.

Lemma status_not_200 (r : HttpResponse) :
  status_code r <> 200%Z -> (status_code r =? 200)%Z = false.
Proof. intros H. apply Z.eqb_neq, H. Qed.

Lemma status_404 (r : HttpResponse) :
  status_code r = 404%Z ->
  (status_code r =? 404)%Z = true /\ (status_code r =? 200)%Z = false.
Proof. intros ->. split; reflexivity. Qed.

(** C4: when the roster URL with the season answers 404 the scraper asks
    for the roster without the season, and when that is not a 200 for the
    roster with the .aspx ending; the first 200 is the page that is
    scraped, and no further request is made for the roster; when the third
    request fails too (another status, or an exception) the team yields no
    record; in every case [scrape_team] returns without raising.  [st0] is
    the state after the visit of the base domain. *)
Theorem roster_retry_chain (base_url : string) (st : St World) :
  let st0 := snd (visit_base base_url st) in
  let url1 := rstrip_slash base_url +:+ "/roster/" +:+ the_season in
  let url2 := rstrip_slash base_url +:+ "/roster" in
  let url3 := rstrip_slash base_url +:+ "/roster.aspx" in
  (forall r1 st1 r2 st2 r3 st3,
      get url1 st0 = (inr r1, st1) -> status_code r1 = 404%Z ->
      get url2 st1 = (inr r2, st2) -> status_code r2 <> 200%Z ->
      get url3 st2 = (inr r3, st3) -> status_code r3 = 200%Z ->
      scrape_team base_url st = scrape_page (content r3) base_url st3
      /\ requests st3 = (requests st0 ++ [url1; url2; url3])%list)
  /\ (forall r1 st1 r2 st2,
        get url1 st0 = (inr r1, st1) -> status_code r1 = 404%Z ->
        get url2 st1 = (inr r2, st2) -> status_code r2 = 200%Z ->
        scrape_team base_url st = scrape_page (content r2) base_url st2
        /\ requests st2 = (requests st0 ++ [url1; url2])%list)
  /\ (forall r1 st1,
        get url1 st0 = (inr r1, st1) -> status_code r1 = 200%Z ->
        scrape_team base_url st = scrape_page (content r1) base_url st1
        /\ requests st1 = (requests st0 ++ [url1])%list)
  /\ (forall r1 st1 r2 st2 reply3 st3,
        get url1 st0 = (inr r1, st1) -> status_code r1 = 404%Z ->
        get url2 st1 = (inr r2, st2) -> status_code r2 <> 200%Z ->
        get url3 st2 = (reply3, st3) ->
        (forall r3, reply3 = inr r3 -> status_code r3 <> 200%Z) ->
        fst (scrape_team base_url st) = inr []
        /\ requests st3 = (requests st0 ++ [url1; url2; url3])%list)
  /\ (exists players st', scrape_team base_url st = (inr players, st')).
Proof.
  intros st0 url1 url2 url3.
  split; [|split; [|split; [|split]]].
  - intros r1 st1 r2 st2 r3 st3 H1 S1 H2 S2 H3 S3.
    split.
    + rewrite (scrape_team_after_fetch base_url st r3 st3).
      * rewrite (status_200 _ S3). reflexivity.
      * unfold fetch_roster. fold st0 url1.
        rewrite (bind_get_ok _ _ _ _ _ H1).
        rewrite (proj1 (status_404 _ S1)).
        fold url2. rewrite (bind_get_ok _ _ _ _ _ H2).
        rewrite (status_not_200 _ S2). fold url3. exact H3.
    + rewrite (get_requests _ _ _ _ H3), (get_requests _ _ _ _ H2),
        (get_requests _ _ _ _ H1), <- !app_assoc. reflexivity.
  - intros r1 st1 r2 st2 H1 S1 H2 S2.
    split.
    + rewrite (scrape_team_after_fetch base_url st r2 st2).
      * rewrite (status_200 _ S2). reflexivity.
      * unfold fetch_roster. fold st0 url1.
        rewrite (bind_get_ok _ _ _ _ _ H1).
        rewrite (proj1 (status_404 _ S1)).
        fold url2. rewrite (bind_get_ok _ _ _ _ _ H2).
        rewrite (status_200 _ S2). reflexivity.
    + rewrite (get_requests _ _ _ _ H2), (get_requests _ _ _ _ H1), <- !app_assoc.
      reflexivity.
  - intros r1 st1 H1 S1.
    split.
    + rewrite (scrape_team_after_fetch base_url st r1 st1).
      * rewrite (status_200 _ S1). reflexivity.
      * unfold fetch_roster. fold st0 url1.
        rewrite (bind_get_ok _ _ _ _ _ H1).
        rewrite S1. reflexivity.
    + apply (get_requests _ _ _ _ H1).
  - intros r1 st1 r2 st2 reply3 st3 H1 S1 H2 S2 H3 S3.
    split.
    + assert (Hf : fetch_roster base_url url1 st0 = (reply3, st3)).
      { unfold fetch_roster.
        rewrite (bind_get_ok _ _ _ _ _ H1).
        rewrite (proj1 (status_404 _ S1)).
        fold url2. rewrite (bind_get_ok _ _ _ _ _ H2).
        rewrite (status_not_200 _ S2). fold url3. exact H3. }
      destruct reply3 as [e|r3].
      * apply (scrape_team_fetch_raises base_url st e st3 Hf).
      * rewrite (scrape_team_after_fetch base_url st r3 st3 Hf).
        rewrite (status_not_200 _ (S3 r3 eq_refl)). reflexivity.
    + rewrite (get_requests _ _ _ _ H3), (get_requests _ _ _ _ H2),
        (get_requests _ _ _ _ H1), <- !app_assoc. reflexivity.
  - assert (H : yields (World := World) (scrape_team base_url) all_extracted).
    { apply scrape_team_with_yields; [apply all_extracted_nil|].
      intros html. apply extract_players_extracted. }
    destruct (yields_run _ _ st H) as (players & st' & E & _). eauto.
Qed.

End RetryChain.

Section RetryChainExamples.
Import Html Scraper Examples.

Lemma roster_retry_chain_witness :
  scrape_team (session := site_session third_time) 1 "Team" "2025" "" false base start
  = scrape_page (session := site_session third_time) 1 "Team" "2025" "" false
      SeasonVerifier.verify_season_on_page two_positions base
      (asked [ "https://example.edu";
               "https://example.edu/sports/field-hockey/roster/2025";
               "https://example.edu/sports/field-hockey/roster";
               "https://example.edu/sports/field-hockey/roster.aspx" ])
  /\ fst (scrape_team (session := site_session third_time) 1 "Team" "2025" "" false base
            start)
     = inr [new_player 1 "Team" "2025" "" "Ann Lee" "" "F" "" "" "" "" ""].
Proof.
  destruct (proj1 (roster_retry_chain (session := site_session third_time)
                     1 "Team" "2025" "" false base start)
              {| status_code := 404; content := page_of_items [] |}
              (asked [ "https://example.edu";
                       "https://example.edu/sports/field-hockey/roster/2025" ])
              {| status_code := 404; content := page_of_items [] |}
              (asked [ "https://example.edu";
                       "https://example.edu/sports/field-hockey/roster/2025";
                       "https://example.edu/sports/field-hockey/roster" ])
              {| status_code := 200; content := two_positions |}
              (asked [ "https://example.edu";
                       "https://example.edu/sports/field-hockey/roster/2025";
                       "https://example.edu/sports/field-hockey/roster";
                       "https://example.edu/sports/field-hockey/roster.aspx" ])
              eq_refl eq_refl eq_refl ltac:(discriminate) eq_refl eq_refl) as [E _].
  split; [exact E|]. rewrite E. reflexivity.
Defined.

(** Three answers 404: no record, no exception. *)
Example three_times_not_found :
  fst (scrape_team
         (session := site_session
            [ ("https://example.edu/sports/field-hockey/roster/2025", not_found);
              ("https://example.edu/sports/field-hockey/roster", not_found);
              ("https://example.edu/sports/field-hockey/roster.aspx", not_found) ])
         1 "Team" "2025" "" false base start) = inr [].
Proof. reflexivity. Qed.

End RetryChainExamples.

(** ** C3 and C6: the two shapes of the roster page *)

Section RosterPageExamples.
Import Html Scraper Examples.

(** C3: a table with its header in a thead and two players in its tbody
    gives one record, for the second player: the first row of the tbody is
    skipped as if it were the header.  The same rows without thead and
    tbody give both records. *)
Theorem table_with_thead_loses_first_player :
  fst (_extract_players (session := site_session []) 1 "Team" "2025" "" true
         (page_of_table head_and_body) base start)
  = inr [new_player 1 "Team" "2025" "" "Bea Roy" "" "D" "" "" "" "" ""]
  /\ fst (_extract_players (session := site_session []) 1 "Team" "2025" "" true
            (page_of_table plain_rows) base start)
     = inr [new_player 1 "Team" "2025" "" "Ann Lee" "" "F" "" "" "" "" "";
            new_player 1 "Team" "2025" "" "Bea Roy" "" "D" "" "" "" "" ""].
Proof. split; reflexivity. Qed.

(** C6: on the roster page a dash is stored like any other value: the
    class and the hometown of a roster item, the height and the class of a
    table row. *)
Theorem roster_page_stores_dashes :
  fst (_extract_players (session := site_session []) 1 "Team" "2025" "" true
         dashes base start)
  = inr [new_player 1 "Team" "2025" "" "Ann Lee" "" "" "" "-" "-" "" ""]
  /\ fst (_extract_players (session := site_session []) 1 "Team" "2025" "" true
            (page_of_table dashes_in_table) base start)
     = inr [new_player 1 "Team" "2025" "" "Ann Lee" "" "" "-" "-" "" "" ""].
Proof. split; reflexivity. Qed.

End RosterPageExamples.

Section NoData.
Import PyStr FieldExtractors Html Scraper.

(** On a profile page a dash and an empty value are skipped, whatever the
    rules and the record. *)
Lemma labelled_skips_no_data {T} (rule : string -> string -> T -> T) l v record :
  clean_text v = "" \/ clean_text v = "-" -> labelled rule l v record = record.
Proof. unfold labelled. intros [-> | ->]; reflexivity. Qed.

End NoData.

(** ** C7: when the enhancement tool fetches a profile *)

Section EnrichmentGuard.
Import PyStr FieldExtractors Html Scraper Shape.
Context {World : Type} {session : Session World}.

Lemma truthy_true s : truthy s = true <-> s <> "".
Proof. destruct s; simpl; split; congruence. Qed.

Lemma has_filled (row : Enhancer.Row) key : Enhancer.has row key = true <-> filled row key.
Proof.
  unfold Enhancer.has, Enhancer.row_get, filled.
  destruct (row !! key) as [[text|]|]; split;
    try discriminate; try (intros (v & [=] & _); fail).
  - intros H. exists text. split; [reflexivity|apply truthy_true, H].
  - intros (v & [= <-] & Hv). apply truthy_true, Hv.
Qed.

Lemma has_data_populated (row : Enhancer.Row) :
  Enhancer.has_data row = true <->
  filled row "position" \/ filled row "height" \/ filled row "class"
  \/ filled row "hometown".
Proof.
  unfold Enhancer.has_data. rewrite !orb_true_iff, !has_filled. tauto.
Qed.

Lemma enhancer_fetches url (row : Enhancer.Row) force (st : St World) :
  truthy url = true ->
  negb force && Enhancer.has_data row = false ->
  requests (snd (Enhancer.scrape_profile_at url row force st))
  = (requests st ++ [url])%list.
Proof.
  intros Hu Hg. unfold Enhancer.scrape_profile_at. rewrite Hu, Hg. simpl.
  unfold try_except, bind, get, warn, ret.
  destruct (session_get _ (world st)) as [[[m|m]|sc body] w]; simpl; try reflexivity.
  destruct (sc =? 200)%Z; reflexivity.
Qed.

(** X23: for a row whose url is a text, or that has no url at all, the
    tool returns the row as it is, without a request, when the url is
    empty (or blank), and when the row is populated and the force flag
    is off; a row is populated when its position, height, class or
    hometown is a text that is not empty.  With a url, a row that is not
    populated, or any row under the force flag, is fetched. *)
Theorem enrichment_guard (row : Enhancer.Row) (url : string) (force : bool)
    (st : St World) :
  Enhancer.row_get_or_empty row "url" = Some url ->
  (strip url = "" -> Enhancer.scrape_player_profile row force st = (inr row, st))
  /\ (force = false -> Enhancer.has_data row = true ->
      Enhancer.scrape_player_profile row force st = (inr row, st))
  /\ (strip url <> "" -> force = true \/ Enhancer.has_data row = false ->
      requests (snd (Enhancer.scrape_player_profile row force st))
      = (requests st ++ [strip url])%list)
  /\ (Enhancer.has_data row = true <->
      filled row "position" \/ filled row "height" \/ filled row "class"
      \/ filled row "hometown").
Proof.
  intros Hurl. unfold Enhancer.scrape_player_profile. rewrite Hurl.
  split; [|split; [|split]].
  - intros Hu. unfold Enhancer.scrape_profile_at. rewrite Hu. reflexivity.
  - intros -> Hd. unfold Enhancer.scrape_profile_at. rewrite Hd.
    destruct (truthy (strip url)); reflexivity.
  - intros Hu Hf. apply enhancer_fetches; [apply truthy_true, Hu|].
    destruct Hf as [-> | ->]; [reflexivity|apply andb_false_r].
  - apply has_data_populated.
Qed.

End EnrichmentGuard.

Section EnrichmentGuardExamples.
Import Html Scraper Examples EnhanceCsv.

Lemma enrichment_guard_witness :
  Enhancer.scrape_player_profile (session := site_session [])
    {[ "name" := Some "Ann Lee"; "url" := Some "" ]} true start
  = (inr {[ "name" := Some "Ann Lee"; "url" := Some "" ]}, start)
  /\ Enhancer.scrape_player_profile (session := site_session [])
       {[ "url" := Some "https://example.edu/roster/ann-lee"; "position" := Some "D" ]}
       false start
     = (inr {[ "url" := Some "https://example.edu/roster/ann-lee";
               "position" := Some "D" ]}, start)
  /\ requests (snd (Enhancer.scrape_player_profile (session := site_session [])
                      {[ "url" := Some "https://example.edu/roster/ann-lee";
                         "position" := Some "D" ]}
                      true start))
     = ["https://example.edu/roster/ann-lee"].
Proof.
  split; [|split].
  - refine (proj1 (enrichment_guard (session := site_session [])
                     {[ "name" := Some "Ann Lee"; "url" := Some "" ]} "" true start _) _);
      vm_compute; reflexivity.
  - refine (proj1 (proj2 (enrichment_guard (session := site_session [])
                            {[ "url" := Some "https://example.edu/roster/ann-lee";
                               "position" := Some "D" ]}
                            "https://example.edu/roster/ann-lee" false start _)) _ _);
      vm_compute; reflexivity.
  - etransitivity.
    + refine (proj1 (proj2 (proj2 (enrichment_guard (session := site_session [])
                              {[ "url" := Some "https://example.edu/roster/ann-lee";
                                 "position" := Some "D" ]}
                              "https://example.edu/roster/ann-lee" true start _))) _ _).
      * vm_compute. reflexivity.
      * vm_compute. discriminate.
      * left. reflexivity.
    + vm_compute. reflexivity.
Defined.

(** C7: the guard fails on a row that is shorter than the header.  For
    the header name, team, position, url and the record Ann Lee, Duke, D
    the reader gives a row whose url is [None]; the row is populated and
    the force flag is off, so the row should come back as it is, but
    [row.get('url', '').strip()] raises [AttributeError] before the
    [try], with the force flag and without it, and no request is made. *)
Theorem short_row_raises_before_the_guard :
  cells (read_row ["name"; "team"; "position"; "url"] ["Ann Lee"; "Duke"; "D"])
  = {[ "name" := Some "Ann Lee"; "team" := Some "Duke"; "position" := Some "D";
       "url" := None ]}
  /\ Enhancer.has_data
       (cells (read_row ["name"; "team"; "position"; "url"] ["Ann Lee"; "Duke"; "D"]))
     = true
  /\ Enhancer.scrape_player_profile (session := site_session [])
       (cells (read_row ["name"; "team"; "position"; "url"] ["Ann Lee"; "Duke"; "D"]))
       false start
     = (inl (OtherException "'NoneType' object has no attribute 'strip'"), start)
  /\ Enhancer.scrape_player_profile (session := site_session [])
       (cells (read_row ["name"; "team"; "position"; "url"] ["Ann Lee"; "Duke"; "D"]))
       true start
     = (inl (OtherException "'NoneType' object has no attribute 'strip'"), start).
Proof. repeat split; vm_compute; reflexivity. Qed.

End EnrichmentGuardExamples.

(** ** C5: the three reports *)

Section Reports.
Import PyStr Html Scraper RosterManager Shape.
Context {World : Type} {session : Session World}.

Lemma scrape_team_returns team_id team_name season division profiles base_url
    (st : St World) :
  exists players st',
    scrape_team team_id team_name season division profiles base_url st
    = (inr players, st').
Proof.
  assert (H : yields (World := World)
                (scrape_team team_id team_name season division profiles base_url)
                all_extracted).
  { apply scrape_team_with_yields; [apply all_extracted_nil|].
    intros html. apply extract_players_extracted. }
  destruct (yields_run _ _ st H) as (players & st' & E & _). eauto.
Qed.

Lemma zero_successful_length os :
  (length (zero_of os) + length (successful_of os))%nat = length os.
Proof.
  induction os as [|[t players] os IH]; simpl; [reflexivity|].
  destruct (length players =? 0)%nat; simpl; lia.
Qed.

Lemma outcomes_teams season profiles teams (st : St World) :
  map fst (outcomes season profiles teams st) = teams.
Proof.
  revert st; induction teams as [|t teams IH]; intros st; simpl; [reflexivity|].
  destruct (scrape_team _ _ _ _ _ _ st) as [result st1]. simpl. f_equal. apply IH.
Qed.

Lemma scrape_one_run (mgr : Manager) all_players t (st st1 : St World) players :
  scrape_team (t_ncaa_id t) (t_team t) (mgr_season mgr) "" (mgr_scrape_profiles mgr)
    (t_url t) st = (inr players, st1) ->
  scrape_one (mgr, all_players) t st
  = if (length players =? 0)%nat
    then (inr (add_zero {| z_team := t_team t; z_ncaa_id := t_ncaa_id t;
                           z_url := t_url t |} mgr, all_players),
          snd (warn ZeroPlayers st1))
    else (inr (add_successful {| s_team := t_team t; s_ncaa_id := t_ncaa_id t;
                                 s_player_count := length players |} mgr,
               (all_players ++ players)%list),
          st1).
Proof.
  intros E. unfold scrape_one, try_except. unfold bind at 1. rewrite E.
  destruct (length players =? 0)%nat; reflexivity.
Qed.

Lemma outcomes_cons season profiles t teams (st st1 : St World) players :
  scrape_team (t_ncaa_id t) (t_team t) season "" profiles (t_url t) st
  = (inr players, st1) ->
  outcomes season profiles (t :: teams) st
  = (t, players)
      :: outcomes season profiles teams
           (if (length players =? 0)%nat then snd (warn ZeroPlayers st1) else st1).
Proof. intros E. simpl. rewrite E. reflexivity. Qed.

(** The loop from any manager and any list of records so far. *)
Lemma scrape_loop teams : forall (mgr : Manager) (all_players : list Player) (st : St World),
  exists mgr' st',
    for_each scrape_one (mgr, all_players) teams st
    = (inr (mgr',
            (all_players
               ++ concat (map snd (outcomes (mgr_season mgr) (mgr_scrape_profiles mgr)
                                     teams st)))%list),
       st')
    /\ mgr_season mgr' = mgr_season mgr
    /\ mgr_scrape_profiles mgr' = mgr_scrape_profiles mgr
    /\ zero_player_teams mgr'
       = (zero_player_teams mgr
            ++ zero_of (outcomes (mgr_season mgr) (mgr_scrape_profiles mgr) teams st))%list
    /\ successful_teams mgr'
       = (successful_teams mgr
            ++ successful_of (outcomes (mgr_season mgr) (mgr_scrape_profiles mgr)
                                teams st))%list
    /\ failed_teams mgr' = failed_teams mgr.
Proof.
  induction teams as [|t teams IH]; intros mgr all_players st.
  - exists mgr, st. simpl. rewrite !app_nil_r. repeat split; reflexivity.
  - destruct (scrape_team_returns (t_ncaa_id t) (t_team t) (mgr_season mgr) ""
                (mgr_scrape_profiles mgr) (t_url t) st) as (players & st1 & E).
    rewrite (outcomes_cons _ _ _ _ _ _ _ E).
    change (for_each scrape_one (mgr, all_players) (t :: teams) st)
      with (bind (scrape_one (mgr, all_players) t)
              (fun acc' => for_each scrape_one acc' teams) st).
    unfold bind. rewrite (scrape_one_run _ _ _ _ _ _ E).
    destruct (length players =? 0)%nat eqn:Hlen.
    + destruct (IH (add_zero {| z_team := t_team t; z_ncaa_id := t_ncaa_id t;
                                z_url := t_url t |} mgr)
                  all_players (snd (warn ZeroPlayers st1)))
        as (mgr' & st' & Erun & Hs & Hp & Hz & Hsucc & Hf).
      exists mgr', st'. rewrite Erun.
      apply Nat.eqb_eq in Hlen. apply nil_length_inv in Hlen. subst players.
      cbn [map snd concat zero_of successful_of length Nat.eqb app].
      rewrite Hz. cbn [add_zero zero_player_teams]. rewrite <- app_assoc.
      repeat split; assumption.
    + destruct (IH (add_successful {| s_team := t_team t; s_ncaa_id := t_ncaa_id t;
                                      s_player_count := length players |} mgr)
                  (all_players ++ players)%list st1)
        as (mgr' & st' & Erun & Hs & Hp & Hz & Hsucc & Hf).
      exists mgr', st'. rewrite Erun.
      cbn [map snd concat zero_of successful_of]. rewrite Hlen.
      rewrite Hsucc. cbn [add_successful successful_teams]. rewrite <- !app_assoc.
      repeat split; assumption.
Qed.

(** X24: every team to scrape, in the order of the input, goes to exactly
    one of two reports: the zero-record report when [scrape_team] returns
    no record, the report of successes with the number of records
    otherwise.  The report of failures stays empty, because [scrape_team]
    never raises, and the run always reaches its end: its records are
    those of all teams, in order. *)
Theorem scrape_teams_reports (season : string) (profiles : bool) (teams : list Team)
    (max_teams : option Z) (st : St World) :
  exists mgr' all_players st',
    scrape_teams (init season profiles) teams max_teams st
    = (inr (mgr', all_players), st')
    /\ map fst (outcomes season profiles (teams_to_scrape teams max_teams) st)
       = teams_to_scrape teams max_teams
    /\ zero_player_teams mgr'
       = zero_of (outcomes season profiles (teams_to_scrape teams max_teams) st)
    /\ successful_teams mgr'
       = successful_of (outcomes season profiles (teams_to_scrape teams max_teams) st)
    /\ failed_teams mgr' = []
    /\ all_players
       = concat (map snd (outcomes season profiles (teams_to_scrape teams max_teams) st))
    /\ (length (zero_player_teams mgr') + length (successful_teams mgr'))%nat
       = length (teams_to_scrape teams max_teams).
Proof.
  destruct (scrape_loop (teams_to_scrape teams max_teams) (init season profiles) [] st)
    as (mgr' & st' & Erun & _ & _ & Hz & Hsucc & Hf).
  simpl in Erun, Hz, Hsucc, Hf.
  eexists mgr', _, st'. split; [exact Erun|].
  split; [apply outcomes_teams|].
  repeat split; try assumption.
  rewrite Hz, Hsucc, zero_successful_length.
  rewrite <- (outcomes_teams season profiles (teams_to_scrape teams max_teams) st) at 2.
  rewrite length_map. reflexivity.
Qed.

End Reports.

Section ReportsExamples.
Import Html Scraper RosterManager Examples.

(** C5: a team whose pass raises an error is not reported as failed.
    Every request of the session raises: the error is caught inside
    [scrape_team], which logs it and returns no record, so the team goes
    to the zero-record report and the report of failures, which
    [scrape_teams] fills in its own [except] branch, stays empty. *)
Theorem raised_error_is_reported_as_zero :
  scrape_teams (session := site_session []) (init "2025" true) [one_team] None start
  = (inr ({| mgr_season := "2025"; mgr_scrape_profiles := true;
             zero_player_teams :=
               [ {| z_team := "Team"; z_ncaa_id := 1;
                    z_url := "https://example.edu/sports/field-hockey" |} ];
             failed_teams := [];
             successful_teams := [] |}, []),
     {| world := tt;
        requests := [ "https://example.edu";
                      "https://example.edu/sports/field-hockey/roster/2025" ];
        log := [ RequestError "Team" (RequestException "unreachable"); ZeroPlayers ] |}).
Proof. reflexivity. Qed.

End ReportsExamples.

(** ** C10: the season check is advisory *)

Section Advisory.
Import PyStr FieldExtractors Html Scraper Shape.
Context {World : Type} {session : Session World}.

Lemma same_refl (st : St World) : same_but_log st st.
Proof. split; reflexivity. Qed.

Lemma sim_ret {A} (x : A) : sim (World := World) (ret x) (ret x).
Proof. intros st1 st2 H. split; [reflexivity|exact H]. Qed.

Lemma sim_bind {A B} (m1 m2 : M World A) (k1 k2 : A -> M World B) :
  sim m1 m2 -> (forall x, sim (k1 x) (k2 x)) -> sim (bind m1 k1) (bind m2 k2).
Proof.
  intros Hm Hk st1 st2 H. unfold bind.
  destruct (Hm st1 st2 H) as [Hr Hs].
  destruct (m1 st1) as [[e1|x1] st1'], (m2 st2) as [[e2|x2] st2']; simpl in Hr, Hs;
    try discriminate.
  - injection Hr as ->. split; [reflexivity|exact Hs].
  - injection Hr as ->. apply Hk, Hs.
Qed.

Lemma sim_try {A} (b1 b2 : M World A) h1 h2 :
  sim b1 b2 -> (forall e, sim (h1 e) (h2 e)) -> sim (try_except b1 h1) (try_except b2 h2).
Proof.
  intros Hb Hh st1 st2 H. unfold try_except.
  destruct (Hb st1 st2 H) as [Hr Hs].
  destruct (b1 st1) as [[e1|x1] st1'], (b2 st2) as [[e2|x2] st2']; simpl in Hr, Hs;
    try discriminate.
  - injection Hr as ->. apply Hh, Hs.
  - injection Hr as ->. split; [reflexivity|exact Hs].
Qed.

Lemma sim_warn r1 r2 : sim (World := World) (warn r1) (warn r2).
Proof. intros st1 st2 H. split; [reflexivity|exact H]. Qed.

Lemma sim_warn_l r : sim (World := World) (warn r) (ret tt).
Proof. intros st1 st2 H. split; [reflexivity|exact H]. Qed.

Lemma sim_warn_r r : sim (World := World) (ret tt) (warn r).
Proof. intros st1 st2 H. split; [reflexivity|exact H]. Qed.

Lemma sim_get url : sim (World := World) (get url) (get url).
Proof.
  intros [w1 q1 l1] [w2 q2 l2] [Hw Hq]. simpl in Hw, Hq. subst w2 q2.
  unfold get. simpl. destruct (session_get url w1) as [[e|sc body] w]; simpl;
    split; try reflexivity; split; reflexivity.
Qed.

Lemma sim_for_each {A B} (body : B -> A -> M World B) l :
  (forall acc x, sim (body acc x) (body acc x)) ->
  forall acc, sim (for_each body acc l) (for_each body acc l).
Proof.
  intros Hb. induction l as [|x l IH]; intros acc; simpl; [apply sim_ret|].
  apply sim_bind; [apply Hb|]. intros acc'. apply IH.
Qed.

Lemma sim_warn_then {A} r (x : A) :
  sim (World := World) (bind (warn r) (fun _ => ret x)) (bind (warn r) (fun _ => ret x)).
Proof. apply sim_bind; [apply sim_warn|]. intros _. apply sim_ret. Qed.

Lemma sim_scrape_player_profile p :
  sim (World := World) (_scrape_player_profile p) (_scrape_player_profile p).
Proof.
  unfold _scrape_player_profile. destruct (negb (truthy (url p))); [apply sim_ret|].
  apply sim_try.
  - apply sim_bind; [apply sim_get|]. intros response.
    destruct (negb (status_code response =? 200)%Z);
      [apply sim_warn_then|apply sim_ret].
  - intros e. destruct e; apply sim_warn_then.
Qed.

Variables (the_team_id : Z) (team_name the_season the_division : string).
Variable scrape_profiles : bool.

Lemma sim_enrich_and_append players player :
  sim (World := World) (enrich_and_append scrape_profiles players player)
    (enrich_and_append scrape_profiles players player).
Proof.
  unfold enrich_and_append. apply sim_bind.
  - destruct (scrape_profiles && truthy (url player));
      [apply sim_scrape_player_profile|apply sim_ret].
  - intros q. apply sim_ret.
Qed.

Lemma sim_roster_item domain players item :
  sim (World := World)
    (roster_item the_team_id team_name the_season the_division scrape_profiles
       domain players item)
    (roster_item the_team_id team_name the_season the_division scrape_profiles
       domain players item).
Proof.
  unfold roster_item. apply sim_try.
  - destruct (match match h3 item with Some e => Some e | None => h2 item end with
              | Some e => name_and_url domain e
              | None => ("", "")
              end) as [nm u].
    apply sim_enrich_and_append.
  - intros e. apply sim_warn_then.
Qed.

Lemma sim_table_row domain idx players cols :
  sim (World := World)
    (table_row the_team_id team_name the_season the_division scrape_profiles
       domain idx players cols)
    (table_row the_team_id team_name the_season the_division scrape_profiles
       domain idx players cols).
Proof.
  unfold table_row. destruct (length cols <? 2)%nat; [apply sim_ret|].
  apply sim_try; [apply sim_enrich_and_append|]. intros e. apply sim_warn_then.
Qed.

Lemma sim_extract_players_from_table html base_url :
  sim (World := World)
    (_extract_players_from_table the_team_id team_name the_season the_division
       scrape_profiles html base_url)
    (_extract_players_from_table the_team_id team_name the_season the_division
       scrape_profiles html base_url).
Proof.
  unfold _extract_players_from_table.
  destruct (match find_sidearm_table (tables html) with
            | Some t => Some t
            | None => find_table (tables html)
            end) as [table|]; [|apply sim_warn_then].
  destruct (match thead table with
            | Some rows => Some (concat rows)
            | None => head (all_rows table)
            end) as [header_cells|]; [|apply sim_warn_then].
  apply sim_for_each. intros acc x. apply sim_table_row.
Qed.

Lemma sim_extract_players html base_url :
  sim (World := World)
    (_extract_players the_team_id team_name the_season the_division
       scrape_profiles html base_url)
    (_extract_players the_team_id team_name the_season the_division
       scrape_profiles html base_url).
Proof.
  unfold _extract_players. destruct (roster_items html) as [|item items].
  - apply sim_bind; [apply sim_warn|]. intros _. apply sim_extract_players_from_table.
  - apply sim_for_each. intros acc x. apply sim_roster_item.
Qed.

Lemma sim_check_season verify1 verify2 html :
  sim (World := World) (check_season team_name the_season verify1 html)
    (check_season team_name the_season verify2 html).
Proof.
  unfold check_season.
  destruct (negb (verify1 html the_season)), (negb (verify2 html the_season));
    [apply sim_warn|apply sim_warn_l|apply sim_warn_r|apply sim_ret].
Qed.

Lemma sim_fetch_roster base_url roster_url :
  sim (World := World) (fetch_roster base_url roster_url)
    (fetch_roster base_url roster_url).
Proof.
  unfold fetch_roster. apply sim_bind; [apply sim_get|]. intros response.
  destruct (status_code response =? 404)%Z; [|apply sim_ret].
  apply sim_bind; [apply sim_get|]. intros response2.
  destruct (status_code response2 =? 200)%Z; [apply sim_ret|apply sim_get].
Qed.

Lemma sim_scrape_team verify1 verify2 base_url :
  sim (World := World)
    (scrape_team_with the_team_id team_name the_season the_division scrape_profiles
       verify1 base_url)
    (scrape_team_with the_team_id team_name the_season the_division scrape_profiles
       verify2 base_url).
Proof.
  unfold scrape_team_with. apply sim_try.
  - apply sim_bind.
    { unfold build_roster_url.
      destruct (String.eqb _ "default"); [apply sim_ret|].
      destruct (String.eqb _ "fhockey"); [apply sim_ret|apply sim_warn_then]. }
    intros roster_url. apply sim_bind.
    { unfold visit_base. apply sim_try; [|intros e; apply sim_ret].
      apply sim_bind; [apply sim_get|]. intros _. apply sim_ret. }
    intros _. apply sim_bind; [apply sim_fetch_roster|]. intros response.
    unfold use_response.
    destruct (negb (status_code response =? 200)%Z); [apply sim_warn_then|].
    unfold scrape_page. apply sim_bind; [apply sim_check_season|].
    intros _. apply sim_extract_players.
  - intros e. unfold on_error. destruct e; apply sim_warn_then.
Qed.

(** C10: whatever the season check answers, [scrape_team] returns the same
    records and makes the same requests; the check itself returns after at
    most one warning in the log; and the check of the source holds exactly
    when the season, or the range built from it, occurs in the text of the
    page. *)
Theorem season_check_is_advisory
    (verify1 verify2 : Page -> string -> bool) (base_url : string) (html : Page)
    (st : St World) :
  fst (scrape_team_with the_team_id team_name the_season the_division scrape_profiles
         verify1 base_url st)
  = fst (scrape_team_with the_team_id team_name the_season the_division scrape_profiles
           verify2 base_url st)
  /\ same_but_log
       (snd (scrape_team_with the_team_id team_name the_season the_division
               scrape_profiles verify1 base_url st))
       (snd (scrape_team_with the_team_id team_name the_season the_division
               scrape_profiles verify2 base_url st))
  /\ check_season team_name the_season verify1 html st
     = (inr tt,
        {| world := world st; requests := requests st;
           log := (log st ++ (if verify1 html the_season then []
                              else [SeasonMismatch team_name]))%list |})
  /\ (SeasonVerifier.verify_season_on_page html the_season = true <->
      contains the_season (page_text html) = true
      \/ exists year, SeasonVerifier.py_int the_season = Some year
                      /\ contains (SeasonVerifier.season_range year) (page_text html)
                         = true).
Proof.
  destruct (sim_scrape_team verify1 verify2 base_url st st (same_refl st)) as [Hr Hs].
  split; [exact Hr|]. split; [exact Hs|]. split.
  - unfold check_season, warn, ret. destruct (verify1 html the_season); simpl.
    + rewrite app_nil_r. destruct st; reflexivity.
    + reflexivity.
  - unfold SeasonVerifier.verify_season_on_page.
    destruct (contains the_season (page_text html)); [tauto|].
    destruct (SeasonVerifier.py_int the_season) as [year|].
    + destruct (contains (SeasonVerifier.season_range year) (page_text html)) eqn:E.
      * split; [|reflexivity]. intros _. right. exists year. tauto.
      * split; [discriminate|]. intros [H|[y [[= <-] H]]]; congruence.
    + split; [discriminate|]. intros [H|[y [H _]]]; discriminate.
Qed.

End Advisory.

Section AdvisoryExamples.
Import Html Examples.

(** The season itself, the range of the academic year, and neither. *)
Example season_on_page :
  SeasonVerifier.verify_season_on_page (page_of_items []) "2025" = true
  /\ SeasonVerifier.verify_season_on_page
       {| page_text := "Roster 2024-26"; roster_items := []; tables := [];
          bio_section := None; dl_section := None |} "2025" = true
  /\ SeasonVerifier.verify_season_on_page
       {| page_text := "Roster 2024-25"; roster_items := []; tables := [];
          bio_section := None; dl_section := None |} "2025" = false.
Proof. repeat split; reflexivity. Qed.

End AdvisoryExamples.

(* ===================================================================== *)
(** * Further properties of the code *)
(* ===================================================================== *)

(** ** The field extractors *)

Section AcademicYear.
Import PyStr FieldExtractors.

Lemma dict_get_cases d key default :
  dict_get d key default = default \/ In (dict_get d key default) (map snd d).
Proof.
  induction d as [|[k v] d IH]; simpl; [tauto|].
  destruct (String.eqb k key); tauto.
Qed.

Lemma year_names_fixed v : In v (map snd year_map) -> normalize_academic_year v = v.
Proof.
  intros H. simpl in H.
  repeat (destruct H as [<-|H]; [reflexivity|]). destruct H.
Qed.

Lemma year_names_truthy v : In v (map snd year_map) -> truthy v = true.
Proof.
  intros H. simpl in H.
  repeat (destruct H as [<-|H]; [reflexivity|]). destruct H.
Qed.

(** X1: normalising an academic year twice is normalising it once, and
    the result is empty for the empty text only. *)
Theorem normalize_academic_year_idempotent (year_text : string) :
  normalize_academic_year (normalize_academic_year year_text)
  = normalize_academic_year year_text
  /\ truthy (normalize_academic_year year_text) = truthy year_text.
Proof.
  assert (H : normalize_academic_year year_text = year_text
              \/ (truthy year_text = true
                  /\ In (normalize_academic_year year_text) (map snd year_map))).
  { unfold normalize_academic_year. destruct year_text as [|c r]; [left; reflexivity|].
    simpl negb. cbv iota.
    destruct (dict_get_cases year_map (String c r) (String c r)) as [-> | Hin];
      [left; reflexivity|right; split; [reflexivity|exact Hin]]. }
  destruct H as [H | [Ht Hin]]; [rewrite !H; split; reflexivity|].
  split; [apply year_names_fixed, Hin|].
  rewrite Ht. apply year_names_truthy, Hin.
Qed.

End AcademicYear.

Section Jersey.
Import PyStr FieldExtractors Shape.

Lemma span_fst_all ok s : all_chars ok (fst (span ok s)) = true.
Proof.
  induction s as [|c r IH]; simpl; [reflexivity|].
  destruct (ok c) eqn:Hc; [|reflexivity].
  destruct (span ok r) as [d t]. simpl in *. rewrite Hc. exact IH.
Qed.

Lemma digits1_digits s d t : digits1 s = Some (d, t) -> all_chars is_digit d = true.
Proof.
  unfold digits1, many1. pose proof (span_fst_all is_digit s) as H.
  destruct (span is_digit s) as [d' t']. simpl in H.
  destruct (truthy d'); [|discriminate]. intros [= <- _]. exact H.
Qed.

Lemma digits12_digits s d t : digits12 s = Some (d, t) -> all_chars is_digit d = true.
Proof.
  unfold digits12. pose proof (span_fst_all is_digit s) as H.
  destruct (span is_digit s) as [d' t']. simpl in H.
  destruct (_ && _); [|discriminate]. intros [= <- _]. exact H.
Qed.

Lemma digits12_b_digits s d : digits12_b s = Some d -> all_chars is_digit d = true.
Proof.
  unfold digits12_b. destruct (digits12 s) as [[d' t]|] eqn:E; [|discriminate].
  destruct (boundary true t); [|discriminate]. intros [= <-].
  apply (digits12_digits _ _ _ E).
Qed.

Lemma jersey_pat1_digits b s d : jersey_pat1 b s = Some d -> all_chars is_digit d = true.
Proof.
  unfold jersey_pat1. destruct (seq _ _ s) as [[m r]|]; [|discriminate].
  destruct (digits1 r) as [[d' t]|] eqn:E; [|discriminate]. intros [= <-].
  apply (digits1_digits _ _ _ E).
Qed.

Lemma jersey_pat2_digits b s d : jersey_pat2 b s = Some d -> all_chars is_digit d = true.
Proof.
  unfold jersey_pat2. destruct (lit "#" s) as [[m r]|]; [|discriminate].
  apply digits12_b_digits.
Qed.

Lemma jersey_pat3_digits b s d : jersey_pat3 b s = Some d -> all_chars is_digit d = true.
Proof.
  unfold jersey_pat3. destruct (seq _ _ s) as [[m r]|]; [|discriminate].
  apply digits12_b_digits.
Qed.

Lemma jersey_pat4_digits b s d : jersey_pat4 b s = Some d -> all_chars is_digit d = true.
Proof.
  unfold jersey_pat4. destruct (boundary b s); [|discriminate].
  destruct (digits12 s) as [[d' t]|] eqn:E; [|discriminate].
  destruct (spaces1 t) as [[w [|c r]]|]; try discriminate.
  destruct (is_upper c); [|discriminate]. intros [= <-].
  apply (digits12_digits _ _ _ E).
Qed.

Lemma jersey_pat5_digits s d : jersey_pat5 s = Some d -> all_chars is_digit d = true.
Proof.
  unfold jersey_pat5. destruct (digits12 _) as [[d' t]|] eqn:E; [|discriminate].
  destruct (snd (span is_space t)); [|discriminate]. intros [= <-].
  apply (digits12_digits _ _ _ E).
Qed.

Lemma search_at_found {A} (m : bool -> string -> option A) (P : A -> Prop) :
  (forall b s g, m b s = Some g -> P g) ->
  forall s skip b g, search_at m skip b s = Some g -> P g.
Proof.
  intros Hm. induction s as [|c r IH]; intros skip b g.
  - destruct skip; cbn [search_at]; [|discriminate].
    destruct (m b "") eqn:E; [|discriminate]. intros [= <-]. apply (Hm _ _ _ E).
  - destruct skip as [|skip]; cbn [search_at]; [|apply IH].
    destruct (m b (String c r)) eqn:E.
    + intros [= <-]. apply (Hm _ _ _ E).
    + destruct (letter_at (String c r)); apply IH.
Qed.

Lemma search_found {A} (m : bool -> string -> option A) (P : A -> Prop) :
  (forall b s g, m b s = Some g -> P g) ->
  forall b s g, search m b s = Some g -> P g.
Proof. intros Hm b s g. unfold search. apply (search_at_found m P Hm). Qed.

(** X2: whatever the text, the jersey number extracted from it is made of
    digits only (or is empty). *)
Theorem extract_jersey_number_digits (text : string) :
  all_chars is_digit (extract_jersey_number text) = true.
Proof.
  unfold extract_jersey_number. destruct (negb (truthy text)); [reflexivity|].
  cbn [first_some].
  destruct (search jersey_pat1 false text) as [g|] eqn:E1;
    [apply (search_found _ _ jersey_pat1_digits _ _ _ E1)|].
  destruct (search jersey_pat2 false text) as [g|] eqn:E2;
    [apply (search_found _ _ jersey_pat2_digits _ _ _ E2)|].
  destruct (search jersey_pat3 false text) as [g|] eqn:E3;
    [apply (search_found _ _ jersey_pat3_digits _ _ _ E3)|].
  destruct (search jersey_pat4 false text) as [g|] eqn:E4;
    [apply (search_found _ _ jersey_pat4_digits _ _ _ E4)|].
  destruct (jersey_pat5 text) as [g|] eqn:E5; [|reflexivity].
  apply (jersey_pat5_digits _ _ E5).
Qed.

End Jersey.

Section JerseyCell.
Import PyStr FieldExtractors Shape.

Lemma digit_chars c :
  is_digit c = true ->
  eqb_char "J" c = false /\ eqb_char "#" c = false /\ eqb_char "N" c = false
  /\ is_space c = false.
Proof.
  destruct c as [[] [] [] [] [] [] [] []]; intros H; vm_compute in H;
    try discriminate; repeat split; reflexivity.
Qed.

Lemma all_digits_tail c r :
  all_chars is_digit (String c r) = true ->
  is_digit c = true /\ all_chars is_digit r = true.
Proof. simpl. intros H. apply andb_prop in H. exact H. Qed.

Lemma lit_head p0 p c r :
  eqb_char p0 c = false -> lit (String p0 p) (String c r) = None.
Proof. intros H. unfold lit. cbn [startswith]. rewrite H. reflexivity. Qed.

Lemma jersey_pat1_on_digits b s : all_chars is_digit s = true -> jersey_pat1 b s = None.
Proof.
  destruct s as [|c r]; [reflexivity|]. intros H.
  apply all_digits_tail in H as [Hc _]. apply digit_chars in Hc as (HJ & _).
  unfold jersey_pat1, seq. rewrite (lit_head _ _ _ _ HJ). reflexivity.
Qed.

Lemma jersey_pat2_on_digits b s : all_chars is_digit s = true -> jersey_pat2 b s = None.
Proof.
  destruct s as [|c r]; [reflexivity|]. intros H.
  apply all_digits_tail in H as [Hc _]. apply digit_chars in Hc as (_ & Hh & _).
  unfold jersey_pat2. rewrite (lit_head _ _ _ _ Hh). reflexivity.
Qed.

Lemma jersey_pat3_on_digits b s : all_chars is_digit s = true -> jersey_pat3 b s = None.
Proof.
  destruct s as [|c r]; [reflexivity|]. intros H.
  apply all_digits_tail in H as [Hc _]. apply digit_chars in Hc as (_ & _ & HN & _).
  unfold jersey_pat3, seq. rewrite (lit_head _ _ _ _ HN). reflexivity.
Qed.

Lemma jersey_pat4_on_digits b s : all_chars is_digit s = true -> jersey_pat4 b s = None.
Proof.
  intros H. unfold jersey_pat4, digits12. rewrite (span_all _ _ H).
  destruct (boundary b s); [|reflexivity].
  destruct (_ && _); reflexivity.
Qed.

Lemma digit_is_ascii c : is_digit c = true -> ascii_char c = true.
Proof.
  destruct c as [[] [] [] [] [] [] [] []]; simpl; intros H; try reflexivity;
    discriminate.
Qed.

Lemma search_on_digits {A} (m : bool -> string -> option A) :
  (forall b s, all_chars is_digit s = true -> m b s = None) ->
  forall s b, all_chars is_digit s = true -> search m b s = None.
Proof.
  intros Hm. unfold search. induction s as [|c r IH]; intros b H; cbn [search_at].
  - rewrite (Hm b "" H). reflexivity.
  - rewrite (Hm b _ H). apply all_digits_tail in H as [Hc Hr].
    rewrite (letter_at_ascii c r (digit_is_ascii c Hc)). apply IH, Hr.
Qed.

Lemma span_space_on_digits s :
  all_chars is_digit s = true -> span is_space s = ("", s).
Proof.
  destruct s as [|c r]; [reflexivity|]. intros H.
  apply all_digits_tail in H as [Hc _]. apply digit_chars in Hc as (_ & _ & _ & Hs).
  simpl. rewrite Hs. reflexivity.
Qed.

(** X3: a text made of digits only is its own jersey number when it has
    one or two digits, and has no jersey number when it has more. *)
Theorem extract_jersey_number_bare (digits : string) :
  all_chars is_digit digits = true ->
  extract_jersey_number digits
  = if (1 <=? String.length digits)%nat && (String.length digits <=? 2)%nat
    then digits else "".
Proof.
  intros H. unfold extract_jersey_number.
  destruct digits as [|c r]; [reflexivity|].
  simpl negb. cbv iota. cbn [first_some].
  rewrite (search_on_digits _ jersey_pat1_on_digits _ _ H).
  rewrite (search_on_digits _ jersey_pat2_on_digits _ _ H).
  rewrite (search_on_digits _ jersey_pat3_on_digits _ _ H).
  rewrite (search_on_digits _ jersey_pat4_on_digits _ _ H).
  unfold jersey_pat5. rewrite (span_space_on_digits _ H).
  unfold digits12. cbn [snd]. rewrite (span_all _ _ H).
  destruct (_ && _); reflexivity.
Qed.

Lemma extract_jersey_number_bare_witness :
  extract_jersey_number "12" = "12".
Proof. exact (extract_jersey_number_bare "12" eq_refl). Defined.

End JerseyCell.

Section Height.
Import PyStr FieldExtractors Derived.

Lemma group_of_seq_opt_none p q b s :
  group_of (seq p (opt q)) b s = None -> group_of p b s = None.
Proof.
  unfold group_of, seq, opt. destruct (p s) as [[a r]|]; [|reflexivity].
  destruct (q r) as [[x y]|]; discriminate.
Qed.

Lemma search_at_none_mono {A B} (m1 : bool -> string -> option A)
    (m2 : bool -> string -> option B) :
  (forall b s, m1 b s = None -> m2 b s = None) ->
  forall s skip b, search_at m1 skip b s = None -> search_at m2 skip b s = None.
Proof.
  intros Hm. induction s as [|c r IH]; intros skip b.
  - destruct skip; cbn [search_at]; [|reflexivity].
    destruct (m1 b "") eqn:E; [discriminate|]. rewrite (Hm _ _ E). reflexivity.
  - destruct skip as [|skip]; cbn [search_at]; [|apply IH].
    destruct (m1 b (String c r)) eqn:E; [discriminate|]. rewrite (Hm _ _ E).
    destruct (letter_at (String c r)); apply IH.
Qed.

Lemma search_none_mono {A B} (m1 : bool -> string -> option A)
    (m2 : bool -> string -> option B) :
  (forall b s, m1 b s = None -> m2 b s = None) ->
  forall s b, search m1 b s = None -> search m2 b s = None.
Proof. intros Hm s b. unfold search. apply (search_at_none_mono m1 m2 Hm). Qed.

(** X4: the second pattern of [extract_height] (feet and inches alone)
    never decides the result: whenever it matches, the first pattern (feet
    and inches with an optional metric part) has matched before it. *)
Theorem extract_height_second_pattern_unused (text : string) :
  extract_height text = extract_height_without_second text.
Proof.
  unfold extract_height, extract_height_without_second.
  destruct (negb (truthy text)); [reflexivity|]. cbn [first_some].
  destruct (search (group_of (seq imperial (opt metric_tail))) false text) as [g|] eqn:E;
    [reflexivity|].
  rewrite (search_none_mono _ _ (group_of_seq_opt_none imperial metric_tail) _ _ E).
  reflexivity.
Qed.

End Height.

Section HometownRoundTrip.
Import PyStr FieldExtractors Shape Derived.

Lemma split_slash_app h rest :
  all_chars no_slash h = true ->
  split_slash (h +:+ String "/" rest) = Some (h, rest).
Proof.
  induction h as [|c r IH]; simpl; [reflexivity|].
  intros H. apply andb_prop in H as [Hc Hr]. unfold no_slash in Hc.
  apply negb_true_iff in Hc. rewrite Hc, (IH Hr). reflexivity.
Qed.

Lemma all_chars_app ok a b :
  all_chars ok a = true -> all_chars ok b = true -> all_chars ok (a +:+ b) = true.
Proof.
  induction a as [|c r IH]; simpl; [auto|].
  intros H Hb. apply andb_prop in H as [Hc Hr]. rewrite Hc. apply (IH Hr Hb).
Qed.

Lemma app_assoc_string a b c : (a +:+ b) +:+ c = a +:+ (b +:+ c).
Proof.
  induction a as [|x a IH]; [reflexivity|].
  change (String x ((a +:+ b) +:+ c) = String x (a +:+ (b +:+ c))).
  rewrite IH. reflexivity.
Qed.

Lemma rstrip_app_blank s : rstrip (s +:+ " ") = rstrip s.
Proof.
  induction s as [|c r IH]; [reflexivity|].
  change (String c r +:+ " ") with (String c (r +:+ " ")).
  cbn [rstrip]. rewrite IH. reflexivity.
Qed.

Lemma strip_app_blank s : strip (s +:+ " ") = strip s.
Proof. unfold strip. rewrite <- !lstrip_rstrip, rstrip_app_blank. reflexivity. Qed.

Lemma strip_blank_cons s : strip (String " " s) = strip s.
Proof. reflexivity. Qed.

(** X5: a hometown and a high school joined by " / " are split back into
    the two, when both are trimmed and not empty, the hometown has no slash
    and the high school no line break. *)
Theorem extract_hometown_parts_join (hometown hs : string) :
  truthy hometown = true -> strip hometown = hometown ->
  all_chars no_slash hometown = true ->
  truthy hs = true -> strip hs = hs -> all_chars not_newline hs = true ->
  extract_hometown_parts (hometown +:+ " / " +:+ hs) = (hometown, hs).
Proof.
  intros Hh Sh Nh Hs Ss Ns.
  assert (E : hometown +:+ " / " +:+ hs
              = (hometown +:+ " ") +:+ String "/" (String " " hs)).
  { rewrite app_assoc_string. reflexivity. }
  unfold extract_hometown_parts, hometown_match.
  rewrite E, split_slash_app.
  - destruct hometown as [|c r]; [discriminate|].
    change (String c r +:+ " ") with (String c (r +:+ " ")).
    cbn [String.append truthy negb].
    destruct (lazy_head_total c (r +:+ " ")) as [g1 Hg1]. rewrite Hg1.
    destruct (ws_then_run_line not_newline " " hs) as [g2 [Hg2 Hs2]].
    { simpl. exact Ns. }
    rewrite Hg2, Hs2, (lazy_head_strip _ _ Hg1).
    change (String c (r +:+ " ")) with (String c r +:+ " ").
    rewrite strip_app_blank, strip_blank_cons, Sh, Ss. reflexivity.
  - apply all_chars_app; [exact Nh|reflexivity].
Qed.

Lemma extract_hometown_parts_join_witness :
  extract_hometown_parts "Dover, NH / St. Paul's" = ("Dover, NH", "St. Paul's").
Proof.
  exact (extract_hometown_parts_join "Dover, NH" "St. Paul's"
           eq_refl eq_refl eq_refl eq_refl eq_refl eq_refl).
Defined.

End HometownRoundTrip.

(** ** The records of a roster page *)

Section PageRecords.
Import PyStr FieldExtractors Html Scraper Shape Derived.

Ltac pick_rule :=
  repeat match goal with
         | |- context [contains ?a ?b] => generalize (contains a b); intros ?
         end;
  repeat match goal with
         | |- context [let '(_, _) := ?x in _] => destruct x
         end;
  repeat match goal with
         | |- context [if ?b then _ else _] => destruct b
         end.

Lemma untouched_refl p : untouched p p.
Proof. unfold untouched. tauto. Qed.

Lemma untouched_trans p q r : untouched p q -> untouched q r -> untouched p r.
Proof. unfold untouched. intros (A & B & C) (D & E & F). repeat split; congruence. Qed.

Lemma bio_rule_untouched label value p : untouched p (bio_rule label value p).
Proof. unfold bio_rule, untouched. pick_rule; repeat split; reflexivity. Qed.

Lemma detail_rule_untouched label value p : untouched p (detail_rule label value p).
Proof. unfold detail_rule, untouched. pick_rule; repeat split; reflexivity. Qed.

Lemma enriched_refl p : enriched p p.
Proof. split; [apply keeps_refl|apply untouched_refl]. Qed.

Lemma enriched_trans p q r : enriched p q -> enriched q r -> enriched p r.
Proof.
  intros [K1 U1] [K2 U2].
  split; [apply (keeps_trans _ _ _ K1 K2)|apply (untouched_trans _ _ _ U1 U2)].
Qed.

Lemma profile_fill_enriched html p : enriched p (profile_fill html p).
Proof.
  split; [apply profile_fill_keeps|].
  apply (walk_profile_rel bio_rule detail_rule untouched);
    eauto using untouched_refl, untouched_trans, bio_rule_untouched,
      detail_rule_untouched.
Qed.

Context {World : Type} {session : Session World}.
Variables (the_team_id : Z) (team_name the_season the_division : string).
Variable scrape_profiles : bool.

Lemma roster_item_unfold domain players item :
  roster_item the_team_id team_name the_season the_division scrape_profiles
    domain players item
  = try_except
      (enrich_and_append (World := World) scrape_profiles players
         (item_player the_team_id team_name the_season the_division domain item))
      (fun e => bind (warn (ErrorParsing team_name e)) (fun _ => ret players)).
Proof.
  unfold roster_item, item_player.
  destruct (match match h3 item with Some e => Some e | None => h2 item end with
            | Some e => name_and_url domain e
            | None => ("", "")
            end) as [nm u].
  reflexivity.
Qed.

Lemma enrich_and_append_enriched done players player :
  Forall2 enriched done players ->
  yields (World := World) (enrich_and_append scrape_profiles players player)
    (Forall2 enriched (done ++ [player])).
Proof.
  intros Hd. unfold yields, enrich_and_append.
  apply (post_bind _ _ (enriched player)).
  - destruct (scrape_profiles && truthy (url player)); [|apply post_ret, enriched_refl].
    apply (scrape_player_profile_rel enriched);
      [apply enriched_refl|intros; apply profile_fill_enriched].
  - intros q Hq. apply post_ret. apply Forall2_app; [exact Hd|].
    constructor; [exact Hq|constructor].
Qed.

Lemma roster_items_enriched domain items : forall done players,
  Forall2 enriched done players ->
  yields (World := World)
    (for_each (roster_item the_team_id team_name the_season the_division
                 scrape_profiles domain) players items)
    (Forall2 enriched
       (done ++ map (item_player the_team_id team_name the_season the_division domain)
                  items)).
Proof.
  induction items as [|item items IH]; intros done players Hd.
  - simpl. rewrite app_nil_r. apply post_ret, Hd.
  - cbn [for_each map].
    apply (post_bind _ _
             (Forall2 enriched
                (done ++ [item_player the_team_id team_name the_season the_division
                            domain item]))).
    + rewrite roster_item_unfold.
      apply (post_try _ _ _ (fun _ => False)); [|intros e []].
      apply enrich_and_append_enriched, Hd.
    + intros players' Hp. specialize (IH _ _ Hp).
      rewrite <- app_assoc in IH. exact IH.
Qed.

Lemma table_rows_enriched domain idx rows : forall done players,
  Forall2 enriched done players ->
  yields (World := World)
    (for_each (table_row the_team_id team_name the_season the_division
                 scrape_profiles domain idx) players rows)
    (Forall2 enriched
       (done ++ map (row_player the_team_id team_name the_season the_division domain idx)
                  (rows_with_cells rows))).
Proof.
  induction rows as [|cols rows IH]; intros done players Hd.
  - simpl. rewrite app_nil_r. apply post_ret, Hd.
  - cbn [for_each rows_with_cells]. unfold table_row at 1.
    destruct (length cols <? 2)%nat.
    + apply (post_bind _ _ (Forall2 enriched done)); [apply post_ret, Hd|].
      intros players' Hp. apply IH, Hp.
    + cbn [map].
      apply (post_bind _ _
               (Forall2 enriched
                  (done ++ [row_player the_team_id team_name the_season the_division
                              domain idx cols]))).
      * apply (post_try _ _ _ (fun _ => False)); [|intros e []].
        apply enrich_and_append_enriched, Hd.
      * intros players' Hp. specialize (IH _ _ Hp).
        rewrite <- app_assoc in IH. exact IH.
Qed.

Lemma extract_players_enriched html base_url :
  yields (World := World)
    (_extract_players the_team_id team_name the_season the_division scrape_profiles
       html base_url)
    (Forall2 enriched
       (page_records the_team_id team_name the_season the_division html base_url)).
Proof.
  unfold yields, _extract_players, page_records.
  destruct (roster_items html) as [|item items].
  - apply (post_bind _ _ (fun _ => True)); [apply post_warn, I|]. intros _ _.
    unfold _extract_players_from_table, table_records.
    destruct (match find_sidearm_table (tables html) with
              | Some t => Some t
              | None => find_table (tables html)
              end) as [table|]; [|apply warn_then_ret; constructor].
    destruct (match thead table with
              | Some rows => Some (concat rows)
              | None => head (all_rows table)
              end) as [header_cells|]; [|apply warn_then_ret; constructor].
    exact (table_rows_enriched _ _ _ [] [] (List.Forall2_nil _)).
  - exact (roster_items_enriched _ (item :: items) [] [] (List.Forall2_nil _)).
Qed.

(** X6: the records that the extraction returns are, one for one and in
    the order of the page, the records read from the roster items or,
    when the page has no roster item, from the rows that the table loop
    visits: the rows after the first one of the tbody (of the whole
    table when it has no tbody) that have two cells or more.  Each
    record has some of its empty fields filled by the profile pass and
    nothing else changed, and the extraction never raises. *)
Theorem extract_players_one_per_item (html : Page) (base_url : string) (st : St World) :
  exists players st',
    _extract_players the_team_id team_name the_season the_division scrape_profiles
      html base_url st = (inr players, st')
    /\ Forall2 enriched
         (page_records the_team_id team_name the_season the_division html base_url)
         players
    /\ length players
       = length (page_records the_team_id team_name the_season the_division
                   html base_url).
Proof.
  destruct (yields_run _ _ st (extract_players_enriched html base_url))
    as (players & st' & E & H).
  exists players, st'. split; [exact E|]. split; [exact H|].
  symmetry. apply (Forall2_length _ _ _ H).
Qed.

End PageRecords.

Section WithoutProfiles.
Import PyStr FieldExtractors Html Scraper Shape Derived.
Context {World : Type} {session : Session World}.
Variables (the_team_id : Z) (team_name the_season the_division : string).

Lemma roster_items_off domain items : forall players (st : St World),
  for_each (roster_item the_team_id team_name the_season the_division false domain)
    players items st
  = (inr (players
            ++ map (item_player the_team_id team_name the_season the_division domain)
                 items)%list, st).
Proof.
  induction items as [|item items IH]; intros players st.
  - simpl. rewrite app_nil_r. reflexivity.
  - cbn [for_each map]. unfold bind at 1. rewrite roster_item_unfold.
    unfold try_except, enrich_and_append. cbn [andb]. unfold bind at 1, ret at 1 2.
    rewrite IH, <- app_assoc. reflexivity.
Qed.

Lemma table_rows_off domain idx rows : forall players (st : St World),
  for_each (table_row the_team_id team_name the_season the_division false domain idx)
    players rows st
  = (inr (players
            ++ map (row_player the_team_id team_name the_season the_division domain idx)
                 (rows_with_cells rows))%list, st).
Proof.
  induction rows as [|cols rows IH]; intros players st.
  - simpl. rewrite app_nil_r. reflexivity.
  - cbn [for_each rows_with_cells]. unfold bind at 1, table_row at 1.
    destruct (length cols <? 2)%nat.
    + unfold ret at 1. apply IH.
    + unfold try_except, enrich_and_append. cbn [andb]. unfold bind at 1, ret at 1 2.
      rewrite IH. cbn [map]. rewrite <- app_assoc. reflexivity.
Qed.

Lemma item_player_unfilled domain item :
  major (item_player the_team_id team_name the_season the_division domain item) = ""
  /\ previous_school (item_player the_team_id team_name the_season the_division
                        domain item) = "".
Proof.
  unfold item_player.
  destruct (match match h3 item with Some e => Some e | None => h2 item end with
            | Some e => name_and_url domain e
            | None => ("", "")
            end) as [nm u].
  split; reflexivity.
Qed.

Lemma row_player_unfilled domain idx cols :
  major (row_player the_team_id team_name the_season the_division domain idx cols) = ""
  /\ previous_school (row_player the_team_id team_name the_season the_division
                        domain idx cols) = "".
Proof.
  unfold row_player.
  destruct (match col (name_idx idx) cols with
            | Some name_cell => name_and_url domain name_cell
            | None => ("", "")
            end) as [nm u].
  destruct (match cell_text (hometown_idx idx) cols with
            | Some hometown_text =>
                let '(hometown, hs) := extract_hometown_parts hometown_text in
                (hometown, if truthy hs then hs else "")
            | None => ("", "")
            end) as [ht hs].
  split; reflexivity.
Qed.

Lemma page_records_unfilled html base_url :
  Forall (fun p => major p = "" /\ previous_school p = "")
    (page_records the_team_id team_name the_season the_division html base_url).
Proof.
  unfold page_records. destruct (roster_items html) as [|item items].
  - unfold table_records.
    destruct (match find_sidearm_table (tables html) with
              | Some t => Some t
              | None => find_table (tables html)
              end) as [table|]; [|constructor].
    destruct (match thead table with
              | Some rows => Some (concat rows)
              | None => head (all_rows table)
              end) as [header_cells|]; [|constructor].
    apply Forall_map, Forall_forall. intros cols _. apply row_player_unfilled.
  - apply Forall_map, Forall_forall. intros it _. apply item_player_unfilled.
Qed.

(** X7: with the profile pages switched off, the extraction makes no
    request and returns exactly the records read from the roster page, so
    that no record has a major or a previous school. *)
Theorem extract_players_without_profiles (html : Page) (base_url : string)
    (st : St World) :
  exists st',
    _extract_players the_team_id team_name the_season the_division false
      html base_url st
    = (inr (page_records the_team_id team_name the_season the_division html base_url),
       st')
    /\ world st' = world st /\ requests st' = requests st
    /\ Forall (fun p => major p = "" /\ previous_school p = "")
         (page_records the_team_id team_name the_season the_division html base_url).
Proof.
  cut (exists st',
          _extract_players the_team_id team_name the_season the_division false
            html base_url st
          = (inr (page_records the_team_id team_name the_season the_division
                    html base_url), st')
          /\ world st' = world st /\ requests st' = requests st).
  { intros (st' & A & B & C). exists st'. repeat split; try assumption.
    apply page_records_unfilled. }
  unfold _extract_players, page_records.
  destruct (roster_items html) as [|item items].
  - unfold bind, warn.
    unfold _extract_players_from_table, table_records.
    destruct (match find_sidearm_table (tables html) with
              | Some t => Some t
              | None => find_table (tables html)
              end) as [table|].
    + destruct (match thead table with
                | Some rows => Some (concat rows)
                | None => head (all_rows table)
                end) as [header_cells|].
      * rewrite table_rows_off. eexists. repeat split.
      * eexists. repeat split.
    + eexists. repeat split.
  - rewrite roster_items_off. exists st. repeat split.
Qed.

End WithoutProfiles.

Section RecordInvariants.
Import PyStr FieldExtractors Html Scraper Shape Derived.
Context {World : Type} {session : Session World}.
Variables (the_team_id : Z) (team_name the_season the_division : string).
Variable scrape_profiles : bool.

Lemma clean_text_clean s : clean_text (clean_text s) = clean_text s.
Proof.
  rewrite (clean_text_unfold (clean_text s)).
  rewrite (sub_ws_fixed false _ (clean_text_tidy s)).
  rewrite clean_text_unfold. apply strip_idem.
Qed.

Lemma Forall2_transfer (P : Player -> Prop) l l' :
  (forall p q, enriched p q -> P p -> P q) ->
  Forall2 enriched l l' -> Forall P l -> Forall P l'.
Proof.
  intros HP H. induction H as [|p q l l' Hpq _ IH]; intros Hl; [constructor|].
  inversion Hl; subst. constructor; [apply (HP p q Hpq)|apply IH]; assumption.
Qed.

(** A property of the records read from the page that the profile pass
    respects holds of every record that [scrape_team] returns. *)
Lemma scrape_team_all (P : Player -> Prop) base_url :
  (forall p q, enriched p q -> P p -> P q) ->
  (forall html,
      Forall P (page_records the_team_id team_name the_season the_division
                  html base_url)) ->
  yields (World := World)
    (scrape_team the_team_id team_name the_season the_division scrape_profiles base_url)
    (Forall P).
Proof.
  intros Hen Hpage. apply scrape_team_with_yields; [constructor|].
  intros html. eapply post_weaken; [apply extract_players_enriched| |tauto].
  intros players H. apply (Forall2_transfer P _ _ Hen H), Hpage.
Qed.

Lemma page_records_all (P : Player -> Prop) html base_url :
  (forall domain item,
      P (item_player the_team_id team_name the_season the_division domain item)) ->
  (forall domain idx cols,
      P (row_player the_team_id team_name the_season the_division domain idx cols)) ->
  Forall P (page_records the_team_id team_name the_season the_division html base_url).
Proof.
  intros Hi Hr. unfold page_records. destruct (roster_items html) as [|item items].
  - unfold table_records.
    destruct (match find_sidearm_table (tables html) with
              | Some t => Some t
              | None => find_table (tables html)
              end) as [table|]; [|constructor].
    destruct (match thead table with
              | Some rows => Some (concat rows)
              | None => head (all_rows table)
              end) as [header_cells|]; [|constructor].
    apply Forall_map, Forall_forall. intros cols _. apply Hr.
  - apply Forall_map, Forall_forall. intros it _. apply Hi.
Qed.

Lemma of_team_enriched p q :
  enriched p q ->
  of_team the_team_id team_name the_season the_division p ->
  of_team the_team_id team_name the_season the_division q.
Proof.
  intros [K _]. unfold keeps in K. unfold of_team.
  destruct K as (A & B & C & D & E & _). intros (F & G & H & I & J).
  repeat split; congruence.
Qed.

Lemma item_player_of_team domain item :
  of_team the_team_id team_name the_season the_division
    (item_player the_team_id team_name the_season the_division domain item).
Proof.
  unfold item_player.
  destruct (match match h3 item with Some e => Some e | None => h2 item end with
            | Some e => name_and_url domain e
            | None => ("", "")
            end) as [nm u].
  repeat split.
Qed.

Lemma row_player_of_team domain idx cols :
  of_team the_team_id team_name the_season the_division
    (row_player the_team_id team_name the_season the_division domain idx cols).
Proof.
  unfold row_player.
  destruct (match col (name_idx idx) cols with
            | Some name_cell => name_and_url domain name_cell
            | None => ("", "")
            end) as [nm u].
  destruct (match cell_text (hometown_idx idx) cols with
            | Some hometown_text =>
                let '(hometown, hs) := extract_hometown_parts hometown_text in
                (hometown, if truthy hs then hs else "")
            | None => ("", "")
            end) as [ht hs].
  repeat split.
Qed.

(** X8: every record that [scrape_team] returns carries the team
    identifier, the team name, the season and the division that
    [scrape_team] was called with, and no player identifier. *)
Theorem scrape_team_records_of_team (base_url : string) (st : St World) :
  exists players st',
    scrape_team the_team_id team_name the_season the_division scrape_profiles
      base_url st = (inr players, st')
    /\ Forall (of_team the_team_id team_name the_season the_division) players.
Proof.
  apply yields_run. apply scrape_team_all.
  - apply of_team_enriched.
  - intros html. apply page_records_all;
      [apply item_player_of_team|apply row_player_of_team].
Qed.

Lemma absolute_url_http domain rel_url :
  startswith "http" (absolute_url domain rel_url) = true.
Proof.
  unfold absolute_url. destruct (startswith "http" rel_url) eqn:E; [exact E|].
  destruct (startswith "/" rel_url); reflexivity.
Qed.

Lemma name_and_url_presentable domain e :
  clean_text (fst (name_and_url domain e)) = fst (name_and_url domain e)
  /\ (snd (name_and_url domain e) = ""
      \/ startswith "http" (snd (name_and_url domain e)) = true).
Proof.
  unfold name_and_url. destruct (link e) as [a|]; simpl.
  - split; [apply clean_text_clean|right; apply absolute_url_http].
  - split; [apply clean_text_clean|left; reflexivity].
Qed.

Lemma presentable_enriched p q : enriched p q -> presentable p -> presentable q.
Proof.
  intros [_ (Hn & _ & Hu)]. unfold presentable. rewrite Hn, Hu. tauto.
Qed.

Lemma item_player_presentable domain item :
  presentable (item_player the_team_id team_name the_season the_division domain item).
Proof.
  unfold item_player, presentable.
  destruct (match h3 item with Some e => Some e | None => h2 item end) as [e|].
  - pose proof (name_and_url_presentable domain e) as H.
    destruct (name_and_url domain e) as [nm u]. exact H.
  - simpl. split; [reflexivity|left; reflexivity].
Qed.

Lemma row_player_presentable domain idx cols :
  presentable (row_player the_team_id team_name the_season the_division domain idx cols).
Proof.
  unfold row_player, presentable.
  destruct (match cell_text (hometown_idx idx) cols with
            | Some hometown_text =>
                let '(hometown, hs) := extract_hometown_parts hometown_text in
                (hometown, if truthy hs then hs else "")
            | None => ("", "")
            end) as [ht hs].
  destruct (col (name_idx idx) cols) as [e|].
  - pose proof (name_and_url_presentable domain e) as H.
    destruct (name_and_url domain e) as [nm u]. exact H.
  - simpl. split; [reflexivity|left; reflexivity].
Qed.

(** X9: in every record that [scrape_team] returns the name is a text
    that white-space cleanup leaves as it is, and the url is empty or
    starts with http. *)
Theorem scrape_team_records_presentable (base_url : string) (st : St World) :
  exists players st',
    scrape_team the_team_id team_name the_season the_division scrape_profiles
      base_url st = (inr players, st')
    /\ Forall presentable players.
Proof.
  apply yields_run. apply scrape_team_all.
  - apply presentable_enriched.
  - intros html. apply page_records_all;
      [apply item_player_presentable|apply row_player_presentable].
Qed.

End RecordInvariants.

(** ** Applying a profile page again *)

Section Settled.
Import PyStr FieldExtractors Html Scraper Shape Derived.

Lemma settles_id : settles (fun p => p).
Proof. split; [apply keeps_refl|intros; reflexivity]. Qed.

Lemma settles_compose f g : settles f -> settles g -> settles (fun p => g (f p)).
Proof.
  intros [Kf Af] [Kg Ag]. split.
  - intros s. apply (keeps_trans _ (f s)); [apply Kf|apply Kg].
  - intros s q H.
    assert (Hf : f q = q).
    { apply (Af s). apply (keeps_trans _ (g (f s))); [apply Kg|exact H]. }
    rewrite Hf. apply (Ag (f s)), H.
Qed.

Lemma settles_ext f g : (forall p, f p = g p) -> settles f -> settles g.
Proof.
  intros E [K A]. split.
  - intros s. rewrite <- E. apply K.
  - intros s q. rewrite <- !E. apply A.
Qed.

Lemma settles_fold {A} (f : Player -> A -> Player) l :
  (forall x, settles (fun p => f p x)) -> settles (fun p => fold_left f l p).
Proof.
  intros Hf. induction l as [|x l IH]; simpl; [apply settles_id|].
  apply (settles_compose (fun p => f p x) (fun p => fold_left f l p)); [apply Hf|exact IH].
Qed.

Ltac by_label :=
  repeat match goal with
         | |- context [if ?c then _ else _] =>
             lazymatch c with
             | context [truthy] => fail
             | _ => destruct c
             end
         end.

Ltac by_fields :=
  repeat match goal with
         | |- context [truthy ?x] => is_var x; destruct x
         end.

Ltac crush_keeps :=
  unfold keeps; simpl; intros H;
  repeat match goal with H : _ /\ _ |- _ => destruct H end;
  repeat match goal with
         | H : ?a <> "" -> _ |- _ =>
             first [ specialize (H ltac:(discriminate)) | clear H ]
         end;
  try reflexivity; try discriminate; try (f_equal; congruence).

(** A rule changes nothing in a record that kept what the rule wrote. *)
Lemma bio_rule_settled label value s q :
  keeps (bio_rule label value s) q -> bio_rule label value q = q.
Proof.
  unfold bio_rule.
  repeat match goal with
         | |- context [contains ?a ?b] => generalize (contains a b); intros ?
         end.
  generalize (extract_position value) (str_or (extract_height value) value)
    (normalize_academic_year value).
  intros v1 v2 v3.
  destruct (extract_hometown_parts value) as [h hs].
  destruct s, q.
  cbn [position height year major hometown high_school previous_school].
  by_label; try (intros; reflexivity).
  all: by_fields; simpl.
  all: try (intros; reflexivity).
  all: try (destruct v1; crush_keeps; fail).
  all: try (destruct v2; crush_keeps; fail).
  all: try (destruct v3; crush_keeps; fail).
  all: try (destruct value; crush_keeps; fail).
  all: try (destruct h; crush_keeps; fail).
  all: by_fields; destruct h; crush_keeps.
Qed.

Lemma detail_rule_settled label value s q :
  keeps (detail_rule label value s) q -> detail_rule label value q = q.
Proof.
  unfold detail_rule.
  repeat match goal with
         | |- context [contains ?a ?b] => generalize (contains a b); intros ?
         end.
  generalize (extract_position value) (str_or (extract_height value) value)
    (normalize_academic_year value).
  intros v1 v2 v3.
  destruct (extract_hometown_parts value) as [h hs].
  destruct s, q.
  cbn [position height year major hometown high_school previous_school].
  by_label; try (intros; reflexivity).
  all: by_fields; simpl.
  all: try (intros; reflexivity).
  all: try (destruct v1; crush_keeps; fail).
  all: try (destruct v2; crush_keeps; fail).
  all: try (destruct v3; crush_keeps; fail).
  all: try (destruct value; crush_keeps; fail).
  all: try (destruct h; crush_keeps; fail).
  all: by_fields; destruct h; crush_keeps.
Qed.

Lemma labelled_settles rule l v :
  (forall label value s, keeps s (rule label value s)) ->
  (forall label value s q, keeps (rule label value s) q -> rule label value q = q) ->
  settles (fun p => labelled rule l v p).
Proof.
  intros K A. unfold labelled. destruct (no_data (clean_text v)); [apply settles_id|].
  split; [intros s; apply K|intros s q; apply A].
Qed.

Lemma bio_item_settles item : settles (fun p => bio_item bio_rule p item).
Proof.
  unfold bio_item. destruct (label_elem item), (value_elem item); try apply settles_id.
  apply labelled_settles; [apply bio_rule_keeps|apply bio_rule_settled].
Qed.

Lemma dl_pair_settles x : settles (fun p => dl_pair bio_rule p x).
Proof. apply labelled_settles; [apply bio_rule_keeps|apply bio_rule_settled]. Qed.

Lemma detail_row_settles cells : settles (fun p => detail_row detail_rule p cells).
Proof.
  unfold detail_row. destruct cells as [|c0 [|c1 cells]]; try apply settles_id.
  apply labelled_settles; [apply detail_rule_keeps|apply detail_rule_settled].
Qed.

Lemma detail_table_settles table : settles (fun p => detail_table detail_rule p table).
Proof. apply (settles_fold (detail_row detail_rule)), detail_row_settles. Qed.

Lemma profile_fill_settles html : settles (profile_fill html).
Proof.
  unfold profile_fill, walk_profile.
  apply (settles_compose
           (fun p => match dl_section html with
                     | Some (dts, dds) =>
                         fold_left (dl_pair bio_rule) (zip dts dds)
                           match bio_section html with
                           | Some bio_items => fold_left (bio_item bio_rule) bio_items p
                           | None => p
                           end
                     | None => match bio_section html with
                               | Some bio_items =>
                                   fold_left (bio_item bio_rule) bio_items p
                               | None => p
                               end
                     end)
           (fun p => fold_left (detail_table detail_rule)
                       (find_all_sidearm_tables (tables html)) p)).
  - apply (settles_compose
             (fun p => match bio_section html with
                       | Some bio_items => fold_left (bio_item bio_rule) bio_items p
                       | None => p
                       end)
             (fun p => match dl_section html with
                       | Some (dts, dds) => fold_left (dl_pair bio_rule) (zip dts dds) p
                       | None => p
                       end)).
    + destruct (bio_section html);
        [apply (settles_fold (bio_item bio_rule)), bio_item_settles|apply settles_id].
    + destruct (dl_section html) as [[dts dds]|];
        [apply (settles_fold (dl_pair bio_rule)), dl_pair_settles|apply settles_id].
  - apply (settles_fold (detail_table detail_rule)), detail_table_settles.
Qed.

(** X10: the profile pass of the scraper is idempotent: a page applied to
    the record it has already filled changes nothing, also when another
    page was applied in between. *)
Theorem profile_fill_idempotent (html html' : Page) (p : Player) :
  profile_fill html (profile_fill html p) = profile_fill html p
  /\ profile_fill html (profile_fill html' (profile_fill html p))
     = profile_fill html' (profile_fill html p).
Proof.
  destruct (profile_fill_settles html) as [K A]. split.
  - apply (A p), keeps_refl.
  - apply (A p), profile_fill_keeps.
Qed.

End Settled.

(** ** Failures of the profile fetch, and the number of requests *)

Section ProfileFetch.
Import PyStr FieldExtractors Html Scraper Shape Derived.
Context {World : Type} {session : Session World}.

(** X11: a profile fetch that fails is not fatal.  The pass of the
    scraper never raises: it returns the record filled from the page
    when the page is fetched with status 200, and the record as it was
    given when the fetch raises or answers with another status (and when
    no fetch is due).  The pass of the enhancement tool does the same
    with a row, except for a row whose url is [None], where it raises
    [AttributeError] before any fetch. *)
Theorem profile_fetch_failure_is_not_fatal
    (p : Player) (row : Enhancer.Row) (force : bool) (st : St World) :
  fst (_scrape_player_profile p st)
  = inr (match fst (session_get (url p) (world st)) with
         | Response sc body =>
             if truthy (url p) && (sc =? 200)%Z then profile_fill body p else p
         | Raises _ => p
         end)
  /\ fst (Enhancer.scrape_player_profile row force st)
     = match Enhancer.row_get_or_empty row "url" with
       | None => inl (Enhancer.none_has_no "strip")
       | Some text =>
           inr (if truthy (strip text) && (force || negb (Enhancer.has_data row))
                then match fst (session_get (strip text) (world st)) with
                     | Response sc body =>
                         if (sc =? 200)%Z then Enhancer.profile_fill body row else row
                     | Raises _ => row
                     end
                else row)
       end.
Proof.
  split.
  - unfold _scrape_player_profile, try_except, bind, get, warn, ret.
    destruct (truthy (url p)); simpl.
    + destruct (session_get (url p) (world st)) as [[[m|m]|sc body] w]; simpl;
        try reflexivity.
      destruct (sc =? 200)%Z; reflexivity.
    + destruct (session_get (url p) (world st)) as [[e|sc body] w]; reflexivity.
  - unfold Enhancer.scrape_player_profile.
    destruct (Enhancer.row_get_or_empty row "url") as [text|]; [|reflexivity].
    unfold Enhancer.scrape_profile_at, try_except, bind, get, warn, ret.
    destruct (truthy (strip text)); simpl; [|reflexivity].
    destruct force; simpl.
    + destruct (session_get _ (world st)) as [[[m|m]|sc body] w]; simpl;
        try reflexivity.
      destruct (sc =? 200)%Z; reflexivity.
    + destruct (Enhancer.has_data row); simpl; [reflexivity|].
      destruct (session_get _ (world st)) as [[[m|m]|sc body] w]; simpl;
        try reflexivity.
      destruct (sc =? 200)%Z; reflexivity.
Qed.

End ProfileFetch.

Section Requests.
Import PyStr FieldExtractors Html Scraper Shape Derived.
Context {World : Type} {session : Session World}.
Variables (the_team_id : Z) (team_name the_season the_division : string).
Variable scrape_profiles : bool.

Lemma at_most_ret {A} (x : A) : at_most (World := World) 0 (ret x).
Proof. intros st. exists []. simpl. rewrite app_nil_r. split; [reflexivity|lia]. Qed.

Lemma at_most_warn r : at_most (World := World) 0 (warn r).
Proof. intros st. exists []. simpl. rewrite app_nil_r. split; [reflexivity|lia]. Qed.

Lemma at_most_get url : at_most (World := World) 1 (get url).
Proof.
  intros st. exists [url]. unfold get.
  destruct (session_get url (world st)) as [[e|sc body] w]; simpl; split;
    try reflexivity; lia.
Qed.

Lemma at_most_bind {A B} n1 n2 (m : M World A) (k : A -> M World B) :
  at_most n1 m -> (forall x, at_most n2 (k x)) -> at_most (n1 + n2) (bind m k).
Proof.
  intros Hm Hk st. unfold bind. destruct (Hm st) as (u1 & E1 & L1).
  destruct (m st) as [[e|x] st1]; simpl in E1.
  - exists u1. simpl. split; [exact E1|lia].
  - destruct (Hk x st1) as (u2 & E2 & L2). exists (u1 ++ u2)%list.
    rewrite E2, E1, <- app_assoc, length_app. split; [reflexivity|lia].
Qed.

Lemma at_most_try {A} n1 n2 (body : M World A) handler :
  at_most n1 body -> (forall e, at_most n2 (handler e)) ->
  at_most (n1 + n2) (try_except body handler).
Proof.
  intros Hb Hh st. unfold try_except. destruct (Hb st) as (u1 & E1 & L1).
  destruct (body st) as [[e|x] st1]; simpl in E1.
  - destruct (Hh e st1) as (u2 & E2 & L2). exists (u1 ++ u2)%list.
    rewrite E2, E1, <- app_assoc, length_app. split; [reflexivity|lia].
  - exists u1. simpl. split; [exact E1|lia].
Qed.

Lemma at_most_le {A} n n' (m : M World A) : (n <= n')%nat -> at_most n m -> at_most n' m.
Proof.
  intros Hle H st. destruct (H st) as (u & E & L). exists u. split; [exact E|lia].
Qed.

Lemma at_most_warn_then {A} r (x : A) :
  at_most (World := World) 0 (bind (warn r) (fun _ => ret x)).
Proof.
  apply (at_most_bind 0 0); [apply at_most_warn|]. intros _. apply at_most_ret.
Qed.

Lemma scrape_player_profile_at_most p :
  at_most (World := World) 1 (_scrape_player_profile p).
Proof.
  unfold _scrape_player_profile.
  destruct (negb (truthy (url p)));
    [apply (at_most_le 0); [lia|apply at_most_ret]|].
  apply (at_most_try 1 0).
  - apply (at_most_bind 1 0); [apply at_most_get|]. intros response.
    destruct (negb (status_code response =? 200)%Z);
      [apply at_most_warn_then|apply at_most_ret].
  - intros e. destruct e; apply at_most_warn_then.
Qed.

Lemma enrich_and_append_appends player :
  appends (World := World) (fun players => enrich_and_append scrape_profiles players player).
Proof.
  intros players st. unfold enrich_and_append, bind.
  destruct (scrape_profiles && truthy (url player)).
  - destruct (scrape_player_profile_at_most player st) as (u & E & L).
    assert (Y : yields (World := World) (_scrape_player_profile player)
                  (fun _ => True)).
    { apply (scrape_player_profile_rel (fun _ _ => True)); auto. }
    destruct (yields_run _ _ st Y) as (q & st' & Eq & _).
    rewrite Eq in E |- *. simpl in E. exists (players ++ [q])%list, st', u.
    split; [reflexivity|]. split; [exact E|]. rewrite length_app. simpl. lia.
  - exists (players ++ [player])%list, st, []. simpl. rewrite app_nil_r.
    split; [reflexivity|]. split; [reflexivity|]. rewrite length_app. simpl. lia.
Qed.

Lemma try_appends (step : list Player -> M World (list Player)) handler :
  appends step -> appends (fun players => try_except (step players) (handler players)).
Proof.
  intros H players st. destruct (H players st) as (acc' & st' & u & E & R & L).
  exists acc', st', u. unfold try_except. rewrite E. auto.
Qed.

Lemma roster_item_appends domain item :
  appends (World := World)
    (fun players =>
       roster_item the_team_id team_name the_season the_division scrape_profiles
         domain players item).
Proof.
  intros players st. rewrite roster_item_unfold.
  apply (try_appends
           (fun players =>
              enrich_and_append scrape_profiles players
                (item_player the_team_id team_name the_season the_division domain item))
           (fun players e => bind (warn (ErrorParsing team_name e))
                               (fun _ => ret players))).
  apply enrich_and_append_appends.
Qed.

Lemma table_row_appends domain idx cols :
  appends (World := World)
    (fun players =>
       table_row the_team_id team_name the_season the_division scrape_profiles
         domain idx players cols).
Proof.
  intros players st. unfold table_row. destruct (length cols <? 2)%nat.
  - exists players, st, []. simpl. rewrite app_nil_r. repeat split; lia.
  - apply (try_appends
             (fun players =>
                enrich_and_append scrape_profiles players
                  (row_player the_team_id team_name the_season the_division
                     domain idx cols))
             (fun players e => bind (warn (ErrorParsing team_name e))
                                 (fun _ => ret players))).
    apply enrich_and_append_appends.
Qed.

Lemma for_each_appends {A} (body : list Player -> A -> M World (list Player)) l :
  (forall x, appends (fun players => body players x)) ->
  appends (fun players => for_each body players l).
Proof.
  intros Hb. induction l as [|x l IH]; intros players st.
  - exists players, st, []. simpl. rewrite app_nil_r. repeat split; lia.
  - cbn [for_each]. unfold bind.
    destruct (Hb x players st) as (acc1 & st1 & u1 & E1 & R1 & L1). rewrite E1.
    destruct (IH acc1 st1) as (acc2 & st2 & u2 & E2 & R2 & L2).
    exists acc2, st2, (u1 ++ u2)%list. split; [exact E2|].
    rewrite R2, R1, <- app_assoc, length_app. split; [reflexivity|lia].
Qed.

Lemma extract_players_asks html base_url :
  asks (World := World)
    (_extract_players the_team_id team_name the_season the_division scrape_profiles
       html base_url)
    (fun _ => True) (fun players => length players).
Proof.
  intros st. unfold _extract_players.
  destruct (roster_items html) as [|item items].
  - unfold bind, warn. unfold _extract_players_from_table.
    destruct (match find_sidearm_table (tables html) with
              | Some t => Some t
              | None => find_table (tables html)
              end) as [table|].
    + destruct (match thead table with
                | Some rows => Some (concat rows)
                | None => head (all_rows table)
                end) as [header_cells|].
      * match goal with
        | |- context [for_each ?body [] ?rows ?st1] =>
            destruct (for_each_appends body rows
                        (fun cols => table_row_appends _ _ cols) [] st1)
              as (acc & st' & u & E & R & L)
        end.
        exists acc, st', u. simpl in R, L. repeat split; try assumption. lia.
      * eexists [], _, []. simpl. rewrite app_nil_r. repeat split; lia.
    + eexists [], _, []. simpl. rewrite app_nil_r. repeat split; lia.
  - match goal with
    | |- context [for_each ?body [] ?l st] =>
        destruct (for_each_appends body l (fun it => roster_item_appends _ it) [] st)
          as (acc & st' & u & E & R & L)
    end.
    exists acc, st', u. simpl in L. repeat split; try assumption. lia.
Qed.

Lemma fetch_roster_at_most base_url roster_url :
  at_most (World := World) 3 (fetch_roster base_url roster_url).
Proof.
  unfold fetch_roster. apply (at_most_bind 1 2); [apply at_most_get|].
  intros response. destruct (status_code response =? 404)%Z.
  - apply (at_most_bind 1 1); [apply at_most_get|]. intros response2.
    destruct (status_code response2 =? 200)%Z;
      [apply (at_most_le 0); [lia|apply at_most_ret]|apply at_most_get].
  - apply (at_most_le 0); [lia|apply at_most_ret].
Qed.

Lemma visit_base_at_most base_url : at_most (World := World) 1 (visit_base base_url).
Proof.
  unfold visit_base. apply (at_most_try 1 0).
  - apply (at_most_bind 1 0); [apply at_most_get|]. intros _. apply at_most_ret.
  - intros e. apply at_most_ret.
Qed.

(** X12: [scrape_team] makes at most four requests for the roster page
    (the base domain, the roster URL and its two alternatives) and at most
    one more for each record that it returns. *)
Theorem scrape_team_request_budget (base_url : string) (st : St World) :
  exists players st' urls,
    scrape_team the_team_id team_name the_season the_division scrape_profiles
      base_url st = (inr players, st')
    /\ requests st' = (requests st ++ urls)%list
    /\ (length urls <= 4 + length players)%nat.
Proof.
  unfold scrape_team, scrape_team_with, try_except.
  unfold bind at 1. rewrite build_roster_url_known.
  unfold bind at 1. rewrite visit_base_returns.
  destruct (visit_base_at_most base_url st) as (u1 & R1 & L1).
  set (st1 := snd (visit_base base_url st)) in *.
  unfold bind at 1.
  destruct (fetch_roster_at_most base_url
              (rstrip_slash base_url +:+ "/roster/" +:+ the_season) st1)
    as (u2 & R2 & L2).
  destruct (fetch_roster base_url _ st1) as [[e|response] st2]; simpl in R2.
  - exists [], (snd (on_error team_name e st2)), (u1 ++ u2)%list.
    split; [destruct e; reflexivity|].
    split; [destruct e; simpl; rewrite R2, R1, <- app_assoc; reflexivity|].
    rewrite length_app. simpl. lia.
  - unfold use_response.
    destruct (negb (status_code response =? 200)%Z).
    + eexists [], _, (u1 ++ u2)%list. split; [reflexivity|].
      split; [simpl; rewrite R2, R1, <- app_assoc; reflexivity|].
      rewrite length_app. simpl. lia.
    + unfold scrape_page, bind at 1.
      set (st3 := snd (check_season team_name the_season
                         SeasonVerifier.verify_season_on_page (content response) st2)).
      assert (E3 : check_season team_name the_season
                     SeasonVerifier.verify_season_on_page (content response) st2
                   = (inr tt, st3)).
      { unfold st3, check_season. destruct (negb _); reflexivity. }
      assert (R3 : requests st3 = requests st2).
      { unfold st3, check_season. destruct (negb _); reflexivity. }
      rewrite E3.
      destruct (extract_players_asks (content response) base_url st3)
        as (players & st' & u4 & E4 & R4 & _ & L4).
      rewrite E4. exists players, st', (u1 ++ u2 ++ u4)%list.
      split; [reflexivity|].
      split; [rewrite R4, R3, R2, R1, <- !app_assoc; reflexivity|].
      rewrite !length_app. lia.
Qed.

End Requests.

(** ** The team list *)

Section TeamLimit.
Import RosterManager.

(** X13: the teams that are scraped are always the first teams of the
    list, in order; a limit of 0 is no limit; a positive limit keeps at
    most that many teams; a negative limit drops that many teams from the
    end. *)
Theorem teams_to_scrape_prefix {A} (teams : list A) (max_teams : option Z) :
  (exists rest, teams = (teams_to_scrape teams max_teams ++ rest)%list)
  /\ teams_to_scrape teams (Some 0%Z) = teams
  /\ teams_to_scrape teams None = teams
  /\ length (teams_to_scrape teams max_teams)
     = match max_teams with
       | None => length teams
       | Some n =>
           if (n =? 0)%Z then length teams
           else if (0 <? n)%Z then Nat.min (Z.to_nat n) (length teams)
                else (length teams - Z.to_nat (- n))%nat
       end.
Proof.
  split; [|split; [reflexivity|split; [reflexivity|]]].
  - unfold teams_to_scrape, slice_to. destruct max_teams as [n|]; [|exists []; symmetry; apply app_nil_r].
    destruct (n =? 0)%Z; [exists []; symmetry; apply app_nil_r|].
    destruct (0 <=? n)%Z; eexists; symmetry; apply take_drop.
  - unfold teams_to_scrape, slice_to. destruct max_teams as [n|]; [|reflexivity].
    destruct (n =? 0)%Z eqn:E0; [reflexivity|].
    destruct (0 <? n)%Z eqn:E1.
    + apply Z.ltb_lt in E1. destruct (0 <=? n)%Z eqn:E2; [|apply Z.leb_gt in E2; lia].
      apply length_take.
    + apply Z.ltb_ge in E1. apply Z.eqb_neq in E0.
      destruct (0 <=? n)%Z eqn:E2; [apply Z.leb_le in E2; lia|].
      rewrite length_take. lia.
Qed.

End TeamLimit.

(** ** The roster URL and the profile URLs *)

Section Urls.
Import PyStr Scraper Derived.
Context {World : Type} {session : Session World}.

Lemma rstrip_slash_app s : rstrip_slash (s +:+ "/") = rstrip_slash s.
Proof.
  induction s as [|c r IH]; [reflexivity|].
  change (String c r +:+ "/") with (String c (r +:+ "/")).
  cbn [rstrip_slash]. rewrite IH. reflexivity.
Qed.

(** X14: the roster URL is the base URL without its trailing slashes,
    followed by /roster/ and the season, whatever the URL format (an
    unknown format only adds a warning to the log); one more slash at the
    end of the base URL gives the same roster URL. *)
Theorem build_roster_url_any_format (base_url season url_format : string) (st : St World) :
  fst (build_roster_url base_url season url_format st)
  = inr (rstrip_slash base_url +:+ "/roster/" +:+ season)
  /\ fst (build_roster_url (base_url +:+ "/") season url_format st)
     = fst (build_roster_url base_url season url_format st)
  /\ world (snd (build_roster_url base_url season url_format st)) = world st
  /\ requests (snd (build_roster_url base_url season url_format st)) = requests st
  /\ log (snd (build_roster_url base_url season url_format st))
     = (log st ++ (if String.eqb url_format "default" || String.eqb url_format "fhockey"
                   then [] else [UnknownUrlFormat url_format]))%list.
Proof.
  unfold build_roster_url. rewrite rstrip_slash_app.
  destruct (String.eqb url_format "default"); simpl;
    [rewrite app_nil_r; repeat split; reflexivity|].
  destruct (String.eqb url_format "fhockey"); simpl;
    [rewrite app_nil_r; repeat split; reflexivity|].
  repeat split; reflexivity.
Qed.

(** X15: the profile URL of a link of the roster page starts with http: a
    link that starts with http is kept, a link that starts with a slash is
    put after the base URL of the site ([extract_base_url]), and any other
    link after the base URL and a slash. *)
Theorem absolute_url_of_link (base_url href : string) :
  startswith "http" (absolute_url (site_domain base_url) href) = true
  /\ absolute_url (site_domain base_url) href
     = (if startswith "http" href then href
        else if startswith "/" href then extract_base_url base_url +:+ href
             else extract_base_url base_url +:+ "/" +:+ href).
Proof.
  split; [apply absolute_url_http|].
  unfold absolute_url, site_domain, extract_base_url.
  destruct (tld_extract base_url) as [[subdomain domain] suffix].
  destruct (startswith "http" href); [reflexivity|].
  destruct (truthy subdomain), (startswith "/" href); reflexivity.
Qed.

End Urls.

(** ** Loading the team list *)

Section LoadTeams.
Import PyStr RosterManager TeamList.

(** What a loaded team owes to its row. *)
Lemma load_rows_spec rows : forall acc,
  match load_rows acc rows with
  | inr teams =>
      exists new,
        teams = (acc ++ new)%list
        /\ Forall2 (fun row t => t_team t = cell row "school" /\ t_url t = cell row "url"
                                 /\ org_id row = inr (t_ncaa_id t))
             (kept_rows rows) new
  | inl e => Exists (fun row => kept row = true /\ org_id row = inl e) rows
  end.
Proof.
  induction rows as [|row rows IH]; intros acc; simpl.
  - exists []. rewrite app_nil_r. split; [reflexivity|constructor].
  - destruct (kept row) eqn:Hk.
    + destruct (org_id row) as [e|n] eqn:Ho.
      * apply Exists_cons_hd. split; [exact Hk|exact Ho].
      * specialize (IH (acc ++ [ {| t_team := cell row "school"; t_ncaa_id := n;
                                    t_url := cell row "url" |} ])%list).
        destruct (load_rows _ rows) as [e|teams].
        -- apply Exists_cons_tl, IH.
        -- destruct IH as (new & -> & H).
           exists ({| t_team := cell row "school"; t_ncaa_id := n;
                      t_url := cell row "url" |} :: new).
           rewrite <- app_assoc. split; [reflexivity|].
           constructor; [|exact H]. simpl. rewrite Ho. tauto.
    + specialize (IH acc). destruct (load_rows acc rows) as [e|teams].
      * apply Exists_cons_tl, IH.
      * exact IH.
Qed.

Lemma kept_rows_kept rows : Forall (fun row => kept row = true) (kept_rows rows).
Proof.
  induction rows as [|row rows IH]; simpl; [constructor|].
  destruct (kept row) eqn:Hk; [constructor; assumption|exact IH].
Qed.

Lemma load_rows_skips rows : forall acc,
  load_rows acc (kept_rows rows) = load_rows acc rows.
Proof.
  induction rows as [|row rows IH]; intros acc; simpl; [reflexivity|].
  destruct (kept row) eqn:Hk; [|apply IH].
  simpl. rewrite Hk. destruct (org_id row); [reflexivity|apply IH].
Qed.

(** X16: when the team list loads, its teams are, one for one and in
    order, the rows that have a school and a url, each team with the
    school, the url and the integer identifier of its row, so that no team
    has an empty name or url; when it fails, the failure is the identifier
    of such a row.  Rows without a school or a url never matter. *)
Theorem load_teams_rows (rows : list (gmap string string)) :
  match load_teams rows with
  | inr teams =>
      Forall2 (fun row t => t_team t = cell row "school" /\ t_url t = cell row "url"
                            /\ org_id row = inr (t_ncaa_id t))
        (kept_rows rows) teams
      /\ Forall (fun t => t_team t <> "" /\ t_url t <> "") teams
  | inl e => Exists (fun row => kept row = true /\ org_id row = inl e) rows
  end
  /\ load_teams (kept_rows rows) = load_teams rows.
Proof.
  split; [|apply load_rows_skips].
  unfold load_teams. pose proof (load_rows_spec rows []) as H.
  destruct (load_rows [] rows) as [e|teams]; [exact H|].
  destruct H as (new & -> & H). simpl. split; [exact H|].
  pose proof (kept_rows_kept rows) as Hk.
  induction H as [|row t l l' (Hn & Hu & _) _ IH]; [constructor|].
  inversion Hk as [|? ? Hrow Hrest]; subst.
  constructor; [|apply IH, Hrest].
  unfold kept in Hrow. apply andb_prop in Hrow as [Hs Hurl].
  rewrite Hn, Hu. split; intros E; rewrite E in *; discriminate.
Qed.

End LoadTeams.

(** ** The dictionary of a record *)

Section ToDict.
Import PyStr FieldExtractors Records.

(** X17: [to_dict] never fails; the dictionary of every record has the
    same fourteen keys in the same order, class and ncaa_id last and
    neither year, team_id nor player_id among them; class is the cleaned
    year and ncaa_id the team identifier; and every text in it is a text
    that white-space cleanup leaves as it is. *)
Theorem to_dict_shape (p : Player) :
  exists d,
    to_dict p = Some d
    /\ keys d = [ "team"; "season"; "division"; "name"; "jersey"; "position"; "height";
                 "major"; "hometown"; "high_school"; "previous_school"; "url";
                 "class"; "ncaa_id" ]
    /\ dict_lookup "class" d = Some (VStr (clean_text (year p)))
    /\ dict_lookup "ncaa_id" d = Some (VInt (team_id p))
    /\ dict_lookup "name" d = Some (VStr (clean_text (name p)))
    /\ Forall (fun kv => clean_value (snd kv)) d.
Proof.
  destruct p as [tid tm se dv pid nm je po he ye ma ho hs ps ur].
  destruct pid as [pid|]; eexists;
    (split; [cbv -[clean_text]; reflexivity|]);
    (split; [reflexivity|]); (split; [reflexivity|]); (split; [reflexivity|]);
    (split; [reflexivity|]);
    repeat (constructor; [first [apply clean_text_clean | exact I]|]); constructor.
Qed.

End ToDict.

(** ** The enhancement of a CSV *)

Section ReadRows.
Import PyStr EnhanceCsv.

Lemma read_cells_rest fieldnames : forall record d,
  length record = length fieldnames -> rest (read_cells fieldnames record d) = None.
Proof.
  induction fieldnames as [|key fns IH]; intros [|c record] d H;
    try discriminate; [reflexivity|].
  simpl. apply IH. simpl in H. lia.
Qed.

Lemma read_cells_dom fieldnames : forall record d,
  dom (cells (read_cells fieldnames record d))
  = dom d ∪ list_to_set (C := gset string) fieldnames.
Proof.
  induction fieldnames as [|key fns IH]; intros record d.
  - rewrite list_to_set_nil, (right_id_L ∅ (∪)). destruct record; reflexivity.
  - rewrite list_to_set_cons.
    destruct record as [|c record]; simpl; rewrite IH, dom_insert_L;
      rewrite (comm_L (∪) {[key]} (dom d)), (assoc_L (∪)); reflexivity.
Qed.

Lemma read_cells_other fieldnames key : forall record d,
  ~ In key fieldnames ->
  cells (read_cells fieldnames record d) !! key = d !! key.
Proof.
  induction fieldnames as [|k fns IH]; intros record d Hk.
  - destruct record; reflexivity.
  - assert (k <> key) by (intros ->; apply Hk; left; reflexivity).
    assert (~ In key fns) by (intros Hin; apply Hk; right; exact Hin).
    destruct record as [|c record]; simpl; rewrite IH by assumption;
      apply lookup_insert_ne; assumption.
Qed.

Lemma read_cells_text fieldnames : forall record d key,
  length record = length fieldnames ->
  cells (read_cells fieldnames record d) !! key = Some None -> d !! key = Some None.
Proof.
  induction fieldnames as [|k fns IH]; intros [|c record] d key H Hl;
    try discriminate; [exact Hl|].
  simpl in Hl. apply IH in Hl; [|simpl in H; lia].
  destruct (decide (k = key)) as [->|Hne].
  - rewrite lookup_insert in Hl. destruct (decide (key = key)); congruence.
  - rewrite lookup_insert_ne in Hl; assumption.
Qed.

Lemma read_cells_lookup fieldnames : forall record d i key c,
  NoDup fieldnames ->
  fieldnames !! i = Some key -> record !! i = Some c ->
  cells (read_cells fieldnames record d) !! key = Some (Some c).
Proof.
  induction fieldnames as [|k fns IH]; intros record d i key c Hnd Hk Hc;
    [destruct i; discriminate|].
  apply NoDup_cons in Hnd as [Hk' Hnd].
  destruct record as [|c' record]; [destruct i; discriminate|].
  destruct i as [|i]; simpl in Hk, Hc.
  - injection Hk as ->. injection Hc as ->. simpl.
    rewrite read_cells_other.
    + apply lookup_insert_eq.
    + intros Hin. apply Hk', list_elem_of_In, Hin.
  - simpl. apply (IH record _ i); assumption.
Qed.


Lemma read_row_whole fieldnames record :
  length record = length fieldnames -> whole fieldnames (read_row fieldnames record).
Proof.
  intros H. unfold read_row. split; [apply read_cells_rest, H|]. split.
  - rewrite read_cells_dom, dom_empty_L, (left_id_L ∅ (∪)). reflexivity.
  - intros key Hk. apply read_cells_text in Hk; [|exact H].
    rewrite lookup_empty in Hk. discriminate.
Qed.

Lemma skip_blank_all (P : list string -> Prop) records :
  Forall P records -> Forall P (skip_blank records).
Proof.
  induction 1 as [|record records Hr _ IH]; simpl; [constructor|].
  destruct (blank record); [exact IH|constructor; assumption].
Qed.

Lemma read_rows_whole (fieldnames : list string) (records : list (list string)) :
  Forall (fun record : list string => length record = length fieldnames) records ->
  Forall (whole fieldnames) (read_rows fieldnames records).
Proof.
  intros H. unfold read_rows. apply Forall_map.
  eapply Forall_impl; [apply skip_blank_all, H|].
  intros record Hr. apply read_row_whole, Hr.
Qed.

Lemma skip_blank_full (fieldnames : list string) (records : list (list string)) :
  fieldnames <> [] ->
  Forall (fun record : list string => length record = length fieldnames) records ->
  skip_blank records = records.
Proof.
  intros Hf. induction 1 as [|record records Hr _ IH]; simpl; [reflexivity|].
  destruct record as [|c record]; simpl.
  - destruct fieldnames; [contradiction|discriminate].
  - rewrite IH. reflexivity.
Qed.

Lemma whole_team fieldnames row :
  whole fieldnames row ->
  exists team, Enhancer.row_get_or_empty (cells row) "team" = Some team.
Proof.
  intros (_ & _ & H). unfold Enhancer.row_get_or_empty.
  specialize (H "team"). destruct (cells row !! "team") as [[team|]|]; eauto.
  contradiction.
Qed.

Lemma rows_of_team_whole fieldnames team_filter rows :
  Forall (whole fieldnames) rows ->
  exists kept, rows_of_team team_filter rows = inr kept /\ Forall (whole fieldnames) kept.
Proof.
  induction 1 as [|row rows Hrow _ (kept & E & IH)]; simpl; [eauto|].
  destruct (whole_team _ _ Hrow) as [team ->]. rewrite E.
  destruct (String.eqb (lower team) (lower team_filter)); eauto.
Qed.

Lemma filter_rows_whole fieldnames team_filter rows :
  Forall (whole fieldnames) rows ->
  exists kept, filter_rows team_filter rows = inr kept /\ Forall (whole fieldnames) kept.
Proof.
  intros H. unfold filter_rows. destruct team_filter as [f|]; [|eauto].
  destruct (truthy f); [apply rows_of_team_whole, H|eauto].
Qed.

End ReadRows.

Section EnhanceRows.
Import PyStr FieldExtractors Html Scraper Shape EnhanceCsv.
Context {World : Type} {session : Session World}.

Lemma grown_refl (row : Enhancer.Row) : grown row row.
Proof. intros k Hk. apply elem_of_union_l, Hk. Qed.

Lemma grown_trans (r1 r2 r3 : Enhancer.Row) :
  grown r1 r2 -> grown r2 r3 -> grown r1 r3.
Proof.
  unfold grown. intros H12 H23 k Hk.
  apply H23 in Hk. apply elem_of_union in Hk as [Hk|Hk].
  - apply H12, Hk.
  - apply elem_of_union_r, Hk.
Qed.

Lemma insert_grown (row : Enhancer.Row) k c :
  In k enrichable -> grown row (<[k:=c]> row).
Proof.
  intros Hk. unfold grown. rewrite dom_insert.
  assert (k ∈ list_to_set (C := gset string) enrichable).
  { apply elem_of_list_to_set, list_elem_of_In, Hk. }
  intros x Hx. apply elem_of_union in Hx as [Hx|Hx].
  - apply elem_of_singleton in Hx. subst x. apply elem_of_union_r, H.
  - apply elem_of_union_l, Hx.
Qed.

Ltac enrichable_key := unfold enrichable; simpl; tauto.

Lemma enhancer_bio_rule_grown label value row :
  grown row (Enhancer.bio_rule label value row).
Proof.
  unfold Enhancer.bio_rule.
  repeat match goal with
         | |- context [contains ?a ?b] => generalize (contains a b); intros ?
         end.
  destruct (extract_hometown_parts value) as [h hs].
  repeat match goal with
         | |- context [if ?b then _ else _] => destruct b
         end;
    try apply grown_refl; try (apply insert_grown; enrichable_key).
  apply (grown_trans _ (<["hometown":=Some h]> row)); apply insert_grown; enrichable_key.
Qed.

Lemma enhancer_detail_rule_grown label value row :
  grown row (Enhancer.detail_rule label value row).
Proof.
  unfold Enhancer.detail_rule.
  repeat match goal with
         | |- context [contains ?a ?b] => generalize (contains a b); intros ?
         end.
  destruct (extract_hometown_parts value) as [h hs].
  repeat match goal with
         | |- context [if ?b then _ else _] => destruct b
         end;
    try apply grown_refl; try (apply insert_grown; enrichable_key).
  apply (grown_trans _ (<["hometown":=Some h]> row)); apply insert_grown; enrichable_key.
Qed.

Lemma enhanced_refl (row : Enhancer.Row) : enhanced row row.
Proof. split; [apply keeps_row_refl|apply grown_refl]. Qed.

Lemma enhancer_fill_enhanced html row : enhanced row (Enhancer.profile_fill html row).
Proof.
  split; [apply enhancer_fill_keeps|].
  apply (walk_profile_rel Enhancer.bio_rule Enhancer.detail_rule grown);
    eauto using grown_refl, grown_trans, enhancer_bio_rule_grown,
      enhancer_detail_rule_grown.
Qed.

(** A row with a text under every key is enhanced without raising. *)
Lemma whole_row_enhanced fieldnames row force :
  whole fieldnames row ->
  yields (World := World) (Enhancer.scrape_player_profile (cells row) force)
    (enhanced (cells row)).
Proof.
  intros (_ & _ & Hn) st.
  pose proof (enhancer_profile_rel enhanced (cells row) force st
                (enhanced_refl _) (fun html => enhancer_fill_enhanced html _)) as H.
  destruct (Enhancer.scrape_player_profile (cells row) force st) as [[e|row'] st'].
  - destruct H as [H _]. apply (Hn "url"), H.
  - apply H.
Qed.

Lemma enhance_rows_enhanced fieldnames force rows :
  Forall (whole fieldnames) rows -> forall before done count,
  Forall2 enhanced_row before done -> (count <= length done)%nat ->
  yields (World := World) (for_each (enhance_row force) (done, count) rows)
    (fun result => Forall2 enhanced_row (before ++ rows) (fst result)
                   /\ (snd result <= length (fst result))%nat).
Proof.
  induction 1 as [|row rows Hrow _ IH]; intros before done count Hd Hc.
  - simpl. rewrite app_nil_r. apply post_ret. split; assumption.
  - cbn [for_each].
    apply (post_bind _ _
             (fun acc => Forall2 enhanced_row (before ++ [row]) (fst acc)
                         /\ (snd acc <= length (fst acc))%nat)).
    + unfold enhance_row.
      apply (post_bind _ _ (enhanced (cells row)));
        [apply (whole_row_enhanced fieldnames), Hrow|].
      intros row' Hr. apply post_ret. simpl. split.
      * apply Forall2_app; [exact Hd|].
        constructor; [split; [reflexivity|exact Hr]|constructor].
      * rewrite length_app. simpl. destruct (bool_decide _); lia.
    + intros [done' count'] [Hw Hc']. simpl in Hw, Hc'.
      specialize (IH _ _ _ Hw Hc'). rewrite <- app_assoc in IH. exact IH.
Qed.

Lemma enhanced_row_writable fieldnames row row' :
  list_to_set (C := gset string) enrichable ⊆ list_to_set (C := gset string) fieldnames ->
  whole fieldnames row -> enhanced_row row row' -> writable fieldnames row' = true.
Proof.
  intros He (Hrest & Hdom & _) (Hr & _ & Hg). unfold writable.
  rewrite Hr, Hrest. apply bool_decide_eq_true.
  intros k Hk. apply Hg in Hk. apply elem_of_union in Hk as [Hk|Hk].
  - apply Hdom, Hk.
  - apply He, Hk.
Qed.

Lemma enhanced_rows_writable fieldnames rows done :
  list_to_set (C := gset string) enrichable ⊆ list_to_set (C := gset string) fieldnames ->
  Forall (whole fieldnames) rows -> Forall2 enhanced_row rows done ->
  forallb (writable fieldnames) done = true.
Proof.
  intros He Hw H. induction H as [|row row' rows done Hr _ IH]; [reflexivity|].
  inversion Hw as [|? ? Hrow Hrows]; subst. simpl.
  rewrite (enhanced_row_writable fieldnames row row' He Hrow Hr). apply IH, Hrows.
Qed.

Lemma write_row_length fieldnames row :
  length (write_row fieldnames row) = length fieldnames.
Proof. unfold write_row. apply length_map. Qed.

Lemma enhanced_row_carried fieldnames row row' :
  enhanced_row row row' -> carried fieldnames row (write_row fieldnames row').
Proof.
  intros (_ & Hk & _). split; [apply write_row_length|].
  intros i key value Hi Hv Hne. unfold write_row.
  rewrite list_lookup_fmap, Hi. simpl. unfold Enhancer.row_get.
  rewrite (Hk key value Hv Hne). reflexivity.
Qed.

(** X18: for a CSV file whose records are all as long as its header, and
    whose header has the seven columns that a profile can fill,
    [enhance_csv] does not fail: no row is filtered or enhanced with an
    error and the writer accepts every row.  The output has the header
    of the input and one record for each row of the chosen team (of the
    file, without a team filter), in order; each record is as long as
    the header and holds, in its column, every text of its row that is
    not empty; and the count of enhanced rows is at most the number of
    records written. *)
Theorem enhance_csv_writes (fieldnames : list string) (records : list (list string))
    (force : bool) (team_filter : option string) (st : St World) :
  list_to_set (C := gset string) enrichable ⊆ list_to_set (C := gset string) fieldnames ->
  Forall (fun record : list string => length record = length fieldnames) records ->
  exists rows lines count st',
    filter_rows team_filter (read_rows fieldnames records) = inr rows
    /\ enhance_csv (fieldnames :: records) force team_filter st
       = (inr (fieldnames :: lines, count), st')
    /\ Forall2 (carried fieldnames) rows lines
    /\ (count <= length lines)%nat.
Proof.
  intros He Hr.
  destruct (filter_rows_whole fieldnames team_filter _ (read_rows_whole _ _ Hr))
    as (rows & Ef & Hw).
  destruct (yields_run _ _ st
              (enhance_rows_enhanced fieldnames force rows Hw [] [] 0%nat
                 (List.Forall2_nil _) (Nat.le_refl _)))
    as ([done count] & st' & E & Hd & Hc).
  simpl in Hd, Hc.
  exists rows, (map (write_row fieldnames) done), count, st'.
  split; [exact Ef|]. split.
  - unfold enhance_csv. rewrite Ef. unfold bind. rewrite E. cbn [fst snd].
    rewrite (enhanced_rows_writable fieldnames rows done He Hw Hd). reflexivity.
  - split; [|rewrite length_map; exact Hc].
    clear -Hd. induction Hd as [|row row' rows done Hr _ IH]; simpl; constructor.
    + apply enhanced_row_carried, Hr.
    + exact IH.
Qed.

End EnhanceRows.

Section EnhanceRowsExamples.
Import Html Scraper Shape EnhanceCsv Examples.

Lemma enhance_csv_writes_witness :
  exists rows lines count st',
    filter_rows (Some "duke")
      (read_rows ("name" :: "team" :: "url" :: enrichable)
         [ ["Ann Lee"; "Duke"; "https://example.edu/roster/ann-lee";
            ""; ""; ""; ""; ""; ""; ""];
           ["Bea Roy"; "Yale"; ""; "F"; ""; ""; ""; ""; ""; ""] ])
    = inr rows
    /\ enhance_csv
         (session := site_session
            [("https://example.edu/roster/ann-lee",
              Response 200 (page_of_bio [field "Position" "Defense"]))])
         (("name" :: "team" :: "url" :: enrichable)
          :: [ ["Ann Lee"; "Duke"; "https://example.edu/roster/ann-lee";
                ""; ""; ""; ""; ""; ""; ""];
               ["Bea Roy"; "Yale"; ""; "F"; ""; ""; ""; ""; ""; ""] ])
         false (Some "duke") start
       = (inr (("name" :: "team" :: "url" :: enrichable) :: lines, count), st')
    /\ Forall2 (carried ("name" :: "team" :: "url" :: enrichable)) rows lines
    /\ (count <= length lines)%nat.
Proof.
  apply enhance_csv_writes.
  - apply (bool_decide_unpack _). vm_compute. exact I.
  - repeat constructor.
Defined.

End EnhanceRowsExamples.

Section EnhanceAgain.
Import PyStr Html Scraper Shape EnhanceCsv.
Context {World : Type} {session : Session World}.

Lemma write_read_row (fieldnames record : list string) :
  NoDup fieldnames -> length record = length fieldnames ->
  write_row fieldnames (read_row fieldnames record) = record.
Proof.
  intros Hnd Hlen. apply list_eq. intros i. unfold write_row, read_row.
  rewrite list_lookup_fmap.
  destruct (fieldnames !! i) as [key|] eqn:Ek, (record !! i) as [c|] eqn:Ec; simpl.
  - unfold Enhancer.row_get.
    rewrite (read_cells_lookup fieldnames record ∅ i key c Hnd Ek Ec). reflexivity.
  - apply lookup_lt_Some in Ek. apply lookup_ge_None in Ec. lia.
  - apply lookup_lt_Some in Ec. apply lookup_ge_None in Ek. lia.
  - reflexivity.
Qed.

Lemma filled_row_is_skipped fieldnames (row : DictRow) (st : St World) :
  whole fieldnames row -> Enhancer.has_data (cells row) = true ->
  Enhancer.scrape_player_profile (cells row) false st = (inr (cells row), st).
Proof.
  intros (_ & _ & Hn) H. unfold Enhancer.scrape_player_profile, Enhancer.row_get_or_empty.
  specialize (Hn "url").
  destruct (cells row !! "url") as [[text|]|]; [|contradiction|];
    unfold Enhancer.scrape_profile_at; rewrite H;
    destruct (truthy (strip _)); reflexivity.
Qed.

Lemma filled_rows_are_skipped fieldnames (rows : list DictRow) :
  Forall (fun row => whole fieldnames row /\ Enhancer.has_data (cells row) = true) rows ->
  forall done count (st : St World),
    for_each (enhance_row false) (done, count) rows st
    = (inr ((done ++ rows)%list, count), st).
Proof.
  induction 1 as [|row rows [Hw Hd] _ IH]; intros done count st.
  - simpl. rewrite app_nil_r. reflexivity.
  - cbn [for_each]. unfold bind at 1. unfold enhance_row at 1. unfold bind at 1.
    rewrite (filled_row_is_skipped fieldnames row st Hw Hd). unfold ret at 1.
    rewrite bool_decide_eq_true_2 by reflexivity.
    rewrite IH, <- app_assoc. destruct row. reflexivity.
Qed.

Lemma rows_of_team_records fieldnames team_filter (records : list (list string)) :
  Forall (fun record => whole fieldnames (read_row fieldnames record)) records ->
  exists kept,
    rows_of_team team_filter (map (read_row fieldnames) records)
    = inr (map (read_row fieldnames) kept)
    /\ sublist kept records.
Proof.
  induction 1 as [|record records Hrow _ (kept & E & IH)]; simpl.
  - exists []. split; [reflexivity|constructor].
  - destruct (whole_team _ _ Hrow) as [team ->]. rewrite E.
    destruct (String.eqb (lower team) (lower team_filter)).
    + exists (record :: kept). split; [reflexivity|constructor; exact IH].
    + exists kept. split; [reflexivity|constructor; exact IH].
Qed.

Lemma filled_record_not_blank (fieldnames record : list string) :
  length record = length fieldnames ->
  Enhancer.has_data (cells (read_row fieldnames record)) = true ->
  blank record = false.
Proof.
  intros Hlen Hd. destruct record as [|c record]; [|reflexivity].
  destruct fieldnames; [|discriminate]. vm_compute in Hd. discriminate.
Qed.

(** X19: a run without [--force] over a file whose header has no name
    twice and whose records are all as long as the header and have a
    position, a height, a class or a hometown already sends no request
    and logs nothing, counts no enhanced row, and writes the header and
    the records of the chosen team as they were read, in order: without
    a team filter the output file is the input file. *)
Theorem enhance_csv_skips_filled (fieldnames : list string)
    (records : list (list string)) (team_filter : option string) (st : St World) :
  NoDup fieldnames ->
  Forall (fun record : list string =>
            length record = length fieldnames
            /\ Enhancer.has_data (cells (read_row fieldnames record)) = true) records ->
  exists kept,
    sublist kept records
    /\ filter_rows team_filter (read_rows fieldnames records)
       = inr (map (read_row fieldnames) kept)
    /\ enhance_csv (fieldnames :: records) false team_filter st
       = (inr (fieldnames :: kept, 0%nat), st)
    /\ (team_filter = None -> kept = records).
Proof.
  intros Hnd Hr.
  assert (Hskip : skip_blank records = records).
  { clear -Hr. induction Hr as [|record records [Hl Hd] _ IH]; simpl; [reflexivity|].
    rewrite (filled_record_not_blank fieldnames record Hl Hd), IH. reflexivity. }
  assert (Hwhole : Forall (fun record => whole fieldnames (read_row fieldnames record))
                     records).
  { eapply Forall_impl; [exact Hr|]. intros record [Hl _]. apply read_row_whole, Hl. }
  assert (Hkept : exists kept,
             sublist kept records
             /\ filter_rows team_filter (read_rows fieldnames records)
                = inr (map (read_row fieldnames) kept)
             /\ (team_filter = None -> kept = records)).
  { unfold filter_rows, read_rows. rewrite Hskip.
    destruct team_filter as [f|];
      [|exists records; split; [reflexivity|split; [reflexivity|intros _; reflexivity]]].
    destruct (truthy f);
      [|exists records; split; [reflexivity|split; [reflexivity|discriminate]]].
    destruct (rows_of_team_records fieldnames f records Hwhole) as (kept & E & Hs).
    exists kept. split; [exact Hs|]. split; [exact E|discriminate]. }
  destruct Hkept as (kept & Hs & Ef & Hnone).
  exists kept. split; [exact Hs|]. split; [exact Ef|]. split; [|exact Hnone].
  assert (Hk : Forall (fun record : list string =>
                         length record = length fieldnames
                         /\ Enhancer.has_data (cells (read_row fieldnames record)) = true)
                 kept).
  { apply Forall_forall. intros record Hin.
    apply (proj1 (Forall_forall _ _) Hr). apply (elem_of_sublist kept); assumption. }
  unfold enhance_csv. rewrite Ef. unfold bind.
  rewrite (filled_rows_are_skipped fieldnames).
  - cbn [app fst snd].
    assert (Hw : forallb (writable fieldnames) (map (read_row fieldnames) kept) = true).
    { clear -Hk. induction Hk as [|record kept [Hl _] _ IH]; simpl; [reflexivity|].
      rewrite IH, andb_true_r.
      destruct (read_row_whole fieldnames record Hl) as (Hrest & Hdom & _).
      unfold writable. rewrite Hrest. apply bool_decide_eq_true, Hdom. }
    assert (Hlines : map (write_row fieldnames) (map (read_row fieldnames) kept) = kept).
    { clear -Hk Hnd. induction Hk as [|record kept [Hl _] _ IH]; simpl; [reflexivity|].
      rewrite IH, (write_read_row fieldnames record Hnd Hl). reflexivity. }
    rewrite Hw, Hlines. reflexivity.
  - apply Forall_map. eapply Forall_impl; [exact Hk|].
    intros record [Hl Hd]. split; [apply read_row_whole, Hl|exact Hd].
Qed.

End EnhanceAgain.

Section EnhanceAgainExamples.
Import Html Scraper Shape EnhanceCsv Examples.

Lemma enhance_csv_skips_filled_witness :
  exists kept,
    sublist kept
      [ ["Ann Lee"; "Duke"; "https://example.edu/roster/ann-lee"; "D"];
        ["Bea Roy"; "Yale"; ""; "F"] ]
    /\ filter_rows (Some "Duke")
         (read_rows ["name"; "team"; "url"; "position"]
            [ ["Ann Lee"; "Duke"; "https://example.edu/roster/ann-lee"; "D"];
              ["Bea Roy"; "Yale"; ""; "F"] ])
       = inr (map (read_row ["name"; "team"; "url"; "position"]) kept)
    /\ enhance_csv (session := site_session [])
         [ ["name"; "team"; "url"; "position"];
           ["Ann Lee"; "Duke"; "https://example.edu/roster/ann-lee"; "D"];
           ["Bea Roy"; "Yale"; ""; "F"] ]
         false (Some "Duke") start
       = (inr (["name"; "team"; "url"; "position"] :: kept, 0%nat), start)
    /\ (Some "Duke" = None -> kept
        = [ ["Ann Lee"; "Duke"; "https://example.edu/roster/ann-lee"; "D"];
            ["Bea Roy"; "Yale"; ""; "F"] ]).
Proof.
  apply (enhance_csv_skips_filled (session := site_session [])
           ["name"; "team"; "url"; "position"]
           [ ["Ann Lee"; "Duke"; "https://example.edu/roster/ann-lee"; "D"];
             ["Bea Roy"; "Yale"; ""; "F"] ]
           (Some "Duke") start).
  - apply (bool_decide_unpack _). vm_compute. exact I.
  - repeat constructor.
Defined.

End EnhanceAgainExamples.

(** ** The records of a run *)

Section RunRecords.
Import PyStr FieldExtractors Html Scraper Shape Derived RosterManager.
Context {World : Type} {session : Session World}.

Lemma scrape_team_of_team the_team_id team_name the_season the_division profiles base_url :
  yields (World := World)
    (scrape_team the_team_id team_name the_season the_division profiles base_url)
    (Forall (of_team the_team_id team_name the_season the_division)).
Proof.
  apply scrape_team_all.
  - apply of_team_enriched.
  - intros html. apply page_records_all;
      [apply item_player_of_team|apply row_player_of_team].
Qed.

Lemma scrape_one_consistent (T : Team -> Prop) the_season acc team :
  T team -> consistent T the_season acc ->
  yields (World := World) (scrape_one acc team) (consistent T the_season).
Proof.
  intros Ht. destruct acc as [mgr all_players]. intros (Hs & Hp & Hl & Hz).
  simpl in Hs, Hp, Hl, Hz. unfold yields, scrape_one.
  apply (post_try _ _ _ (fun _ => False)); [|intros e []].
  apply (post_bind _ _
           (Forall (of_team (t_ncaa_id team) (t_team team) (mgr_season mgr) "")));
    [apply scrape_team_of_team|].
  intros players Hplayers. destruct (length players =? 0)%nat eqn:En.
  - apply warn_then_ret. repeat split; assumption.
  - apply post_ret. apply Nat.eqb_neq in En.
    unfold consistent; cbn [fst snd add_successful successful_teams mgr_season].
    split; [exact Hs|]. split; [|split].
    + apply Forall_app. split; [exact Hp|].
      eapply Forall_impl; [exact Hplayers|].
      intros p Hof. exists team. rewrite <- Hs. split; assumption.
    + rewrite length_app, map_app, list_sum_app, Hl. simpl. lia.
    + apply Forall_app. split; [exact Hz|]. constructor; [simpl; lia|constructor].
Qed.

Lemma scrape_loop_consistent (T : Team -> Prop) the_season teams :
  List.Forall T teams -> forall acc, consistent T the_season acc ->
  yields (World := World) (for_each scrape_one acc teams) (consistent T the_season).
Proof.
  induction 1 as [|team teams Ht _ IH]; intros acc Hacc; simpl.
  - apply post_ret, Hacc.
  - apply (post_bind _ _ (consistent T the_season)).
    + apply scrape_one_consistent; assumption.
    + intros acc' Hacc'. apply IH, Hacc'.
Qed.

(** X20: the records that a run returns are all records of teams that
    were to be scraped, with the identifier and the name of the team, the
    season of the run, no division and no player identifier; there are as
    many records as the report of successes counts, and no team is
    reported as a success with zero records. *)
Theorem scrape_teams_records (the_season : string) (profiles : bool) (teams : list Team)
    (max_teams : option Z) (st : St World) :
  exists mgr' all_players st',
    scrape_teams (init the_season profiles) teams max_teams st
    = (inr (mgr', all_players), st')
    /\ Forall (from_list (fun t => In t (teams_to_scrape teams max_teams)) the_season)
         all_players
    /\ length all_players = list_sum (map s_player_count (successful_teams mgr'))
    /\ Forall (fun e => (0 < s_player_count e)%nat) (successful_teams mgr').
Proof.
  destruct (yields_run _ _ st
              (scrape_loop_consistent
                 (fun t => In t (teams_to_scrape teams max_teams)) the_season
                 (teams_to_scrape teams max_teams)
                 (proj2 (List.Forall_forall _ _) (fun t H => H))
                 (init the_season profiles, [])
                 (conj eq_refl (conj (List.Forall_nil _)
                                  (conj eq_refl (List.Forall_nil _))))))
    as ([mgr' all_players] & st' & E & _ & Hp & Hl & Hz).
  exists mgr', all_players, st'. unfold scrape_teams. rewrite E. repeat split; assumption.
Qed.

End RunRecords.

(** ** The URL format of a team *)

Section UrlFormat.
Import PyStr Scraper TeamConfig.
Context {World : Type} {session : Session World}.

(** X21: the URL format of a team is fhockey when the team is one of the
    two configured teams (312 and 519) or its URL contains
    /sports/fhockey, and default otherwise; so the format is always one
    that [build_roster_url] knows, and the roster URL of a team is built
    without a warning and without any other effect. *)
Theorem get_url_format_known (team_id : Z) (team_url base_url season : string)
    (st : St World) :
  get_url_format team_id team_url
  = (if (team_id =? 312)%Z || (team_id =? 519)%Z || contains "/sports/fhockey" team_url
     then "fhockey" else "default")
  /\ build_roster_url base_url season (get_url_format team_id team_url) st
     = (inr (rstrip_slash base_url +:+ "/roster/" +:+ season), st).
Proof.
  assert (H : get_url_format team_id team_url
              = (if (team_id =? 312)%Z || (team_id =? 519)%Z
                    || contains "/sports/fhockey" team_url
                 then "fhockey" else "default")).
  { unfold get_url_format, TEAM_CONFIGS, config_of.
    rewrite (Z.eqb_sym 312 team_id), (Z.eqb_sym 519 team_id).
    destruct (team_id =? 312)%Z; [reflexivity|].
    destruct (team_id =? 519)%Z; [reflexivity|]. cbn [orb].
    destruct team_url as [|c r]; [reflexivity|]. cbn [truthy].
    destruct (contains "/sports/fhockey" (String c r)); [reflexivity|].
    destruct (contains "/sports/field-hockey" (String c r)); reflexivity. }
  split; [exact H|]. rewrite H.
  destruct ((team_id =? 312)%Z || (team_id =? 519)%Z
            || contains "/sports/fhockey" team_url); reflexivity.
Qed.

End UrlFormat.
